(** * HOG descriptor pipeline: a shallow embedding of [src/hog_descriptor.py]

    The five functions of the module are embedded as functions on lists
    (NumPy arrays become nested lists) whose entries are real numbers: the
    float32/float64 samples of the program are idealised as elements of [R],
    so rounding error of the floating-point operations is outside the model.
    Python exceptions are modelled by an error type; integer arguments that
    the program receives from its caller are in [Z], with Python's floor
    division, modulo, [range] and slice conventions written out. *)

From Stdlib Require Import Reals Machin Lra Lia List ZArith Bool.
Import ListNotations.

(** ** Exceptions *)

Inductive exn : Set :=
| AssertionError
| IndexError
| ValueError
| ZeroDivisionError
| RuntimeError.

Inductive result (A : Type) : Type :=
| OK (a : A)
| Raise (e : exn).

Arguments OK {A} a.
Arguments Raise {A} e.

Definition bind {A B : Type} (c : result A) (k : A -> result B) : result B :=
  match c with
  | OK a => k a
  | Raise e => Raise e
  end.

Notation "x <- c ;; k" := (bind c (fun x => k))
  (at level 61, c at next level, right associativity).
Notation "' p <- c ;; k" := (bind c (fun p => k))
  (at level 61, p pattern, c at next level, right associativity).

(** ** Python integers, ranges and slices *)

Module Py.

(** [a // b] and [a % b] on Python integers: floor division, the remainder
    has the sign of the divisor, a zero divisor raises. *)
Definition floordiv (a b : Z) : result Z :=
  if (b =? 0)%Z then Raise ZeroDivisionError else OK (a / b)%Z.

Definition mod_ (a b : Z) : result Z :=
  if (b =? 0)%Z then Raise ZeroDivisionError else OK (a mod b)%Z.

(** [range(n)]: empty when [n <= 0]. *)
Definition range (n : Z) : list Z :=
  map Z.of_nat (seq 0 (Z.to_nat n)).

(** One bound of a slice [l[start:stop]] on a sequence of length [n]: a
    negative bound counts from the end, then the bound is clipped. *)
Definition slice_index (n k : Z) : Z :=
  if (k <? 0)%Z then Z.max 0 (n + k) else Z.min n k.

Definition slice {A : Type} (start stop : Z) (l : list A) : list A :=
  let n := Z.of_nat (length l) in
  let s := slice_index n start in
  let e := slice_index n stop in
  firstn (Z.to_nat (e - s)) (skipn (Z.to_nat s) l).

(** [assert c]. *)
Definition assert (c : bool) : result unit :=
  if c then OK tt else Raise AssertionError.

End Py.

Open Scope R_scope.

(** ** Arrays *)

(** A two-dimensional array is a list of rows.  [nrows] and [ncols] are its
    shape; NumPy arrays are rectangular, which [rect] states. *)
Definition matrix := list (list R).

Definition nrows (x : matrix) : nat := length x.
Definition ncols (x : matrix) : nat := length (hd [] x).

Definition rect (x : matrix) : Prop :=
  Forall (fun r => length r = ncols x) x.

(** What [torch.squeeze(...).numpy()] gives back: every axis of extent one
    is removed, so the result has zero, one or two axes. *)
Inductive ndarray : Type :=
| Arr0 (v : R)
| Arr1 (v : list R)
| Arr2 (v : matrix).

Definition zeros (n : nat) : list R := repeat 0 n.

(** ** Stage 1: [compute_image_gradients] *)

Definition SOBEL_X_KERNEL : matrix :=
  [ [-1; 0; 1];
    [-2; 0; 2];
    [-1; 0; 1] ].

Definition SOBEL_Y_KERNEL : matrix :=
  [ [1; 2; 1];
    [0; 0; 0];
    [-1; -2; -1] ].

(** [padding = p] of [conv2d]: [p] rows and columns of zeros on every side. *)
Definition pad2d (p : nat) (x : matrix) : matrix :=
  let w := (ncols x + 2 * p)%nat in
  repeat (zeros w) p
    ++ map (fun r => zeros p ++ r ++ zeros p) x
    ++ repeat (zeros w) p.

Fixpoint dot (k r : list R) : R :=
  match k, r with
  | a :: k', b :: r' => a * b + dot k' r'
  | _, _ => 0
  end.

Fixpoint dot2 (k x : matrix) : R :=
  match k, x with
  | kr :: k', xr :: x' => dot kr xr + dot2 k' x'
  | _, _ => 0
  end.

(** [nn.functional.conv2d(x, k, padding = p)] for one batch entry, one input
    and one output channel, stride 1, no bias: the kernel slides over the
    padded input without being flipped.  The library refuses an input whose
    padded extent is smaller than the kernel. *)
Definition conv2d (x k : matrix) (p : nat) : result matrix :=
  let h := (nrows x + 2 * p)%nat in
  let w := (ncols x + 2 * p)%nat in
  if ((h <? nrows k) || (w <? ncols k))%nat then Raise RuntimeError
  else
    let xp := pad2d p x in
    OK (map (fun i =>
               map (fun j => dot2 k (map (skipn j) (skipn i xp)))
                   (seq 0 (w - ncols k + 1)))
            (seq 0 (h - nrows k + 1))).

(** [torch.squeeze] on the (1, 1, h, w) output, then [.numpy()]. *)
Definition squeeze (x : matrix) : ndarray :=
  if (nrows x =? 1)%nat then
    if (ncols x =? 1)%nat then Arr0 (nth 0 (nth 0 x []) 0)
    else Arr1 (nth 0 x [])
  else
    if (ncols x =? 1)%nat then Arr1 (map (fun r => nth 0 r 0) x)
    else Arr2 x.

Definition compute_image_gradients (img_gray : matrix)
  : result (ndarray * ndarray) :=
  let px := ((length SOBEL_X_KERNEL - 1) / 2)%nat in
  let py := ((length SOBEL_Y_KERNEL - 1) / 2)%nat in
  Ix <- conv2d img_gray SOBEL_X_KERNEL px ;;
  Iy <- conv2d img_gray SOBEL_Y_KERNEL py ;;
  OK (squeeze Ix, squeeze Iy).

(** ** Stage 2: [compute_magnitudes_and_orientations] *)

(** [np.arctan2(y, x)] on real numbers: the angle of the point [(x, y)],
    with the value 0 at the origin. *)
Definition arctan2 (y x : R) : R :=
  if Rlt_dec 0 x then atan (y / x)
  else if Rlt_dec x 0 then
    if Rle_dec 0 y then atan (y / x) + PI else atan (y / x) - PI
  else if Rlt_dec 0 y then PI / 2
  else if Rlt_dec y 0 then - (PI / 2)
  else 0.

Definition map2 {A B C : Type} (f : A -> B -> C) (l1 : list A) (l2 : list B)
  : list C :=
  map (fun p => f (fst p) (snd p)) (combine l1 l2).

Definition arr_map (f : R -> R) (a : ndarray) : ndarray :=
  match a with
  | Arr0 x => Arr0 (f x)
  | Arr1 x => Arr1 (map f x)
  | Arr2 x => Arr2 (map (map f) x)
  end.

(** An elementwise binary operation.  Both operands are outputs of
    [compute_image_gradients] on one image and have one shape; operands with
    a different number of axes do not arise there and raise. *)
Definition arr_map2 (f : R -> R -> R) (a b : ndarray) : result ndarray :=
  match a, b with
  | Arr0 x, Arr0 y => OK (Arr0 (f x y))
  | Arr1 x, Arr1 y => OK (Arr1 (map2 f x y))
  | Arr2 x, Arr2 y => OK (Arr2 (map2 (map2 f) x y))
  | _, _ => Raise ValueError
  end.

Definition compute_magnitudes_and_orientations (image_gray : matrix)
  : result (ndarray * ndarray) :=
  ' (Ix, Iy) <- compute_image_gradients image_gray ;;
  grad_magnitude <-
    arr_map2 Rplus (arr_map (fun x => x ^ 2) Ix)
             (arr_map (fun y => y ^ 2) Iy) ;;
  orientation <- arr_map2 arctan2 Iy Ix ;;
  OK (orientation, grad_magnitude).

(** ** Stage 3: [create_histogram] and [create_image_histograms] *)

Definition Rltb (x y : R) : bool := if Rlt_dec x y then true else false.
Definition Rleb (x y : R) : bool := if Rle_dec x y then true else false.

(** [np.rint]: the nearest integer, a tie going to the even one. *)
Definition rint (y : R) : R :=
  let f := Int_part y in
  let d := frac_part y in
  if Rlt_dec d (1 / 2) then IZR f
  else if Rlt_dec (1 / 2) d then IZR (f + 1)
  else if Z.even f then IZR f else IZR (f + 1).

(** [np.around(x, decimals)] for [decimals >= 0]: scale, [rint], scale back. *)
Definition around (decimals : nat) (x : R) : R :=
  rint (x * 10 ^ decimals) / 10 ^ decimals.

(** [np.linspace(start, stop, num)] with the end point included. *)
Definition linspace (start stop : R) (num : nat) : list R :=
  let div := (num - 1)%nat in
  let delta := stop - start in
  let y :=
    map (fun i =>
           if (div =? 0)%nat then INR i * delta + start
           else INR i * (delta / INR div) + start)
        (seq 0 num) in
  if (1 <? num)%nat then removelast y ++ [stop] else y.

(** The total weight of the samples that satisfy [p]. *)
Fixpoint wsum (p : R -> bool) (a w : list R) : R :=
  match a, w with
  | x :: a', c :: w' => (if p x then c else 0) + wsum p a' w'
  | _, _ => 0
  end.

(** [np.diff]. *)
Definition diff (l : list R) : list R :=
  map2 (fun hi lo => hi - lo) (tl l) l.

Definition increasing (bins : list R) : bool :=
  forallb (fun p => Rleb (fst p) (snd p)) (combine bins (tl bins)).

(** The cumulative weights [np.histogram] computes at the edges: the weight
    strictly below every edge but the last, and the weight up to and
    including the last edge. *)
Definition cum_weights (a w bins : list R) : list R :=
  map (fun e => wsum (fun x => Rltb x e) a w) (removelast bins)
    ++ map (fun e => wsum (fun x => Rleb x e) a w)
           (skipn (length bins - 1) bins).

(** [np.histogram(a, bins, weights = w)[0]] for an array of bin edges: the
    arguments are flattened, must have one shape, the edges must not
    decrease, and the counts are the differences of the cumulative
    weights. *)
Definition np_histogram (a : matrix) (bins : list R) (w : matrix)
  : result (list R) :=
  if negb ((nrows a =? nrows w)%nat && (ncols a =? ncols w)%nat)
  then Raise ValueError
  else if negb (increasing bins) then Raise ValueError
  else OK (diff (cum_weights (concat a) (concat w) bins)).

Definition bin_edges (num_bins : nat) : list R :=
  linspace (- PI - PI / 8) (PI - PI / 8) (num_bins + 1).

Definition create_histogram (cell_magnitudes cell_orientations : matrix)
           (num_bins : nat) : result (list R * list R) :=
  let bin_ticks := bin_edges num_bins in
  histogram <-
    np_histogram (map (map (around 5)) cell_orientations) bin_ticks
                 cell_magnitudes ;;
  OK (histogram, bin_ticks).

(** A [for] loop over a list of indices with the loop state threaded
    through; an exception in the body ends the loop. *)
Fixpoint for_ {S I : Type} (l : list I) (body : I -> S -> result S) (s : S)
  : result S :=
  match l with
  | [] => OK s
  | i :: l' => s' <- body i s ;; for_ l' body s'
  end.

Definition grid := list (list (list R)).

(** [np.zeros((m, n, d))]: a negative extent raises. *)
Definition np_zeros3 (m n d : Z) : result grid :=
  if ((m <? 0) || (n <? 0) || (d <? 0))%Z then Raise ValueError
  else OK (repeat (repeat (zeros (Z.to_nat d)) (Z.to_nat n)) (Z.to_nat m)).

(** An integer index on an axis of extent [n]: a negative index counts from
    the end, an index outside the axis raises. *)
Definition index (n : nat) (k : Z) : result nat :=
  let k' := if (k <? 0)%Z then (k + Z.of_nat n)%Z else k in
  if ((0 <=? k') && (k' <? Z.of_nat n))%Z then OK (Z.to_nat k')
  else Raise IndexError.

Fixpoint set_nth {A : Type} (n : nat) (v : A) (l : list A) : list A :=
  match n, l with
  | O, _ :: l' => v :: l'
  | S n', x :: l' => x :: set_nth n' v l'
  | _, [] => []
  end.

(** [g[i, j] = v] for a three-axis array [g] and a one-axis [v]: [v] must
    have the extent of the last axis, or extent one (then it is repeated). *)
Definition setitem2 (g : grid) (i j : Z) (v : list R) : result grid :=
  i' <- index (length g) i ;;
  let row := nth i' g [] in
  j' <- index (length row) j ;;
  let d := length (nth j' row []) in
  if (length v =? d)%nat then OK (set_nth i' (set_nth j' v row) g)
  else if (length v =? 1)%nat
       then OK (set_nth i' (set_nth j' (repeat (nth 0 v 0) d) row) g)
       else Raise ValueError.

(** [x[r0:r1, c0:c1]]: two indices need an array of two axes. *)
Definition getslice2 (x : ndarray) (r0 r1 c0 c1 : Z) : result matrix :=
  match x with
  | Arr2 m => OK (map (Py.slice c0 c1) (Py.slice r0 r1 m))
  | _ => Raise IndexError
  end.

(** The body of the two nested loops of [create_image_histograms]; the
    loop state is the grid and the variable [bin_ticks]. *)
Definition cell_step (orientation grad_magnitude : ndarray) (cell_size : Z)
           (num_bins : nat) (i j : Z) (st : grid * option (list R))
  : result (grid * option (list R)) :=
  cell_orientations <-
    getslice2 orientation (i * cell_size) ((i + 1) * cell_size)
              (j * cell_size) ((j + 1) * cell_size) ;;
  cell_magnitudes <-
    getslice2 grad_magnitude (i * cell_size) ((i + 1) * cell_size)
              (j * cell_size) ((j + 1) * cell_size) ;;
  ' (histogram, bin_ticks) <-
    create_histogram cell_magnitudes cell_orientations num_bins ;;
  g <- setitem2 (fst st) i j histogram ;;
  OK (g, Some bin_ticks).

Definition create_image_histograms (image_gray : matrix) (cell_size : Z)
  : result (grid * option (list R)) :=
  let N := Z.of_nat (nrows image_gray) in
  let M := Z.of_nat (ncols image_gray) in
  ' (orientation, grad_magnitude) <-
    compute_magnitudes_and_orientations image_gray ;;
  rm <- Py.mod_ M cell_size ;;
  _ <- Py.assert (rm =? 0)%Z ;;
  rn <- Py.mod_ N cell_size ;;
  _ <- Py.assert (rn =? 0)%Z ;;
  let num_bins := 8%nat in
  qm <- Py.floordiv M cell_size ;;
  histogram_grid <- np_zeros3 qm qm (Z.of_nat num_bins) ;;
  qn <- Py.floordiv N cell_size ;;
  for_ (Py.range qm)
       (fun i =>
          for_ (Py.range qn)
               (cell_step orientation grad_magnitude cell_size num_bins i))
       (histogram_grid, None).

(** ** Stage 4: [create_descriptor] *)

(** [np.linalg.norm] of a vector. *)
Definition norm (v : list R) : R := sqrt (dot v v).

Definition normalize (v : list R) : list R :=
  if Req_dec_T (norm v) 0 then v else map (fun x => x / norm v) v.

(** [len(histogram_grid[0])] and [len(histogram_grid[0][0])]: indexing an
    empty axis raises. *)
Definition len_at0 {A : Type} (l : list (list A)) : result Z :=
  match l with
  | [] => Raise IndexError
  | r :: _ => OK (Z.of_nat (length r))
  end.

Definition window (histogram_grid : grid) (r0 r1 c0 c1 : Z) : grid :=
  map (Py.slice c0 c1) (Py.slice r0 r1 histogram_grid).

Definition flatten (block : grid) : list R := concat (concat block).

(** The body of the two nested loops of [create_descriptor]; the loop
    state is [block_grid]. *)
Definition block_step (histogram_grid : grid) (block_size step_size : Z)
           (i j : Z) (block_grid : grid) : result grid :=
  let block :=
    window histogram_grid
           (i * step_size) (i * step_size + block_size)
           (j * step_size) (j * step_size + block_size) in
  let block_concat := flatten block in
  setitem2 block_grid i j (normalize block_concat).

Definition create_descriptor (histogram_grid : grid)
           (block_size step_size : Z) : result grid :=
  let M := Z.of_nat (length histogram_grid) in
  N <- len_at0 histogram_grid ;;
  _ <- Py.assert ((block_size <=? M) && (block_size <=? N))%Z ;;
  m <- Py.floordiv (M - (block_size - 1)) step_size ;;
  n <- Py.floordiv (N - (block_size - 1)) step_size ;;
  B <- len_at0 (hd [] histogram_grid) ;;
  block_grid <- np_zeros3 m n (B * block_size ^ 2) ;;
  for_ (Py.range m)
       (fun i =>
          for_ (Py.range n) (block_step histogram_grid block_size step_size i))
       block_grid.

(** ** Vocabulary of the statements *)

(** The image extended by zero outside its index range: the sample at row
    [i], column [j] when the position is inside the image, 0 otherwise. *)
Definition pix (x : matrix) (i j : Z) : R :=
  if ((0 <=? i) && (i <? Z.of_nat (nrows x))
      && (0 <=? j) && (j <? Z.of_nat (ncols x)))%Z
  then nth (Z.to_nat j) (nth (Z.to_nat i) x []) 0
  else 0.

Definition Rsum (l : list R) : R := fold_right Rplus 0 l.

(** The sliding 3x3 weighted sum around position [(i, j)]: kernel entry
    [(a, b)] multiplies the sample at [(i + a - 1, j + b - 1)]. *)
Definition correlate3 (k x : matrix) (i j : nat) : R :=
  Rsum (map (fun a =>
          Rsum (map (fun b =>
                  nth b (nth a k []) 0
                  * pix x (Z.of_nat i + Z.of_nat a - 1)
                          (Z.of_nat j + Z.of_nat b - 1))
               (seq 0 3)))
       (seq 0 3)).

Definition has_shape (x : matrix) (h w : nat) : Prop :=
  nrows x = h /\ Forall (fun r => length r = w) x.

(** The output of [conv2d] with a 3x3 kernel and padding 1. *)
Definition sobel_out (k x : matrix) : matrix :=
  map (fun i =>
         map (fun j => dot2 k (map (skipn j) (skipn i (pad2d 1 x))))
             (seq 0 (ncols x)))
      (seq 0 (nrows x)).

Definition edge3 : matrix := [[0; 0; 255]; [0; 0; 255]; [0; 0; 255]].

Definition ramp2 : matrix := [[1; 2]; [3; 4]].


(** The entries of an array, in storage order. *)
Definition arr_entries (a : ndarray) : list R :=
  match a with
  | Arr0 x => [x]
  | Arr1 v => v
  | Arr2 m => concat m
  end.

(** Two arrays of one shape. *)
Definition same_shape (a b : ndarray) : Prop :=
  match a, b with
  | Arr0 _, Arr0 _ => True
  | Arr1 u, Arr1 v => length u = length v
  | Arr2 m, Arr2 n => map (@length R) m = map (@length R) n
  | _, _ => False
  end.

(** [o] is the angle of the point [(x, y)]: the point lies at the distance
    [sqrt (x^2 + y^2)] from the origin in the direction [o], with [o] in
    (-pi, pi] and [o = 0] for the origin, which has no direction. *)
Definition angle_of (y x o : R) : Prop :=
  - PI < o <= PI
  /\ x = sqrt (x ^ 2 + y ^ 2) * cos o
  /\ y = sqrt (x ^ 2 + y ^ 2) * sin o
  /\ (x = 0 -> y = 0 -> o = 0).

(** [y] is [x] rounded to [d] decimal digits: the multiple of [10^-d]
    nearest to [x], the even multiple when [x] lies half way between
    two. *)
Definition rounded (d : nat) (x y : R) : Prop :=
  exists n : Z,
    y = IZR n / 10 ^ d
    /\ Rabs (x * 10 ^ d - IZR n) <= 1 / 2
    /\ (Rabs (x * 10 ^ d - IZR n) = 1 / 2 -> Z.even n = true).

(** Whether a value lies between the outer bin edges (both included). *)
Definition in_edges (x : R) : bool :=
  Rleb (- PI - PI / 8) x && Rleb x (PI - PI / 8).

(** A one-pixel cell whose gradient points along the negative x axis
    ([Ix = -1], [Iy = 0]). *)
Definition west_cell_orientations : matrix := [[arctan2 0 (-1)]].
Definition west_cell_magnitudes : matrix := [[(-1) ^ 2 + 0 ^ 2]].

(** The 4x4 image with a vertical edge: the left half has the intensity 0,
    the right half 255. *)
Definition edge4 : matrix :=
  [[0; 0; 255; 255]; [0; 0; 255; 255]; [0; 0; 255; 255]; [0; 0; 255; 255]].

(** The shape of a three-axis array. *)
Definition grid_shape (g : grid) (m n d : nat) : Prop :=
  length g = m
  /\ Forall (fun row =>
               length row = n /\ Forall (fun c => length c = d) row) g.

(** The entry [g[i, j]] (a vector along the last axis). *)
Definition slot (g : grid) (i j : nat) : list R := nth j (nth i g []) [].

(** Two arrays with the same row lengths. *)
Definition samedims (a b : matrix) : Prop :=
  map (@length R) a = map (@length R) b.

(** The cell of an array at grid position [(i, j)], as the loop slices it. *)
Definition cell_of (x : matrix) (cell_size i j : Z) : matrix :=
  map (Py.slice (j * cell_size) ((j + 1) * cell_size))
      (Py.slice (i * cell_size) ((i + 1) * cell_size) x).

(** The histogram of the cell at grid position [(i, j)]. *)
Definition cell_histogram (O G : matrix) (cell_size : Z) (num_bins : nat)
           (i j : Z) : list R :=
  diff (cum_weights
          (concat (map (map (around 5)) (cell_of O cell_size i j)))
          (concat (cell_of G cell_size i j))
          (bin_edges num_bins)).

(** A 10x10 image of constant intensity; a 2x4 and a 4x2 image. *)
Definition flat10 : matrix := repeat (repeat 0 10) 10.
Definition wide24 : matrix := [[0; 0; 255; 255]; [0; 0; 255; 255]].
Definition tall42 : matrix := [[0; 0]; [0; 0]; [255; 255]; [255; 255]].

(** A vector all of whose entries are zero. *)
Definition all_zero (v : list R) : Prop := Forall (fun x => x = 0) v.

(** The block gathered at block position [(i, j)], flattened. *)
Definition block_vector (histogram_grid : grid) (block_size step_size : Z)
           (i j : Z) : list R :=
  flatten (window histogram_grid
                  (i * step_size) (i * step_size + block_size)
                  (j * step_size) (j * step_size + block_size)).

(** A one-cell grid whose histogram is [3; 4]. *)
Definition grid34 : grid := [[[3; 4]]].

(** A 2x2 grid of two-bin histograms, one cell of which is not zero. *)
Definition grid22 : grid := [[[0; 0]; [3; 0]]; [[0; 4]; [0; 0]]].

(** ** Vocabulary of the further properties *)

(** Edge [k] of the histogram with [B] bins. *)
Definition edge (B k : nat) : R := nth k (bin_edges B) 0.

(** Whether a value is counted in bin [k] of [B]: at or above the lower
    edge and below the upper edge, the upper edge included for the last
    bin. *)
Definition in_bin (B k : nat) (x : R) : bool :=
  Rleb (edge B k) x
  && (if (S k =? B)%nat then Rleb x (edge B (S k))
      else Rltb x (edge B (S k))).

(** The number of axes of an array. *)
Definition ndim (a : ndarray) : nat :=
  match a with
  | Arr0 _ => 0
  | Arr1 _ => 1
  | Arr2 _ => 2
  end.

(** The image of [h] rows and [w] columns with the intensity [c]
    everywhere. *)
Definition const_image (h w : nat) (c : R) : matrix := repeat (repeat c w) h.

(** An image with a single row. *)
Definition row3 : matrix := [[1; 2; 3]].

(** The histogram grid with every entry multiplied by [c]. *)
Definition scale_grid (c : R) (hg : grid) : grid :=
  map (map (map (Rmult c))) hg.

(** The image with every sample multiplied by [c]. *)
Definition scale_image (c : R) (img : matrix) : matrix :=
  map (map (Rmult c)) img.

(** A loop state of [create_image_histograms] with the grid rescaled. *)
Definition scale_state (k : R) (st : grid * option (list R))
  : grid * option (list R) :=
  (scale_grid k (fst st), snd st).
(** * Properties *)

(** ** The monad *)

Lemma bind_OK {A B : Type} (c : result A) (k : A -> result B) (b : B) :
  bind c k = OK b -> exists a, c = OK a /\ k a = OK b.
Proof.
  destruct c as [a | e]; simpl; intros H; [ | discriminate ].
  exists a; split; [ reflexivity | exact H ].
Qed.

(** Extents of literal arrays. *)
Ltac extent :=
  unfold nrows, ncols; cbn [length hd repeat Z.of_nat]; lia.

Ltac inv_bind H :=
  let a := fresh "a" in
  let Ha := fresh "Ha" in
  apply bind_OK in H; destruct H as [a [Ha H]].

(** ** The Python primitives on small inputs *)

Example floordiv_floor : Py.floordiv (-7) 2 = OK (-4)%Z.
Proof. reflexivity. Qed.

Example mod_sign_of_divisor : Py.mod_ 10 (-3) = OK (-2)%Z.
Proof. reflexivity. Qed.

Example mod_zero_divisor : Py.mod_ 10 0 = Raise ZeroDivisionError.
Proof. reflexivity. Qed.

Example range_3 : Py.range 3 = [0; 1; 2]%Z.
Proof. reflexivity. Qed.

Example range_negative : Py.range (-2) = [].
Proof. reflexivity. Qed.

Example slice_inside : Py.slice 1 3 [10; 20; 30; 40]%Z = [20; 30]%Z.
Proof. reflexivity. Qed.

Example slice_clipped : Py.slice 2 6 [10; 20; 30; 40]%Z = [30; 40]%Z.
Proof. reflexivity. Qed.

Example slice_past_end : Py.slice 4 8 [10; 20; 30; 40]%Z = [].
Proof. reflexivity. Qed.

Example slice_from_end : Py.slice 0 (-1) [10; 20; 30; 40]%Z = [10; 20; 30]%Z.
Proof. reflexivity. Qed.

Example index_last : index 4 (-1) = OK 3%nat.
Proof. reflexivity. Qed.

Example index_outside : index 4 4 = Raise IndexError.
Proof. reflexivity. Qed.

(** ** Stage 1 *)

Lemma dot_nil_r (k : list R) : dot k [] = 0.
Proof. destruct k; reflexivity. Qed.

Lemma dot2_nil_r (k : matrix) : dot2 k [] = 0.
Proof. destruct k; reflexivity. Qed.

Lemma dot_3 (a b c : R) (l : list R) :
  dot [a; b; c] l = a * nth 0 l 0 + b * nth 1 l 0 + c * nth 2 l 0.
Proof. destruct l as [ | x [ | y [ | z t ] ] ]; simpl; ring. Qed.

Lemma dot2_3 (k0 k1 k2 : list R) (y : matrix) :
  dot2 [k0; k1; k2] y
  = dot k0 (nth 0 y []) + dot k1 (nth 1 y []) + dot k2 (nth 2 y []).
Proof.
  destruct y as [ | r0 [ | r1 [ | r2 t ] ] ]; simpl;
    rewrite ?dot_nil_r; ring.
Qed.

Lemma nth_map_skipn (j a : nat) (l : matrix) :
  nth a (map (skipn j) l) [] = skipn j (nth a l []).
Proof.
  revert a; induction l as [ | r l IH ]; intros [ | a ]; simpl;
    rewrite ?skipn_nil; auto.
Qed.

Lemma nth_window (x : matrix) (i j a b : nat) :
  nth b (nth a (map (skipn j) (skipn i x)) []) 0
  = nth (j + b) (nth (i + a) x []) 0.
Proof. now rewrite nth_map_skipn, !nth_skipn. Qed.

Lemma dot2_window (a b c d e f g h k : R) (x : matrix) (i j : nat) :
  dot2 [[a; b; c]; [d; e; f]; [g; h; k]] (map (skipn j) (skipn i x))
  = a * nth (j + 0) (nth (i + 0) x []) 0
    + b * nth (j + 1) (nth (i + 0) x []) 0
    + c * nth (j + 2) (nth (i + 0) x []) 0
    + d * nth (j + 0) (nth (i + 1) x []) 0
    + e * nth (j + 1) (nth (i + 1) x []) 0
    + f * nth (j + 2) (nth (i + 1) x []) 0
    + g * nth (j + 0) (nth (i + 2) x []) 0
    + h * nth (j + 1) (nth (i + 2) x []) 0
    + k * nth (j + 2) (nth (i + 2) x []) 0.
Proof. rewrite dot2_3, !dot_3, !nth_window; ring. Qed.

Lemma nth_zeros (n j : nat) : nth j (zeros n) 0 = 0.
Proof. apply nth_repeat. Qed.

Lemma nth_pad_row (r : list R) (j : nat) :
  nth j (zeros 1 ++ r ++ zeros 1) 0
  = match j with O => 0 | S j' => nth j' r 0 end.
Proof.
  destruct j as [ | j ]; simpl; [ reflexivity | ].
  destruct (Nat.lt_ge_cases j (length r)) as [Hlt | Hge].
  - now rewrite app_nth1.
  - rewrite app_nth2, (nth_overflow r) by lia.
    destruct (j - length r)%nat as [ | [ | n ] ]; reflexivity.
Qed.

Lemma nth_pad2d (x : matrix) (i j : nat) :
  nth j (nth i (pad2d 1 x) []) 0
  = match i, j with
    | S i', S j' => nth j' (nth i' x []) 0
    | _, _ => 0
    end.
Proof.
  unfold pad2d; cbn [repeat app].
  destruct i as [ | i ]; cbn [nth]; [ apply nth_zeros | ].
  destruct (Nat.lt_ge_cases i (length x)) as [Hlt | Hge].
  - rewrite app_nth1 by now rewrite length_map.
    rewrite (nth_indep _ [] (zeros 1 ++ [] ++ zeros 1))
      by now rewrite length_map.
    rewrite (map_nth (fun r => zeros 1 ++ r ++ zeros 1)), nth_pad_row.
    reflexivity.
  - rewrite app_nth2 by now rewrite length_map.
    rewrite (nth_overflow x) by lia.
    rewrite length_map.
    destruct (i - length x)%nat as [ | [ | n ] ];
      destruct j as [ | [ | j ] ]; cbn [nth]; rewrite ?nth_zeros;
      reflexivity.
Qed.

Lemma pix_nth (x : matrix) (i j : nat) :
  rect x -> pix x (Z.of_nat i) (Z.of_nat j) = nth j (nth i x []) 0.
Proof.
  intros Hr; unfold pix; rewrite !Nat2Z.id.
  destruct (Nat.lt_ge_cases i (nrows x)) as [Hi | Hi].
  - assert (Hlen : length (nth i x []) = ncols x).
    { unfold rect in Hr; rewrite Forall_forall in Hr.
      apply Hr, nth_In, Hi. }
    destruct (Nat.lt_ge_cases j (ncols x)) as [Hj | Hj].
    + replace (_ && _ && _ && _)%bool with true; [ reflexivity | ].
      symmetry; rewrite !andb_true_iff; repeat split; lia.
    + rewrite (nth_overflow (nth i x [])) by lia.
      now destruct (_ && _ && _ && _)%bool.
  - rewrite (nth_overflow x) by (unfold nrows in Hi; lia).
    destruct (_ && _ && _ && _)%bool; destruct j; reflexivity.
Qed.

Lemma pix_outside (x : matrix) (i j : Z) :
  (i < 0 \/ j < 0)%Z -> pix x i j = 0.
Proof.
  intros H; unfold pix.
  replace (_ && _ && _ && _)%bool with false; [ reflexivity | ].
  symmetry; rewrite !andb_false_iff; lia.
Qed.

Lemma padded_pix (x : matrix) (i j : nat) :
  rect x ->
  nth j (nth i (pad2d 1 x) []) 0
  = pix x (Z.of_nat i - 1) (Z.of_nat j - 1).
Proof.
  intros Hr; rewrite nth_pad2d.
  destruct i as [ | i ]; [ now rewrite pix_outside by lia | ].
  destruct j as [ | j ]; [ now rewrite pix_outside by lia | ].
  replace (Z.of_nat (S i) - 1)%Z with (Z.of_nat i) by lia.
  replace (Z.of_nat (S j) - 1)%Z with (Z.of_nat j) by lia.
  now rewrite pix_nth.
Qed.

Lemma nth_map_seq {A : Type} (f : nat -> A) (n i : nat) (d : A) :
  (i < n)%nat -> nth i (map f (seq 0 n)) d = f i.
Proof.
  intros Hi.
  rewrite (nth_indep _ d (f 0%nat)) by now rewrite length_map, length_seq.
  now rewrite map_nth, seq_nth.
Qed.

Lemma conv2d_3x3 (k x : matrix) :
  nrows k = 3%nat -> ncols k = 3%nat ->
  (1 <= nrows x)%nat -> (1 <= ncols x)%nat ->
  conv2d x k 1 = OK (sobel_out k x).
Proof.
  intros Hk1 Hk2 Hh Hw; unfold conv2d, sobel_out; rewrite Hk1, Hk2.
  replace ((nrows x + 2 * 1 <? 3)%nat || (ncols x + 2 * 1 <? 3)%nat)%bool
    with false
    by (symmetry; rewrite orb_false_iff, !Nat.ltb_ge; lia).
  replace (nrows x + 2 * 1 - 3 + 1)%nat with (nrows x) by lia.
  replace (ncols x + 2 * 1 - 3 + 1)%nat with (ncols x) by lia.
  reflexivity.
Qed.

Lemma conv2d_empty (k x : matrix) :
  nrows k = 3%nat -> ncols k = 3%nat ->
  nrows x = 0%nat \/ ncols x = 0%nat ->
  conv2d x k 1 = Raise RuntimeError.
Proof.
  intros Hk1 Hk2 H0; unfold conv2d; rewrite Hk1, Hk2.
  replace ((nrows x + 2 * 1 <? 3)%nat || (ncols x + 2 * 1 <? 3)%nat)%bool
    with true; [ reflexivity | ].
  symmetry; rewrite orb_true_iff, !Nat.ltb_lt; lia.
Qed.

Lemma gradients_ok (img : matrix) :
  (1 <= nrows img)%nat -> (1 <= ncols img)%nat ->
  compute_image_gradients img
  = OK (squeeze (sobel_out SOBEL_X_KERNEL img),
        squeeze (sobel_out SOBEL_Y_KERNEL img)).
Proof.
  intros Hh Hw; unfold compute_image_gradients.
  change ((length SOBEL_X_KERNEL - 1) / 2)%nat with 1%nat.
  change ((length SOBEL_Y_KERNEL - 1) / 2)%nat with 1%nat.
  rewrite !conv2d_3x3 by (reflexivity || assumption).
  reflexivity.
Qed.

Lemma gradients_empty (img : matrix) :
  nrows img = 0%nat \/ ncols img = 0%nat ->
  compute_image_gradients img = Raise RuntimeError.
Proof.
  intros H0; unfold compute_image_gradients.
  change ((length SOBEL_X_KERNEL - 1) / 2)%nat with 1%nat.
  now rewrite conv2d_empty by (reflexivity || assumption).
Qed.

Lemma sobel_out_shape (k x : matrix) :
  has_shape (sobel_out k x) (nrows x) (ncols x).
Proof.
  unfold has_shape, sobel_out, nrows; split.
  - now rewrite length_map, length_seq.
  - rewrite Forall_forall; intros r Hin.
    apply in_map_iff in Hin; destruct Hin as [i [<- _]].
    now rewrite length_map, length_seq.
Qed.

Lemma sobel_out_ncols (k x : matrix) :
  (1 <= nrows x)%nat -> ncols (sobel_out k x) = ncols x.
Proof.
  intros Hh; destruct (sobel_out_shape k x) as [Hn Hall].
  unfold ncols at 1.
  destruct (sobel_out k x) as [ | r t ]; [ simpl in Hn; lia | ].
  now inversion Hall.
Qed.

Lemma squeeze_2d (x : matrix) :
  (2 <= nrows x)%nat -> (2 <= ncols x)%nat -> squeeze x = Arr2 x.
Proof.
  intros Hh Hw; unfold squeeze.
  destruct (Nat.eqb_spec (nrows x) 1); [ lia | ].
  destruct (Nat.eqb_spec (ncols x) 1); [ lia | reflexivity ].
Qed.

Lemma gradients_2d (img : matrix) :
  (2 <= nrows img)%nat -> (2 <= ncols img)%nat ->
  compute_image_gradients img
  = OK (Arr2 (sobel_out SOBEL_X_KERNEL img),
        Arr2 (sobel_out SOBEL_Y_KERNEL img)).
Proof.
  intros Hh Hw; rewrite gradients_ok by lia.
  rewrite !squeeze_2d; try reflexivity;
    rewrite ?sobel_out_ncols by lia;
    try (destruct (sobel_out_shape SOBEL_X_KERNEL img) as [-> _]);
    try (destruct (sobel_out_shape SOBEL_Y_KERNEL img) as [-> _]); lia.
Qed.

Lemma sobel_out_nth (a b c d e f g h k : R) (x : matrix) (i j : nat) :
  rect x -> (i < nrows x)%nat -> (j < ncols x)%nat ->
  nth j (nth i (sobel_out [[a; b; c]; [d; e; f]; [g; h; k]] x) []) 0
  = correlate3 [[a; b; c]; [d; e; f]; [g; h; k]] x i j.
Proof.
  intros Hr Hi Hj; unfold sobel_out.
  rewrite (nth_map_seq _ _ _ _ Hi), (nth_map_seq _ _ _ _ Hj).
  rewrite dot2_window, !padded_pix by assumption.
  unfold correlate3; cbn [seq map Rsum fold_right nth].
  rewrite !Nat2Z.inj_add; cbn [Z.of_nat Pos.of_succ_nat Pos.succ].
  ring.
Qed.

(** The gradients of the 3x3 image with a vertical edge: inside the image
    and on its border, where the zero padding shows. *)
Example edge3_Ix_centre :
  nth 1 (nth 1 (sobel_out SOBEL_X_KERNEL edge3) []) 0 = 1020.
Proof. cbn; ring. Qed.

Example edge3_Ix_top :
  nth 1 (nth 0 (sobel_out SOBEL_X_KERNEL edge3) []) 0 = 765.
Proof. cbn; ring. Qed.

Example edge3_Iy_centre :
  nth 1 (nth 1 (sobel_out SOBEL_Y_KERNEL edge3) []) 0 = 0.
Proof. cbn; ring. Qed.

Example edge3_Iy_top_right :
  nth 2 (nth 0 (sobel_out SOBEL_Y_KERNEL edge3) []) 0 = -510.
Proof. cbn; ring. Qed.

(** C3. On an image of at least 3x3, [compute_image_gradients] returns two
    two-axis arrays of the shape of the image; the entry at [(i, j)] of
    each is the convolution as [conv2d] computes it (the kernel is slid over
    the image without being flipped): the 3x3 weighted sum around [(i, j)]
    of the image extended by zero around its border (padding 1, stride 1,
    no bias), with the literal kernels [[-1,0,1],[-2,0,2],[-1,0,1]] and
    [[1,2,1],[0,0,0],[-1,-2,-1]]. *)
Theorem compute_image_gradients_sobel (img : matrix) :
  rect img -> (3 <= nrows img)%nat -> (3 <= ncols img)%nat ->
  SOBEL_X_KERNEL = [[-1; 0; 1]; [-2; 0; 2]; [-1; 0; 1]]
  /\ SOBEL_Y_KERNEL = [[1; 2; 1]; [0; 0; 0]; [-1; -2; -1]]
  /\ exists Ix Iy,
      compute_image_gradients img = OK (Arr2 Ix, Arr2 Iy)
      /\ has_shape Ix (nrows img) (ncols img)
      /\ has_shape Iy (nrows img) (ncols img)
      /\ forall i j, (i < nrows img)%nat -> (j < ncols img)%nat ->
           nth j (nth i Ix []) 0 = correlate3 SOBEL_X_KERNEL img i j
           /\ nth j (nth i Iy []) 0 = correlate3 SOBEL_Y_KERNEL img i j.
Proof.
  intros Hr Hh Hw; split; [ reflexivity | split; [ reflexivity | ] ].
  exists (sobel_out SOBEL_X_KERNEL img), (sobel_out SOBEL_Y_KERNEL img).
  split; [ apply gradients_2d; lia | ].
  split; [ apply sobel_out_shape | ].
  split; [ apply sobel_out_shape | ].
  intros i j Hi Hj; split; apply sobel_out_nth; assumption.
Qed.

Lemma rect_edge3 : rect edge3.
Proof. unfold rect, edge3; repeat constructor. Qed.

Lemma compute_image_gradients_sobel_witness :
  rect edge3 /\ (3 <= nrows edge3)%nat /\ (3 <= ncols edge3)%nat
  /\ exists Ix Iy,
      compute_image_gradients edge3 = OK (Arr2 Ix, Arr2 Iy)
      /\ has_shape Ix 3 3 /\ has_shape Iy 3 3.
Proof.
  assert (Hh : (3 <= nrows edge3)%nat) by (unfold edge3; extent).
  assert (Hw : (3 <= ncols edge3)%nat) by (unfold edge3; extent).
  split; [ exact rect_edge3 | split; [ exact Hh | split; [ exact Hw | ] ] ].
  destruct (compute_image_gradients_sobel edge3 rect_edge3 Hh Hw)
    as [_ [_ [Ix [Iy [H1 [H2 [H3 _]]]]]]].
  exists Ix, Iy; repeat split; (exact H1 || apply H2 || apply H3).
Defined.

(** C4, as stated, fails: a 2x2 image has fewer than 3 rows and columns and
    [compute_image_gradients] returns its two 2x2 gradient arrays. *)
Lemma small_image_accepted :
  (nrows ramp2 < 3)%nat /\ (ncols ramp2 < 3)%nat
  /\ compute_image_gradients ramp2
     = OK (Arr2 (sobel_out SOBEL_X_KERNEL ramp2),
           Arr2 (sobel_out SOBEL_Y_KERNEL ramp2)).
Proof.
  split; [ unfold ramp2; extent | split; [ unfold ramp2; extent | ] ].
  apply gradients_2d; unfold ramp2; extent.
Qed.

(** C4, amended. [compute_image_gradients] has no check on the size of the
    image: it fails exactly when the image has no row or no column, with the
    error of the convolution (the padded input is then smaller than the
    kernel), and returns a pair of arrays on every other image, those
    with one or two rows or columns included. *)
Theorem compute_image_gradients_failure (img : matrix) :
  ((exists e, compute_image_gradients img = Raise e)
   <-> nrows img = 0%nat \/ ncols img = 0%nat)
  /\ forall e, compute_image_gradients img = Raise e -> e = RuntimeError.
Proof.
  destruct (Nat.eq_dec (nrows img) 0) as [H0 | H0];
    [ | destruct (Nat.eq_dec (ncols img) 0) as [H1 | H1] ].
  - rewrite gradients_empty by auto; split.
    + split; [ auto | intros _; now exists RuntimeError ].
    + intros e He; congruence.
  - rewrite gradients_empty by auto; split.
    + split; [ auto | intros _; now exists RuntimeError ].
    + intros e He; congruence.
  - rewrite gradients_ok by lia; split.
    + split; [ intros [e He]; discriminate | lia ].
    + intros e He; discriminate.
Qed.

(** ** Stage 2 *)

Lemma has_shape_lengths (x : matrix) (h w : nat) :
  has_shape x h w -> map (@length R) x = repeat w h.
Proof.
  intros [Hh Hall]; subst h; unfold nrows.
  induction Hall as [ | r x Hr _ IH ]; cbn; [ reflexivity | ].
  now rewrite Hr, IH.
Qed.

Lemma has_shape_samedims (a b : matrix) (h w : nat) :
  has_shape a h w -> has_shape b h w -> samedims a b.
Proof.
  intros Ha Hb; unfold samedims.
  now rewrite (has_shape_lengths _ _ _ Ha), (has_shape_lengths _ _ _ Hb).
Qed.

Lemma map2_length {A B C : Type} (f : A -> B -> C) (l1 : list A)
      (l2 : list B) :
  length (map2 f l1 l2) = Nat.min (length l1) (length l2).
Proof. unfold map2; now rewrite length_map, length_combine. Qed.

Lemma arctan2_origin : arctan2 0 0 = 0.
Proof.
  unfold arctan2.
  destruct (Rlt_dec 0 0) as [H | _]; [ lra | reflexivity ].
Qed.

Lemma arctan2_range (y x : R) : - PI < arctan2 y x <= PI.
Proof.
  pose proof PI_RGT_0 as Hpi.
  pose proof (atan_bound (y / x)) as Hb.
  unfold arctan2.
  destruct (Rlt_dec 0 x) as [Hx | Hx]; [ lra | ].
  destruct (Rlt_dec x 0) as [Hx' | Hx'].
  - destruct (Rle_dec 0 y) as [Hy | Hy].
    + assert (Hq : y / x <= 0).
      { unfold Rdiv.
        assert (/ x < 0) by now apply Rinv_lt_0_compat.
        nra. }
      assert (Ha : atan (y / x) <= 0).
      { destruct Hq as [Hq | Hq].
        - left; rewrite <- atan_0; now apply atan_increasing.
        - rewrite Hq, atan_0; lra. }
      lra.
    + assert (Hq : 0 < y / x).
      { unfold Rdiv.
        assert (/ x < 0) by now apply Rinv_lt_0_compat.
        nra. }
      assert (Ha : 0 < atan (y / x)).
      { rewrite <- atan_0; now apply atan_increasing. }
      lra.
  - destruct (Rlt_dec 0 y); [ lra | ].
    destruct (Rlt_dec y 0); lra.
Qed.

Lemma map2_map {A B A' B' C : Type} (h : A' -> B' -> C)
      (f : A -> A') (g : B -> B') (l1 : list A) (l2 : list B) :
  map2 h (map f l1) (map g l2) = map2 (fun x y => h (f x) (g y)) l1 l2.
Proof.
  unfold map2; revert l2; induction l1 as [ | a l1 IH ];
    intros [ | b l2 ]; simpl; try reflexivity.
  now rewrite IH.
Qed.

Lemma map2_ext {A B C : Type} (f g : A -> B -> C) (l1 : list A)
      (l2 : list B) :
  (forall x y, f x y = g x y) -> map2 f l1 l2 = map2 g l1 l2.
Proof. intros H; unfold map2; apply map_ext; intros [x y]; apply H. Qed.

Lemma Forall_map2 {A B C : Type} (P : C -> Prop) (f : A -> B -> C)
      (l1 : list A) (l2 : list B) :
  (forall x y, P (f x y)) -> Forall P (map2 f l1 l2).
Proof.
  intros H; unfold map2; rewrite Forall_map, Forall_forall.
  intros [x y] _; apply H.
Qed.

Lemma arr_map2_map (h : R -> R -> R) (f g : R -> R) (a b : ndarray) :
  arr_map2 h (arr_map f a) (arr_map g b)
  = arr_map2 (fun x y => h (f x) (g y)) a b.
Proof.
  destruct a, b; simpl; try reflexivity; rewrite map2_map; try reflexivity.
  do 2 f_equal; apply map2_ext; intros; apply map2_map.
Qed.

Lemma arr_map2_Forall (P : R -> Prop) (f : R -> R -> R) (a b c : ndarray) :
  (forall x y, P (f x y)) ->
  arr_map2 f a b = OK c -> Forall P (arr_entries c).
Proof.
  intros H; destruct a, b; simpl; intros E; inversion E; subst; simpl.
  - constructor; [ apply H | constructor ].
  - now apply Forall_map2.
  - apply Forall_concat, Forall_map2; intros; now apply Forall_map2.
Qed.

(** The two gradient arrays have the same number of axes. *)
Lemma squeeze_same_axes (f : R -> R -> R) (k1 k2 x : matrix) :
  (1 <= nrows x)%nat ->
  exists c, arr_map2 f (squeeze (sobel_out k1 x)) (squeeze (sobel_out k2 x))
            = OK c.
Proof.
  intros Hh; unfold squeeze.
  rewrite !sobel_out_ncols by assumption.
  destruct (sobel_out_shape k1 x) as [-> _].
  destruct (sobel_out_shape k2 x) as [-> _].
  destruct (nrows x =? 1)%nat, (ncols x =? 1)%nat; simpl; eauto.
Qed.

Lemma magnitudes_and_orientations_ok (img : matrix) :
  (1 <= nrows img)%nat -> (1 <= ncols img)%nat ->
  exists Ix Iy orientation grad_magnitude,
    compute_image_gradients img = OK (Ix, Iy)
    /\ compute_magnitudes_and_orientations img
       = OK (orientation, grad_magnitude)
    /\ arr_map2 (fun x y => x ^ 2 + y ^ 2) Ix Iy = OK grad_magnitude
    /\ arr_map2 arctan2 Iy Ix = OK orientation.
Proof.
  intros Hh Hw.
  destruct (squeeze_same_axes (fun x y => x ^ 2 + y ^ 2)
              SOBEL_X_KERNEL SOBEL_Y_KERNEL img Hh) as [mag Hmag].
  destruct (squeeze_same_axes arctan2
              SOBEL_Y_KERNEL SOBEL_X_KERNEL img Hh) as [ori Hori].
  exists (squeeze (sobel_out SOBEL_X_KERNEL img)),
         (squeeze (sobel_out SOBEL_Y_KERNEL img)), ori, mag.
  split; [ now apply gradients_ok | ].
  split; [ | split; assumption ].
  unfold compute_magnitudes_and_orientations.
  rewrite gradients_ok by assumption; cbn [bind].
  rewrite arr_map2_map, Hmag; cbn [bind].
  now rewrite Hori.
Qed.

(** *** The orientation as a polar angle *)

Lemma hypot_scale (x t : R) :
  sqrt (x ^ 2 + (x * t) ^ 2) = Rabs x * sqrt (1 + t²).
Proof.
  replace (x ^ 2 + (x * t) ^ 2) with (x² * (1 + t²)) by (unfold Rsqr; ring).
  rewrite sqrt_mult_alt by apply Rle_0_sqr.
  now rewrite sqrt_Rsqr_abs.
Qed.

Lemma sqrt_1_sqr_pos (t : R) : 0 < sqrt (1 + t²).
Proof. apply sqrt_lt_R0; pose proof (Rle_0_sqr t); lra. Qed.

(** A point [(x, y)] off the vertical axis in polar form, the angle taken
    from [atan (y / x)]. *)
Lemma polar_atan (y x : R) :
  x <> 0 ->
  Rabs x = sqrt (x ^ 2 + y ^ 2) * cos (atan (y / x))
  /\ Rabs x * (y / x) = sqrt (x ^ 2 + y ^ 2) * sin (atan (y / x)).
Proof.
  intros Hx.
  pose proof (sqrt_1_sqr_pos (y / x)) as Hs.
  assert (Hy : x ^ 2 + y ^ 2 = x ^ 2 + (x * (y / x)) ^ 2)
    by (field; exact Hx).
  rewrite Hy, hypot_scale, cos_atan, sin_atan.
  set (s := sqrt (1 + (y / x)²)) in *.
  split; field; lra.
Qed.

(** [arctan2 y x] is the angle of the point [(x, y)]. *)
Lemma arctan2_angle (y x : R) : angle_of y x (arctan2 y x).
Proof.
  split; [ apply arctan2_range | ].
  unfold arctan2.
  destruct (Rlt_dec 0 x) as [Hx | Hx].
  - destruct (polar_atan y x) as [Hc Hs]; [ lra | ].
    rewrite Rabs_pos_eq in Hc, Hs by lra.
    split; [ exact Hc | split; [ | intros; lra ] ].
    rewrite <- Hs; field; lra.
  - destruct (Rlt_dec x 0) as [Hx' | Hx'].
    + destruct (polar_atan y x) as [Hc Hs]; [ lra | ].
      rewrite Rabs_left in Hc, Hs by lra.
      assert (Hy : y = - (- x * (y / x))) by (field; lra).
      destruct (Rle_dec 0 y) as [Hy0 | Hy0].
      * rewrite neg_cos, neg_sin.
        split; [ lra | split; [ | intros; lra ] ].
        rewrite Ropp_mult_distr_r_reverse, <- Hs; exact Hy.
      * replace (atan (y / x) - PI) with (- (- atan (y / x) + PI)) by ring.
        rewrite cos_neg, sin_neg, neg_cos, neg_sin, cos_neg, sin_neg.
        split; [ lra | split; [ | intros; lra ] ].
        rewrite !Ropp_involutive, Ropp_mult_distr_r_reverse, <- Hs; exact Hy.
    + assert (E : x = 0) by lra; subst x.
      replace (0 ^ 2 + y ^ 2) with (y ^ 2) by ring.
      destruct (Rlt_dec 0 y) as [Hy | Hy].
      * rewrite cos_PI2, sin_PI2, sqrt_pow2 by lra.
        split; [ ring | split; [ ring | intros; lra ] ].
      * destruct (Rlt_dec y 0) as [Hy' | Hy'].
        -- rewrite cos_neg, sin_neg, cos_PI2, sin_PI2.
           replace (y ^ 2) with ((- y) ^ 2) by ring.
           rewrite sqrt_pow2 by lra.
           split; [ ring | split; [ ring | intros; lra ] ].
        -- assert (E : y = 0) by lra; subst y.
           rewrite cos_0, sin_0; replace (0 ^ 2) with 0 by ring.
           rewrite sqrt_0.
           split; [ ring | split; [ ring | reflexivity ] ].
Qed.

(** A point has one angle only. *)
Lemma angle_of_unique (y x o o' : R) :
  angle_of y x o -> angle_of y x o' -> o = o'.
Proof.
  intros [Hr [Hc [Hs H0]]] [Hr' [Hc' [Hs' H0']]].
  set (r := sqrt (x ^ 2 + y ^ 2)) in *.
  assert (Hr0 : 0 <= r) by apply sqrt_pos.
  destruct (Req_dec r 0) as [Hz | Hnz].
  - rewrite Hz in Hc, Hs, Hc', Hs'.
    rewrite H0, H0' by lra; reflexivity.
  - assert (Hcc : cos o = cos o') by (apply (Rmult_eq_reg_l r); lra).
    assert (Hss : sin o = sin o') by (apply (Rmult_eq_reg_l r); lra).
    pose proof (cos_minus o o') as Hd.
    rewrite Hcc, Hss in Hd.
    pose proof (sin2_cos2 o') as H1; unfold Rsqr in H1.
    assert (Hd1 : cos (o - o') = 1) by lra.
    replace (o - o') with (2 * ((o - o') / 2)) in Hd1 by field.
    rewrite cos_2a_sin in Hd1.
    assert (Hsin : sin ((o - o') / 2) = 0) by nra.
    pose proof PI_RGT_0 as Hpi.
    destruct (Rtotal_order ((o - o') / 2) 0) as [Hlt | [Heq | Hgt]].
    + pose proof (sin_lt_0_var ((o - o') / 2) ltac:(lra) Hlt); lra.
    + lra.
    + pose proof (sin_gt_0 ((o - o') / 2) Hgt ltac:(lra)); lra.
Qed.

(** *** Entry by entry *)

Lemma nth_map2 {A B C : Type} (f : A -> B -> C) (l1 : list A) (l2 : list B)
      (k : nat) (d1 : A) (d2 : B) (d : C) :
  (k < length l1)%nat -> length l1 = length l2 ->
  nth k (map2 f l1 l2) d = f (nth k l1 d1) (nth k l2 d2).
Proof.
  revert l2 k; induction l1 as [ | a l1 IH ]; intros [ | b l2 ] k Hk Hl;
    cbn [length] in *; try lia.
  destruct k as [ | k ]; [ reflexivity | ].
  change (map2 f (a :: l1) (b :: l2)) with (f a b :: map2 f l1 l2).
  cbn [nth]; apply IH; lia.
Qed.

Lemma concat_map2 (f : R -> R -> R) (m n : matrix) :
  samedims m n ->
  concat (map2 (map2 f) m n) = map2 f (concat m) (concat n)
  /\ samedims (map2 (map2 f) m n) m.
Proof.
  unfold samedims; revert n; induction m as [ | r m IH ]; intros [ | s n ] H;
    cbn [map] in H; try discriminate; [ split; reflexivity | ].
  injection H as Hr Hm.
  destruct (IH n Hm) as [IHc IHs].
  change (map2 (map2 f) (r :: m) (s :: n))
    with (map2 f r s :: map2 (map2 f) m n).
  cbn [concat map]; rewrite IHc, IHs; split.
  - unfold map2; rewrite <- map_app; f_equal.
    clear - Hr; revert s Hr; induction r as [ | x r IHr ]; intros [ | y s ] Hr;
      cbn [length] in Hr; try discriminate; [ reflexivity | ].
    cbn [app combine]; f_equal; apply IHr; lia.
  - f_equal; rewrite map2_length; lia.
Qed.

Lemma same_shape_entries (a b : ndarray) :
  same_shape a b -> length (arr_entries a) = length (arr_entries b).
Proof.
  destruct a as [x | u | m], b as [y | v | n]; cbn; try tauto.
  revert n; induction m as [ | r m IH ]; intros [ | s n ] H;
    cbn [map] in H; try discriminate; [ reflexivity | ].
  injection H as Hr Hm; cbn [concat]; rewrite !length_app, Hr.
  f_equal; now apply IH.
Qed.

Lemma same_shape_sym (a b : ndarray) : same_shape a b -> same_shape b a.
Proof. destruct a, b; cbn; try tauto; [ lia | congruence ]. Qed.

Lemma same_shape_trans (a b c : ndarray) :
  same_shape a b -> same_shape b c -> same_shape a c.
Proof. destruct a, b, c; cbn; try tauto; [ lia | congruence ]. Qed.

(** An elementwise operation on two arrays of one shape keeps the shape and
    acts on the entries in storage order. *)
Lemma arr_map2_entries (f : R -> R -> R) (a b c : ndarray) :
  same_shape a b -> arr_map2 f a b = OK c ->
  same_shape c a
  /\ arr_entries c = map2 f (arr_entries a) (arr_entries b).
Proof.
  destruct a as [x | u | m], b as [y | v | n]; cbn; try tauto;
    intros Hs E; inversion E; subst c; cbn.
  - split; [ exact I | reflexivity ].
  - split; [ rewrite map2_length; lia | reflexivity ].
  - destruct (concat_map2 f m n Hs) as [Hc Hd]; split; assumption.
Qed.

(** The two gradient arrays of an image have one shape. *)
Lemma squeeze_same_shape (k1 k2 x : matrix) :
  (1 <= nrows x)%nat ->
  same_shape (squeeze (sobel_out k1 x)) (squeeze (sobel_out k2 x)).
Proof.
  intros Hh; unfold squeeze.
  rewrite !sobel_out_ncols by assumption.
  pose proof (sobel_out_ncols k1 x Hh) as Hc1.
  pose proof (sobel_out_ncols k2 x Hh) as Hc2.
  pose proof (sobel_out_shape k1 x) as H1.
  pose proof (sobel_out_shape k2 x) as H2.
  destruct H1 as [Hn1 Hr1], H2 as [Hn2 Hr2]; rewrite Hn1, Hn2.
  destruct (nrows x =? 1)%nat, (ncols x =? 1)%nat; cbn.
  - exact I.
  - unfold ncols in Hc1, Hc2.
    destruct (sobel_out k1 x), (sobel_out k2 x); cbn in *; lia.
  - rewrite !length_map; unfold nrows in *; lia.
  - apply (has_shape_samedims _ _ (nrows x) (ncols x)); split; assumption.
Qed.

(** The gradient, the squared magnitude and the orientation at every
    position of the arrays. *)
Lemma magnitudes_and_orientations_entries (img : matrix) :
  (1 <= nrows img)%nat -> (1 <= ncols img)%nat ->
  exists Ix Iy orientation grad_magnitude,
    compute_image_gradients img = OK (Ix, Iy)
    /\ compute_magnitudes_and_orientations img
       = OK (orientation, grad_magnitude)
    /\ same_shape Iy Ix
    /\ same_shape grad_magnitude Ix
    /\ same_shape orientation Ix
    /\ forall k, (k < length (arr_entries Ix))%nat ->
         nth k (arr_entries grad_magnitude) 0
         = nth k (arr_entries Ix) 0 ^ 2 + nth k (arr_entries Iy) 0 ^ 2
         /\ nth k (arr_entries orientation) 0
            = arctan2 (nth k (arr_entries Iy) 0) (nth k (arr_entries Ix) 0).
Proof.
  intros Hh Hw.
  destruct (magnitudes_and_orientations_ok img Hh Hw)
    as [Ix [Iy [ori [mag [H1 [H2 [H3 H4]]]]]]].
  assert (Hxy : same_shape Ix Iy).
  { rewrite gradients_ok in H1 by assumption.
    inversion H1; subst Ix Iy; now apply squeeze_same_shape. }
  pose proof (same_shape_sym _ _ Hxy) as Hyx.
  pose proof (same_shape_entries _ _ Hxy) as Hlen.
  destruct (arr_map2_entries _ _ _ _ Hxy H3) as [Hms Hme].
  destruct (arr_map2_entries _ _ _ _ Hyx H4) as [Hos Hoe].
  exists Ix, Iy, ori, mag.
  split; [ exact H1 | split; [ exact H2 | split; [ exact Hyx | ] ] ].
  split; [ exact Hms | ].
  split; [ exact (same_shape_trans _ _ _ Hos Hyx) | ].
  intros k Hk; rewrite Hme, Hoe; split.
  - now rewrite (nth_map2 _ _ _ k 0 0 0) by lia.
  - now rewrite (nth_map2 _ _ _ k 0 0 0) by lia.
Qed.

(** C8. On every image (with at least one row and one column, where the
    gradients exist) [compute_magnitudes_and_orientations] returns two
    arrays of the shape of the gradients.  At every position, with the
    gradient [(gx, gy)] there, the magnitude is [m = gx^2 + gy^2], not
    square-rooted and so non-negative, and the orientation is the angle [o]
    of the gradient as [np.arctan2] defines it: [o] lies in (-pi, pi], the
    gradient is [sqrt m] times the unit vector [(cos o, sin o)], a zero
    gradient has the orientation 0, and no other number has these
    properties.  In array form the magnitude is [Ix ** 2 + Iy ** 2] and the
    orientation [arctan2(Iy, Ix)]. *)
Theorem magnitudes_and_orientations (img : matrix) :
  (1 <= nrows img)%nat -> (1 <= ncols img)%nat ->
  exists Ix Iy orientation grad_magnitude,
    compute_image_gradients img = OK (Ix, Iy)
    /\ compute_magnitudes_and_orientations img
       = OK (orientation, grad_magnitude)
    /\ arr_map2 (fun x y => x ^ 2 + y ^ 2) Ix Iy = OK grad_magnitude
    /\ arr_map2 arctan2 Iy Ix = OK orientation
    /\ same_shape Iy Ix
    /\ same_shape grad_magnitude Ix
    /\ same_shape orientation Ix
    /\ (forall k, (k < length (arr_entries Ix))%nat ->
          let gx := nth k (arr_entries Ix) 0 in
          let gy := nth k (arr_entries Iy) 0 in
          let m := nth k (arr_entries grad_magnitude) 0 in
          let o := nth k (arr_entries orientation) 0 in
          m = gx ^ 2 + gy ^ 2
          /\ 0 <= m
          /\ - PI < o <= PI
          /\ gx = sqrt m * cos o
          /\ gy = sqrt m * sin o
          /\ (gx = 0 -> gy = 0 -> o = 0)
          /\ (forall o', angle_of gy gx o' -> o' = o))
    /\ Forall (fun m => 0 <= m) (arr_entries grad_magnitude)
    /\ Forall (fun o => - PI < o <= PI) (arr_entries orientation)
    /\ arctan2 0 0 = 0.
Proof.
  intros Hh Hw.
  destruct (magnitudes_and_orientations_ok img Hh Hw)
    as [Ix [Iy [ori [mag [H1 [H2 [H3 H4]]]]]]].
  destruct (magnitudes_and_orientations_entries img Hh Hw)
    as [Ix' [Iy' [ori' [mag' [H1' [H2' [Hyx [Hms [Hos Hent]]]]]]]]].
  rewrite H1 in H1'; rewrite H2 in H2'.
  inversion H1'; inversion H2'; subst Ix' Iy' ori' mag'; clear H1' H2'.
  exists Ix, Iy, ori, mag.
  split; [ exact H1 | split; [ exact H2 | ] ].
  split; [ exact H3 | split; [ exact H4 | ] ].
  split; [ exact Hyx | split; [ exact Hms | split; [ exact Hos | ] ] ].
  split; [ | split; [ | split ] ].
  - intros k Hk; cbv zeta.
    destruct (Hent k Hk) as [Hm Ho].
    set (gx := nth k (arr_entries Ix) 0) in *.
    set (gy := nth k (arr_entries Iy) 0) in *.
    pose proof (arctan2_angle gy gx) as Hangle.
    destruct Hangle as [Hrange [Hcos [Hsin Hzero]]].
    rewrite Hm, Ho.
    split; [ reflexivity | split; [ nra | ] ].
    split; [ exact Hrange | split; [ exact Hcos | ] ].
    split; [ exact Hsin | split; [ exact Hzero | ] ].
    intros o' Ho'; apply (angle_of_unique gy gx); [ exact Ho' | ].
    apply arctan2_angle.
  - eapply arr_map2_Forall; [ | exact H3 ]; intros x y; simpl; nra.
  - eapply arr_map2_Forall; [ | exact H4 ]; intros x y.
    apply arctan2_range.
  - apply arctan2_origin.
Qed.

(** On the 3x3 image with a vertical edge: at the centre (entry 4 in
    storage order) the gradient is [(1020, 0)], the magnitude [1020^2] and
    the orientation the one angle of that gradient. *)
Lemma magnitudes_and_orientations_witness :
  (1 <= nrows edge3)%nat /\ (1 <= ncols edge3)%nat
  /\ exists orientation grad_magnitude,
      compute_magnitudes_and_orientations edge3
      = OK (orientation, grad_magnitude)
      /\ nth 4 (arr_entries grad_magnitude) 0 = 1020 ^ 2 + 0 ^ 2
      /\ angle_of 0 1020 (nth 4 (arr_entries orientation) 0).
Proof.
  assert (Hh : (1 <= nrows edge3)%nat) by (unfold edge3; extent).
  assert (Hw : (1 <= ncols edge3)%nat) by (unfold edge3; extent).
  split; [ exact Hh | split; [ exact Hw | ] ].
  destruct (magnitudes_and_orientations edge3 Hh Hw)
    as [Ix [Iy [ori [mag [H1 [H2 [_ [_ [_ [_ [_ [Hent _]]]]]]]]]]]].
  rewrite gradients_2d in H1 by (unfold edge3; extent).
  inversion H1; subst Ix Iy; clear H1.
  assert (Hgx : nth 4 (arr_entries (Arr2 (sobel_out SOBEL_X_KERNEL edge3))) 0
                = 1020) by (cbn; ring).
  assert (Hgy : nth 4 (arr_entries (Arr2 (sobel_out SOBEL_Y_KERNEL edge3))) 0
                = 0) by (cbn; ring).
  destruct (Hent 4%nat) as [Hm [_ [Hr [Hc [Hs [Hz _]]]]]];
    [ cbn; lia | ].
  rewrite Hgx, Hgy in Hm; rewrite Hgx in Hc; rewrite Hgy in Hs.
  rewrite Hgx, Hgy in Hz.
  exists ori, mag; split; [ exact H2 | split; [ exact Hm | ] ].
  rewrite Hm in Hc, Hs.
  split; [ exact Hr | split; [ exact Hc | split; [ exact Hs | exact Hz ] ] ].
Defined.

(** ** Stage 3: rounding *)

Lemma rint_close (y : R) : Rabs (rint y - y) <= 1 / 2.
Proof.
  pose proof (base_fp y) as [Hlo Hhi].
  assert (Hy : y = IZR (Int_part y) + frac_part y)
    by (unfold frac_part; lra).
  unfold rint.
  destruct (Rlt_dec (frac_part y) (1 / 2)) as [Hd | Hd].
  - apply Rabs_le; lra.
  - destruct (Rlt_dec (1 / 2) (frac_part y)) as [Hd' | Hd'].
    + rewrite plus_IZR; apply Rabs_le; lra.
    + destruct (Z.even (Int_part y)).
      * apply Rabs_le; lra.
      * rewrite plus_IZR; apply Rabs_le; lra.
Qed.

Lemma pow10_pos (d : nat) : 0 < 10 ^ d.
Proof. apply pow_lt; lra. Qed.

Lemma around_close (d : nat) (x : R) :
  Rabs (around d x - x) <= 1 / 2 / 10 ^ d.
Proof.
  pose proof (pow10_pos d) as Hp.
  pose proof (rint_close (x * 10 ^ d)) as Hr.
  unfold around.
  replace (rint (x * 10 ^ d) / 10 ^ d - x)
    with ((rint (x * 10 ^ d) - x * 10 ^ d) / 10 ^ d) by (field; lra).
  unfold Rdiv at 1; rewrite Rabs_mult, (Rabs_pos_eq (/ 10 ^ d)).
  - unfold Rdiv; apply Rmult_le_compat_r; [ | exact Hr ].
    left; now apply Rinv_0_lt_compat.
  - left; now apply Rinv_0_lt_compat.
Qed.

Lemma around5_close (x : R) : x - 1 / 200000 <= around 5 x <= x + 1 / 200000.
Proof.
  pose proof (around_close 5 x) as H.
  replace (1 / 2 / 10 ^ 5) with (1 / 200000) in H by (simpl; field).
  unfold Rabs in H; destruct (Rcase_abs (around 5 x - x)); lra.
Qed.

Lemma PI_gt_3 : 3 < PI.
Proof. pose proof PI2_3_2; lra. Qed.

Lemma arctan2_west : arctan2 0 (-1) = PI.
Proof.
  unfold arctan2.
  destruct (Rlt_dec 0 (-1)) as [H | _]; [ lra | ].
  destruct (Rlt_dec (-1) 0) as [_ | H]; [ | lra ].
  destruct (Rle_dec 0 0) as [_ | H]; [ | lra ].
  unfold Rdiv; rewrite Rmult_0_l, atan_0; ring.
Qed.

(** ** Stage 3: the histogram *)

Lemma diff_cons2 (a b : R) (t : list R) :
  diff (a :: b :: t) = (b - a) :: diff (b :: t).
Proof. reflexivity. Qed.

Lemma Rsum_diff (a : R) (t : list R) :
  Rsum (diff (a :: t)) = last (a :: t) 0 - a.
Proof.
  revert a; induction t as [ | b t IH ]; intros a.
  - cbn; ring.
  - rewrite diff_cons2; cbn [Rsum fold_right].
    change (fold_right Rplus 0 (diff (b :: t))) with (Rsum (diff (b :: t))).
    rewrite IH.
    change (last (a :: b :: t) 0) with (last (b :: t) 0); ring.
Qed.

Lemma skipn_last {A : Type} (l : list A) (x : A) :
  skipn (length (l ++ [x]) - 1) (l ++ [x]) = [x].
Proof.
  rewrite length_app; cbn [length].
  replace (length l + 1 - 1)%nat with (length l) by lia.
  rewrite skipn_app, skipn_all, Nat.sub_diag; reflexivity.
Qed.

Lemma cum_weights_snoc (a w l : list R) (x : R) :
  cum_weights a w (l ++ [x])
  = map (fun e => wsum (fun y => Rltb y e) a w) l
      ++ [wsum (fun y => Rleb y x) a w].
Proof.
  unfold cum_weights; now rewrite removelast_last, skipn_last.
Qed.

Lemma wsum_between (lo hi : R) (a w : list R) :
  lo <= hi ->
  wsum (fun x => Rleb x hi) a w - wsum (fun x => Rltb x lo) a w
  = wsum (fun x => Rleb lo x && Rleb x hi) a w.
Proof.
  intros Hle; revert w; induction a as [ | x a IH ]; intros [ | c w ];
    cbn [wsum]; try ring.
  rewrite <- IH; unfold Rleb, Rltb.
  destruct (Rle_dec x hi), (Rlt_dec x lo), (Rle_dec lo x);
    cbn [andb]; try ring; lra.
Qed.

Lemma wsum_map (p : R -> bool) (f : R -> R) (a w : list R) :
  wsum p (map f a) w = wsum (fun x => p (f x)) a w.
Proof.
  revert w; induction a as [ | x a IH ]; intros [ | c w ]; cbn [wsum map];
    try reflexivity.
  now rewrite IH.
Qed.

Lemma wsum_ext_in (p q : R -> bool) (a w : list R) :
  (forall x, In x a -> p x = q x) -> wsum p a w = wsum q a w.
Proof.
  revert w; induction a as [ | x a IH ]; intros [ | c w ] H; cbn [wsum];
    try reflexivity.
  rewrite (H x) by now left.
  rewrite IH; [ reflexivity | intros y Hy; apply H; now right ].
Qed.

(** The histogram counts add up to the weight between the outer edges. *)
Lemma histogram_sum (a w l : list R) (lo hi : R) :
  lo <= hi ->
  Rsum (diff (cum_weights a w (lo :: l ++ [hi])))
  = wsum (fun x => Rleb lo x && Rleb x hi) a w.
Proof.
  intros Hle.
  change (lo :: l ++ [hi]) with ((lo :: l) ++ [hi]).
  rewrite cum_weights_snoc; cbn [map app].
  rewrite Rsum_diff.
  change (?x :: ?l ++ [?y]) with ((x :: l) ++ [y]).
  rewrite last_last.
  now apply wsum_between.
Qed.

(** ** Stage 3: the bin edges *)

Lemma linspace_S (a b : R) (n : nat) :
  (1 <= n)%nat ->
  linspace a b (S n)
  = map (fun i => INR i * ((b - a) / INR n) + a) (seq 0 n) ++ [b].
Proof.
  intros Hn; destruct n as [ | n ]; [ lia | ].
  unfold linspace.
  replace (S (S n) - 1)%nat with (S n) by lia.
  change (1 <? S (S n))%nat with true.
  change (S n =? 0)%nat with false; cbv iota.
  rewrite seq_S, map_app; cbn [map].
  now rewrite removelast_last.
Qed.

Lemma INR_pos (n : nat) : (1 <= n)%nat -> 0 < INR n.
Proof. intros H; apply lt_0_INR; lia. Qed.

Lemma bin_edges_length (B : nat) : length (bin_edges B) = (B + 1)%nat.
Proof.
  unfold bin_edges; rewrite Nat.add_1_r.
  destruct B as [ | B ]; [ reflexivity | ].
  rewrite linspace_S by lia.
  rewrite length_app, length_map, length_seq; cbn [length]; lia.
Qed.

Lemma bin_edges_nth (B i : nat) :
  (i <= B)%nat ->
  nth i (bin_edges B) 0 = - PI - PI / 8 + INR i * (2 * PI / INR B).
Proof.
  intros Hi; unfold bin_edges; rewrite Nat.add_1_r.
  destruct B as [ | B ].
  - replace i with 0%nat by lia; cbn; ring.
  - pose proof (INR_pos (S B) ltac:(lia)) as Hpos.
    rewrite linspace_S by lia.
    destruct (Nat.eq_dec i (S B)) as [-> | Hne].
    + rewrite app_nth2 by (rewrite length_map, length_seq; lia).
      rewrite length_map, length_seq, Nat.sub_diag; cbn [nth].
      field; lra.
    + rewrite app_nth1 by (rewrite length_map, length_seq; lia).
      rewrite nth_map_seq by lia.
      field; lra.
Qed.

Lemma bin_edges_last (B : nat) :
  (1 <= B)%nat -> nth B (bin_edges B) 0 = PI - PI / 8.
Proof.
  intros HB; rewrite bin_edges_nth by lia.
  pose proof (INR_pos B HB); field; lra.
Qed.

Lemma increasing_cons2 (a b : R) (t : list R) :
  increasing (a :: b :: t) = Rleb a b && increasing (b :: t).
Proof. reflexivity. Qed.

Lemma increasing_nth (l : list R) :
  (forall i, (S i < length l)%nat -> nth i l 0 <= nth (S i) l 0) ->
  increasing l = true.
Proof.
  induction l as [ | a [ | b t ] IH ]; intros H; try reflexivity.
  rewrite increasing_cons2, andb_true_iff; split.
  - unfold Rleb; destruct (Rle_dec a b) as [_ | Hn]; [ reflexivity | ].
    exfalso; apply Hn, (H 0%nat); cbn; lia.
  - apply IH; intros i Hi; apply (H (S i)); cbn in *; lia.
Qed.

Lemma bin_edges_increasing (B : nat) : increasing (bin_edges B) = true.
Proof.
  apply increasing_nth; intros i Hi.
  rewrite bin_edges_length in Hi.
  rewrite !bin_edges_nth by lia.
  assert (HB : (1 <= B)%nat) by lia.
  pose proof (INR_pos B HB) as Hpos.
  pose proof PI_RGT_0 as Hpi.
  rewrite S_INR.
  assert (0 < 2 * PI / INR B).
  { unfold Rdiv; apply Rmult_lt_0_compat; [ lra | ].
    now apply Rinv_0_lt_compat. }
  nra.
Qed.

Lemma bin_edges_outer (B : nat) :
  (1 <= B)%nat ->
  exists l, bin_edges B = (- PI - PI / 8) :: l ++ [PI - PI / 8].
Proof.
  intros HB; unfold bin_edges; rewrite Nat.add_1_r, linspace_S by lia.
  destruct B as [ | B ]; [ lia | ].
  cbn [seq map app].
  eexists; f_equal; cbn; ring.
Qed.

Lemma ncols_map_map (f : R -> R) (m : matrix) :
  ncols (map (map f) m) = ncols m.
Proof. destruct m; cbn; [ reflexivity | apply length_map ]. Qed.

Lemma create_histogram_eq (mags oris : matrix) (B : nat) :
  nrows oris = nrows mags -> ncols oris = ncols mags ->
  create_histogram mags oris B
  = OK (diff (cum_weights (concat (map (map (around 5)) oris))
                          (concat mags) (bin_edges B)),
        bin_edges B).
Proof.
  intros Hr Hc; unfold create_histogram, np_histogram.
  rewrite ncols_map_map; unfold nrows in *; rewrite length_map, Hr, Hc.
  now rewrite !Nat.eqb_refl, bin_edges_increasing.
Qed.

Lemma create_histogram_sum (mags oris : matrix) (B : nat) :
  (1 <= B)%nat -> nrows oris = nrows mags -> ncols oris = ncols mags ->
  exists h,
    create_histogram mags oris B = OK (h, bin_edges B)
    /\ Rsum h
       = wsum (fun o => in_edges (around 5 o)) (concat oris) (concat mags).
Proof.
  intros HB Hr Hc; rewrite create_histogram_eq by assumption.
  eexists; split; [ reflexivity | ].
  destruct (bin_edges_outer B HB) as [l ->].
  pose proof PI_RGT_0.
  rewrite histogram_sum by lra.
  now rewrite <- concat_map, wsum_map.
Qed.

Lemma rounded_above_low_edge (o : R) :
  - PI < o -> Rleb (- PI - PI / 8) (around 5 o) = true.
Proof.
  intros Ho; pose proof (around5_close o); pose proof PI_gt_3.
  unfold Rleb; destruct (Rle_dec (- PI - PI / 8) (around 5 o));
    [ reflexivity | lra ].
Qed.

Lemma rounded_pi_outside : in_edges (around 5 PI) = false.
Proof.
  pose proof (around5_close PI); pose proof PI_gt_3.
  unfold in_edges, Rleb.
  destruct (Rle_dec (around 5 PI) (PI - PI / 8)); [ lra | ].
  apply andb_false_r.
Qed.

(** For every cell (orientations and magnitudes of one shape) and every
    positive bin count, the bin weights returned by [create_histogram] add
    up to the total magnitude of the pixels whose rounded orientation lies
    between the outer edges [-pi - pi/8] and [pi - pi/8].  For orientations
    in (-pi, pi] no pixel lies below the lower edge, so the sum is the
    total magnitude of the pixels whose rounded orientation is at most
    [pi - pi/8]: the magnitude of every pixel above that edge is missing
    from the histogram. *)
Lemma histogram_sum_in_range (mags oris : matrix) (B : nat) :
  (1 <= B)%nat -> nrows oris = nrows mags -> ncols oris = ncols mags ->
  exists h,
    create_histogram mags oris B = OK (h, bin_edges B)
    /\ Rsum h
       = wsum (fun o => in_edges (around 5 o)) (concat oris) (concat mags)
    /\ (Forall (fun o => - PI < o <= PI) (concat oris) ->
        Rsum h
        = wsum (fun o => Rleb (around 5 o) (PI - PI / 8))
               (concat oris) (concat mags)).
Proof.
  intros HB Hr Hc.
  destruct (create_histogram_sum mags oris B HB Hr Hc) as [h [Hh Hs]].
  exists h; split; [ exact Hh | split; [ exact Hs | ] ].
  intros Hall; rewrite Hs; apply wsum_ext_in; intros o Ho.
  rewrite Forall_forall in Hall; unfold in_edges.
  now rewrite rounded_above_low_edge by (apply Hall, Ho).
Qed.

(** ** Loops and item assignment *)

Lemma for_inv {S I : Type} (P : S -> Prop) (body : I -> S -> result S)
      (l : list I) (s s' : S) :
  (forall i t t', In i l -> P t -> body i t = OK t' -> P t') ->
  P s -> for_ l body s = OK s' -> P s'.
Proof.
  revert s; induction l as [ | i l IH ]; intros s Hb Hs H; cbn in H.
  - now inversion H; subst.
  - inv_bind H.
    apply (IH a); [ | | exact H ].
    + intros k t t' Hk; apply Hb; now right.
    + apply (Hb i s a); [ now left | exact Hs | exact Ha ].
Qed.

Lemma for_raise {S I : Type} (body : I -> S -> result S)
      (l : list I) (s : S) (e : exn) :
  for_ l body s = Raise e -> exists i t, In i l /\ body i t = Raise e.
Proof.
  revert s; induction l as [ | i l IH ]; intros s H; cbn in H;
    [ discriminate | ].
  destruct (body i s) as [s1 | e1] eqn:E; cbn in H.
  - destruct (IH _ H) as [k [t [Hk Ht]]].
    exists k, t; split; [ now right | exact Ht ].
  - inversion H; subst; exists i, s; split; [ now left | exact E ].
Qed.

Lemma for_ok {S I : Type} (P : S -> Prop) (body : I -> S -> result S)
      (l : list I) (s : S) :
  (forall i t, In i l -> P t -> exists t', body i t = OK t' /\ P t') ->
  P s -> exists s', for_ l body s = OK s' /\ P s'.
Proof.
  revert s; induction l as [ | i l IH ]; intros s Hb Hs; cbn.
  - exists s; split; [ reflexivity | exact Hs ].
  - destruct (Hb i s (or_introl eq_refl) Hs) as [t [Ht HP]].
    rewrite Ht; cbn.
    apply IH; [ | exact HP ].
    intros k u Hk; apply Hb; now right.
Qed.

Lemma in_range (n i : Z) :
  In i (Py.range n) <-> (0 <= i < n)%Z.
Proof.
  unfold Py.range; rewrite in_map_iff; split.
  - intros [k [<- Hk]]; apply in_seq in Hk; lia.
  - intros Hi; exists (Z.to_nat i); split; [ lia | ].
    apply in_seq; lia.
Qed.

Lemma index_ok (n : nat) (k : Z) :
  (0 <= k < Z.of_nat n)%Z -> index n k = OK (Z.to_nat k).
Proof.
  intros Hk; unfold index.
  destruct (Z.ltb_spec k 0); [ lia | ].
  destruct (Z.leb_spec 0 k); [ | lia ].
  destruct (Z.ltb_spec k (Z.of_nat n)); [ reflexivity | lia ].
Qed.

Lemma index_high (n : nat) (k : Z) :
  (Z.of_nat n <= k)%Z -> index n k = Raise IndexError.
Proof.
  intros Hk; unfold index.
  destruct (Z.ltb_spec k 0); [ lia | ].
  destruct (Z.ltb_spec k (Z.of_nat n)); [ lia | ].
  now rewrite andb_false_r.
Qed.

Lemma index_bound (n : nat) (k : Z) (k' : nat) :
  index n k = OK k' -> (k' < n)%nat.
Proof.
  unfold index; intros H.
  destruct (_ && _)%bool eqn:E; [ | discriminate ].
  inversion H; subst.
  apply andb_true_iff in E; destruct E as [E1 E2].
  apply Z.leb_le in E1; apply Z.ltb_lt in E2; lia.
Qed.

Lemma index_error (n : nat) (k : Z) (e : exn) :
  index n k = Raise e -> e = IndexError.
Proof.
  unfold index; destruct (_ && _)%bool; intros H; now inversion H.
Qed.

Lemma set_nth_length {A : Type} (n : nat) (v : A) (l : list A) :
  length (set_nth n v l) = length l.
Proof.
  revert n; induction l as [ | x l IH ]; intros [ | n ]; cbn; auto.
Qed.

Lemma set_nth_Forall {A : Type} (P : A -> Prop) (n : nat) (v : A)
      (l : list A) :
  P v -> Forall P l -> Forall P (set_nth n v l).
Proof.
  intros Hv; revert n; induction l as [ | x l IH ]; intros [ | n ] H; cbn;
    try constructor; inversion H; subst; auto.
Qed.

Lemma nth_set_nth {A : Type} (n k : nat) (v d : A) (l : list A) :
  (n < length l)%nat ->
  nth k (set_nth n v l) d = if (k =? n)%nat then v else nth k l d.
Proof.
  revert n k; induction l as [ | x l IH ]; intros [ | n ] [ | k ] H;
    cbn in *; try lia; try reflexivity.
  apply IH; lia.
Qed.

Lemma grid_shape_slot (g : grid) (m n d i j : nat) :
  grid_shape g m n d -> (i < m)%nat -> (j < n)%nat ->
  length (nth i g []) = n /\ length (slot g i j) = d.
Proof.
  intros [Hm Hall] Hi Hj; rewrite Forall_forall in Hall.
  assert (Hin : In (nth i g []) g) by (apply nth_In; lia).
  destruct (Hall _ Hin) as [Hn Hrow].
  split; [ exact Hn | ].
  rewrite Forall_forall in Hrow; apply Hrow, nth_In; lia.
Qed.

Lemma grid_shape_set (g : grid) (m n d i j : nat) (v : list R) :
  grid_shape g m n d -> length v = d -> (i < m)%nat ->
  grid_shape (set_nth i (set_nth j v (nth i g [])) g) m n d.
Proof.
  intros [Hm Hall] Hv Hi; split; [ now rewrite set_nth_length | ].
  apply set_nth_Forall; [ | exact Hall ].
  rewrite Forall_forall in Hall.
  assert (Hin : In (nth i g []) g) by (apply nth_In; lia).
  destruct (Hall _ Hin) as [Hn Hrow].
  split; [ now rewrite set_nth_length | ].
  now apply set_nth_Forall.
Qed.

Lemma setitem2_ok (g : grid) (m n d : nat) (i j : Z) (v : list R) :
  grid_shape g m n d -> length v = d ->
  (0 <= i < Z.of_nat m)%Z -> (0 <= j < Z.of_nat n)%Z ->
  setitem2 g i j v
  = OK (set_nth (Z.to_nat i)
                (set_nth (Z.to_nat j) v (nth (Z.to_nat i) g [])) g).
Proof.
  intros Hg Hv Hi Hj; unfold setitem2.
  destruct (grid_shape_slot g m n d (Z.to_nat i) (Z.to_nat j) Hg)
    as [Hn Hd]; try lia.
  destruct Hg as [Hm _].
  rewrite index_ok by lia; cbn [bind].
  rewrite index_ok by lia; cbn [bind].
  unfold slot in Hd; rewrite Hd, Hv, Nat.eqb_refl; reflexivity.
Qed.

Lemma setitem2_shape (g g' : grid) (m n d : nat) (i j : Z) (v : list R) :
  grid_shape g m n d -> setitem2 g i j v = OK g' -> grid_shape g' m n d.
Proof.
  intros Hg H; unfold setitem2 in H.
  inv_bind H; rename a into i'; inv_bind H; rename a into j'.
  pose proof (index_bound _ _ _ Ha) as Hi.
  pose proof (index_bound _ _ _ Ha0) as Hj.
  assert (Hm : length g = m) by apply Hg.
  assert (Hn : length (nth i' g []) = n).
  { destruct Hg as [_ Hall]; rewrite Forall_forall in Hall.
    apply Hall, nth_In; lia. }
  assert (Hd : length (slot g i' j') = d)
    by (apply (grid_shape_slot g m n d i' j' Hg); lia).
  unfold slot in Hd; rewrite Hd in H.
  destruct (Nat.eqb_spec (length v) d) as [Hv | Hv].
  - inversion H; subst g'; apply grid_shape_set; auto; lia.
  - destruct (length v =? 1)%nat; inversion H; subst g'.
    apply grid_shape_set; auto; [ apply repeat_length | lia ].
Qed.

Lemma setitem2_error (g : grid) (i j : Z) (v : list R) (e : exn) :
  setitem2 g i j v = Raise e -> e = IndexError \/ e = ValueError.
Proof.
  unfold setitem2; intros H.
  destruct (index (length g) i) as [i' | e1] eqn:E1; cbn in H;
    [ | inversion H; subst; left; eapply index_error; eauto ].
  destruct (index (length (nth i' g [])) j) as [j' | e2] eqn:E2; cbn in H;
    [ | inversion H; subst; left; eapply index_error; eauto ].
  destruct (_ =? _)%nat; [ discriminate | ].
  destruct (_ =? _)%nat; [ discriminate | ].
  inversion H; now right.
Qed.

Lemma np_zeros3_shape (m n d : Z) (g : grid) :
  np_zeros3 m n d = OK g ->
  grid_shape g (Z.to_nat m) (Z.to_nat n) (Z.to_nat d)
  /\ Forall (Forall (Forall (fun x => x = 0))) g.
Proof.
  unfold np_zeros3; destruct (_ || _ || _)%bool; [ discriminate | ].
  intros H; inversion H; subst g; clear H; split.
  - split; [ apply repeat_length | ].
    apply Forall_forall; intros row Hrow; apply repeat_spec in Hrow; subst.
    split; [ apply repeat_length | ].
    apply Forall_forall; intros c Hc; apply repeat_spec in Hc; subst.
    apply repeat_length.
  - apply Forall_forall; intros row Hrow; apply repeat_spec in Hrow; subst.
    apply Forall_forall; intros c Hc; apply repeat_spec in Hc; subst.
    apply Forall_forall; intros x Hx; now apply repeat_spec in Hx.
Qed.

Lemma np_zeros3_ok (m n d : Z) :
  (0 <= m)%Z -> (0 <= n)%Z -> (0 <= d)%Z ->
  exists g, np_zeros3 m n d = OK g.
Proof.
  intros Hm Hn Hd; unfold np_zeros3.
  destruct (Z.ltb_spec m 0); [ lia | ].
  destruct (Z.ltb_spec n 0); [ lia | ].
  destruct (Z.ltb_spec d 0); [ lia | ].
  cbn; eauto.
Qed.

Lemma np_zeros3_error (m n d : Z) (e : exn) :
  np_zeros3 m n d = Raise e -> e = ValueError.
Proof.
  unfold np_zeros3; destruct (_ || _ || _)%bool; intros H; now inversion H.
Qed.

(** ** Stage 3: the loop over the cells *)

Lemma slice_map {A B : Type} (f : A -> B) (a b : Z) (l : list A) :
  Py.slice a b (map f l) = map f (Py.slice a b l).
Proof.
  unfold Py.slice; now rewrite length_map, skipn_map, firstn_map.
Qed.

Lemma slice_length {A B : Type} (a b : Z) (l : list A) (l' : list B) :
  length l = length l' ->
  length (Py.slice a b l) = length (Py.slice a b l').
Proof.
  intros H; unfold Py.slice.
  now rewrite !length_firstn, !length_skipn, H.
Qed.

Lemma samedims_cell (a b : matrix) (cs i j : Z) :
  samedims a b -> samedims (cell_of a cs i j) (cell_of b cs i j).
Proof.
  unfold samedims, cell_of; intros H.
  set (c0 := (j * cs)%Z); set (c1 := ((j + 1) * cs)%Z).
  set (phi := fun n : nat => length (Py.slice c0 c1 (repeat 0 n))).
  assert (Hphi : forall x : matrix,
             map (@length R) (map (Py.slice c0 c1) x)
             = map phi (map (@length R) x)).
  { intros x; rewrite !map_map; apply map_ext; intros r.
    unfold phi; apply slice_length; now rewrite repeat_length. }
  now rewrite !Hphi, <- !slice_map, H.
Qed.

Lemma samedims_shape (a b : matrix) :
  samedims a b -> nrows a = nrows b /\ ncols a = ncols b.
Proof.
  unfold samedims, nrows, ncols; intros H; split.
  - now rewrite <- (length_map (@length R) a), H, length_map.
  - destruct a, b; cbn in *; congruence.
Qed.

Lemma has_shape_map2 (f : R -> R -> R) (a b : matrix) (h w : nat) :
  has_shape a h w -> has_shape b h w ->
  has_shape (map2 (map2 f) a b) h w.
Proof.
  intros [Ha1 Ha2] [Hb1 Hb2]; unfold has_shape, nrows in *; split.
  - rewrite map2_length; lia.
  - clear Ha1 Hb1; revert b Hb2.
    induction Ha2 as [ | r a Hr _ IH ]; intros b Hb; [ constructor | ].
    destruct Hb as [ | r' b Hr' Hb ]; [ constructor | ].
    change (map2 (map2 f) (r :: a) (r' :: b))
      with (map2 f r r' :: map2 (map2 f) a b).
    constructor; [ rewrite map2_length; lia | now apply IH ].
Qed.

Lemma magnitudes_and_orientations_2d (img : matrix) :
  (2 <= nrows img)%nat -> (2 <= ncols img)%nat ->
  exists O G,
    compute_magnitudes_and_orientations img = OK (Arr2 O, Arr2 G)
    /\ has_shape O (nrows img) (ncols img)
    /\ has_shape G (nrows img) (ncols img).
Proof.
  intros Hh Hw.
  destruct (magnitudes_and_orientations_ok img)
    as [Ix [Iy [ori [mag [H1 [H2 [H3 H4]]]]]]]; try lia.
  rewrite gradients_2d in H1 by assumption.
  inversion H1; subst Ix Iy; clear H1.
  cbn in H3, H4; inversion H3; inversion H4; subst ori mag.
  do 2 eexists; split; [ exact H2 | ].
  split; apply has_shape_map2; apply sobel_out_shape.
Qed.

Lemma diff_length (l : list R) : length (diff l) = (length l - 1)%nat.
Proof.
  unfold diff; rewrite map2_length.
  destruct l; cbn; lia.
Qed.

Lemma cum_weights_length (a w bins : list R) :
  bins <> [] -> length (cum_weights a w bins) = length bins.
Proof.
  intros Hne.
  rewrite (app_removelast_last 0 Hne) at 1.
  rewrite cum_weights_snoc, length_app, length_map; cbn [length].
  rewrite (app_removelast_last 0 Hne) at 2.
  rewrite length_app; reflexivity.
Qed.

Lemma bin_edges_nonempty (B : nat) : bin_edges B <> [].
Proof.
  intros H; pose proof (bin_edges_length B) as HL.
  rewrite H in HL; cbn in HL; lia.
Qed.

Lemma cell_histogram_length (O G : matrix) (cs : Z) (nb : nat) (i j : Z) :
  length (cell_histogram O G cs nb i j) = nb.
Proof.
  unfold cell_histogram.
  rewrite diff_length, cum_weights_length by apply bin_edges_nonempty.
  rewrite bin_edges_length; lia.
Qed.

Lemma create_histogram_cell (O G : matrix) (cs : Z) (nb : nat) (i j : Z) :
  samedims O G ->
  create_histogram (cell_of G cs i j) (cell_of O cs i j) nb
  = OK (cell_histogram O G cs nb i j, bin_edges nb).
Proof.
  intros H.
  destruct (samedims_shape _ _ (samedims_cell _ _ cs i j H)) as [Hr Hc].
  now rewrite create_histogram_eq.
Qed.

Lemma cell_step_ok (O G : matrix) (cs : Z) (nb : nat) (i j : Z)
      (g : grid) (t : option (list R)) (m n : nat) :
  samedims O G -> grid_shape g m n nb ->
  (0 <= i < Z.of_nat m)%Z -> (0 <= j < Z.of_nat n)%Z ->
  cell_step (Arr2 O) (Arr2 G) cs nb i j (g, t)
  = OK (set_nth (Z.to_nat i)
                (set_nth (Z.to_nat j) (cell_histogram O G cs nb i j)
                         (nth (Z.to_nat i) g [])) g,
        Some (bin_edges nb)).
Proof.
  intros Hs Hg Hi Hj; unfold cell_step; cbn [getslice2 bind fst].
  fold (cell_of O cs i j); fold (cell_of G cs i j).
  rewrite create_histogram_cell by assumption; cbn [bind].
  rewrite (setitem2_ok g m n nb)
    by (try apply cell_histogram_length; try assumption; lia).
  reflexivity.
Qed.

Lemma cell_step_high (O G : matrix) (cs : Z) (nb : nat) (i j : Z)
      (g : grid) (t : option (list R)) (m n : nat) :
  samedims O G -> grid_shape g m n nb ->
  (0 <= i < Z.of_nat m)%Z -> (Z.of_nat n <= j)%Z ->
  cell_step (Arr2 O) (Arr2 G) cs nb i j (g, t) = Raise IndexError.
Proof.
  intros Hs Hg Hi Hj; unfold cell_step; cbn [getslice2 bind fst].
  fold (cell_of O cs i j); fold (cell_of G cs i j).
  rewrite create_histogram_cell by assumption; cbn [bind].
  unfold setitem2.
  assert (Hm : length g = m) by apply Hg.
  rewrite index_ok by lia; cbn [bind].
  assert (Hn : length (nth (Z.to_nat i) g []) = n).
  { destruct Hg as [_ Hall]; rewrite Forall_forall in Hall.
    apply Hall, nth_In; lia. }
  rewrite index_high by lia; reflexivity.
Qed.

Lemma create_histogram_error (mags oris : matrix) (B : nat) (e : exn) :
  create_histogram mags oris B = Raise e -> e = ValueError.
Proof.
  unfold create_histogram, np_histogram.
  destruct (negb _); [ intros H; now inversion H | ].
  destruct (negb _); intros H; now inversion H.
Qed.

Lemma create_histogram_ticks (mags oris : matrix) (B : nat)
      (h t : list R) :
  create_histogram mags oris B = OK (h, t) -> t = bin_edges B.
Proof.
  unfold create_histogram; intros H; inv_bind H; now inversion H.
Qed.

Lemma cell_step_error (ori mag : ndarray) (cs : Z) (nb : nat) (i j : Z)
      (st : grid * option (list R)) (e : exn) :
  cell_step ori mag cs nb i j st = Raise e ->
  e = IndexError \/ e = ValueError.
Proof.
  unfold cell_step; intros H.
  destruct (getslice2 ori _ _ _ _) as [co | e1] eqn:E1; cbn in H.
  2:{ destruct ori; cbn in E1; inversion E1; inversion H; subst; now left. }
  destruct (getslice2 mag _ _ _ _) as [cm | e2] eqn:E2; cbn in H.
  2:{ destruct mag; cbn in E2; inversion E2; inversion H; subst; now left. }
  destruct (create_histogram cm co nb) as [[h t] | e3] eqn:E3; cbn in H.
  2:{ inversion H; subst; right; eapply create_histogram_error; eauto. }
  destruct (setitem2 (fst st) i j h) as [g | e4] eqn:E4; cbn in H;
    [ discriminate | ].
  inversion H; subst; eapply setitem2_error; eauto.
Qed.

Lemma cell_step_ticks (ori mag : ndarray) (cs : Z) (nb : nat) (i j : Z)
      (st st' : grid * option (list R)) :
  cell_step ori mag cs nb i j st = OK st' ->
  snd st' = Some (bin_edges nb).
Proof.
  unfold cell_step; intros H.
  inv_bind H; inv_bind H; inv_bind H; destruct a1 as [h t]; inv_bind H.
  inversion H; cbn; f_equal; eapply create_histogram_ticks; eauto.
Qed.

Lemma histograms_aligned (img : matrix) (cs : Z) (ori mag : ndarray) :
  compute_magnitudes_and_orientations img = OK (ori, mag) ->
  cs <> 0%Z ->
  (Z.of_nat (ncols img) mod cs = 0)%Z ->
  (Z.of_nat (nrows img) mod cs = 0)%Z ->
  create_image_histograms img cs
  = (histogram_grid <-
       np_zeros3 (Z.of_nat (ncols img) / cs) (Z.of_nat (ncols img) / cs) 8 ;;
     for_ (Py.range (Z.of_nat (ncols img) / cs))
          (fun i =>
             for_ (Py.range (Z.of_nat (nrows img) / cs))
                  (cell_step ori mag cs 8 i))
          (histogram_grid, None)).
Proof.
  intros Hc Hcs HM HN; unfold create_image_histograms.
  rewrite Hc; cbn [bind]; unfold Py.mod_, Py.floordiv.
  destruct (Z.eqb_spec cs 0) as [ | _ ]; [ contradiction | ].
  cbn [bind]; rewrite HM, HN; reflexivity.
Qed.

Lemma histograms_unaligned (img : matrix) (cs : Z) (ori mag : ndarray) :
  compute_magnitudes_and_orientations img = OK (ori, mag) ->
  cs <> 0%Z ->
  (Z.of_nat (ncols img) mod cs <> 0
   \/ Z.of_nat (nrows img) mod cs <> 0)%Z ->
  create_image_histograms img cs = Raise AssertionError.
Proof.
  intros Hc Hcs H; unfold create_image_histograms.
  rewrite Hc; cbn [bind]; unfold Py.mod_.
  destruct (Z.eqb_spec cs 0) as [ | _ ]; [ contradiction | ].
  cbn [bind].
  destruct (Z.eqb_spec (Z.of_nat (ncols img) mod cs) 0) as [HM | HM];
    [ | reflexivity ].
  cbn [Py.assert bind].
  destruct (Z.eqb_spec (Z.of_nat (nrows img) mod cs) 0) as [HN | HN];
    [ | reflexivity ].
  destruct H; contradiction.
Qed.

Lemma cell_loops_error (ori mag : ndarray) (cs : Z) (nb : nat)
      (qm qn : Z) (st : grid * option (list R)) (e : exn) :
  for_ (Py.range qm)
       (fun i => for_ (Py.range qn) (cell_step ori mag cs nb i)) st
  = Raise e ->
  e = IndexError \/ e = ValueError.
Proof.
  intros H.
  apply for_raise in H; destruct H as [i [t [_ H]]].
  apply for_raise in H; destruct H as [j [u [_ H]]].
  eapply cell_step_error; eauto.
Qed.

Lemma cell_loops_ticks (ori mag : ndarray) (cs : Z) (nb : nat)
      (qm qn : Z) (st st' : grid * option (list R)) :
  snd st = None ->
  for_ (Py.range qm)
       (fun i => for_ (Py.range qn) (cell_step ori mag cs nb i)) st
  = OK st' ->
  snd st' = None \/ snd st' = Some (bin_edges nb).
Proof.
  intros Hs H.
  refine (for_inv
            (fun s => snd s = None \/ snd s = Some (bin_edges nb))
            _ _ _ _ _ _ H); [ | now left ].
  intros i t t' _ Ht Hi.
  refine (for_inv
            (fun s => snd s = None \/ snd s = Some (bin_edges nb))
            _ _ _ _ _ Ht Hi).
  intros j u u' _ _ Hu; right; eapply cell_step_ticks; eauto.
Qed.

(** On an aligned image with at least as many columns as rows the loops
    run to their end; the grid keeps the shape it was allocated with. *)
Lemma histograms_wide (img : matrix) (cs : Z) :
  (2 <= nrows img)%nat -> (2 <= ncols img)%nat -> (0 < cs)%Z ->
  (Z.of_nat (nrows img) mod cs = 0)%Z ->
  (Z.of_nat (ncols img) mod cs = 0)%Z ->
  (nrows img <= ncols img)%nat ->
  exists g t,
    create_image_histograms img cs = OK (g, t)
    /\ grid_shape g (Z.to_nat (Z.of_nat (ncols img) / cs))
                  (Z.to_nat (Z.of_nat (ncols img) / cs)) 8.
Proof.
  intros Hh Hw Hcs HN HM Hle.
  destruct (magnitudes_and_orientations_2d img Hh Hw)
    as [O [G [Hc [HO HG]]]].
  rewrite (histograms_aligned img cs _ _ Hc) by (assumption || lia).
  set (qm := (Z.of_nat (ncols img) / cs)%Z).
  set (qn := (Z.of_nat (nrows img) / cs)%Z).
  assert (Hqm : (0 <= qm)%Z) by (apply Z.div_pos; lia).
  assert (Hqn : (qn <= qm)%Z) by (apply Z.div_le_mono; lia).
  destruct (np_zeros3_ok qm qm 8) as [g0 Hg0]; try lia.
  rewrite Hg0; cbn [bind].
  apply np_zeros3_shape in Hg0; destruct Hg0 as [Hg0 _].
  change (Z.to_nat 8) with 8%nat in Hg0.
  pose proof (has_shape_samedims _ _ _ _ HO HG) as Hs.
  destruct (for_ok
              (fun s : grid * option (list R) =>
                 grid_shape (fst s) (Z.to_nat qm) (Z.to_nat qm) 8)
              (fun i => for_ (Py.range qn) (cell_step (Arr2 O) (Arr2 G) cs 8 i))
              (Py.range qm) (g0, None)) as [[g t] [Hrun Hg]].
  - intros i s Hi Hsh; apply in_range in Hi.
    apply for_ok; [ | exact Hsh ].
    intros j [g1 t1] Hj Hsh1; apply in_range in Hj; cbn [fst] in Hsh1.
    rewrite (cell_step_ok O G cs 8 i j g1 t1 _ _ Hs Hsh1) by lia.
    eexists; split; [ reflexivity | ].
    cbn [fst]; apply grid_shape_set; try assumption; try lia.
    apply cell_histogram_length.
  - exact Hg0.
  - exists g, t; split; [ exact Hrun | exact Hg ].
Qed.

(** With more rows than columns the first row of cells already runs past
    the second axis of the grid. *)
Lemma histograms_tall (img : matrix) (cs : Z) :
  (2 <= nrows img)%nat -> (2 <= ncols img)%nat -> (0 < cs)%Z ->
  (Z.of_nat (nrows img) mod cs = 0)%Z ->
  (Z.of_nat (ncols img) mod cs = 0)%Z ->
  (ncols img < nrows img)%nat ->
  create_image_histograms img cs = Raise IndexError.
Proof.
  intros Hh Hw Hcs HN HM Hlt.
  destruct (magnitudes_and_orientations_2d img Hh Hw)
    as [O [G [Hc [HO HG]]]].
  rewrite (histograms_aligned img cs _ _ Hc) by (assumption || lia).
  set (qm := (Z.of_nat (ncols img) / cs)%Z).
  set (qn := (Z.of_nat (nrows img) / cs)%Z).
  assert (HMq : Z.of_nat (ncols img) = (cs * qm)%Z)
    by (unfold qm; apply Z.div_exact; lia).
  assert (HNq : Z.of_nat (nrows img) = (cs * qn)%Z)
    by (unfold qn; apply Z.div_exact; lia).
  assert (Hqm : (1 <= qm)%Z) by nia.
  assert (Hqn : (qm < qn)%Z) by nia.
  destruct (np_zeros3_ok qm qm 8) as [g0 Hg0]; try lia.
  rewrite Hg0; cbn [bind].
  apply np_zeros3_shape in Hg0; destruct Hg0 as [Hg0 _].
  change (Z.to_nat 8) with 8%nat in Hg0.
  pose proof (has_shape_samedims _ _ _ _ HO HG) as Hs.
  unfold Py.range at 1.
  destruct (Z.to_nat qm) as [ | k ] eqn:Ek; [ lia | ].
  cbn [seq map for_].
  assert (Hinner :
            forall (l1 l2 : list Z) (s : grid * option (list R)),
              (forall j, In j l1 -> (0 <= j < qm)%Z) ->
              grid_shape (fst s) (S k) (S k) 8 ->
              for_ (l1 ++ qm :: l2)
                   (cell_step (Arr2 O) (Arr2 G) cs 8 (Z.of_nat 0)) s
              = Raise IndexError).
  { induction l1 as [ | j l1 IH ]; intros l2 [g1 t1] Hl Hsh;
      cbn [app for_ fst] in *.
    - rewrite (cell_step_high O G cs 8 _ qm g1 t1 (S k) (S k))
        by (assumption || lia).
      reflexivity.
    - rewrite (cell_step_ok O G cs 8 _ j g1 t1 (S k) (S k) Hs Hsh)
        by (try specialize (Hl j (or_introl eq_refl)); lia).
      cbn [bind]; apply IH.
      + intros j' Hj'; apply Hl; now right.
      + cbn [fst]; apply grid_shape_set; try assumption; try lia.
        apply cell_histogram_length. }
  assert (Hsplit : exists l2,
             Py.range qn = Py.range qm ++ qm :: l2).
  { unfold Py.range.
    replace (Z.to_nat qn)
      with (Z.to_nat qm + S (Z.to_nat qn - Z.to_nat qm - 1))%nat by lia.
    rewrite seq_app, map_app; cbn [seq map].
    eexists; f_equal; f_equal; lia. }
  destruct Hsplit as [l2 ->].
  rewrite Hinner; [ reflexivity | | exact Hg0 ].
  intros j Hj; now apply in_range in Hj.
Qed.

Lemma histograms_ticks (img : matrix) (cs : Z) (g : grid)
      (t : option (list R)) :
  create_image_histograms img cs = OK (g, t) ->
  t = None \/ t = Some (bin_edges 8).
Proof.
  unfold create_image_histograms; intros H.
  inv_bind H; destruct a as [ori mag].
  inv_bind H; inv_bind H; inv_bind H; inv_bind H; inv_bind H; inv_bind H.
  inv_bind H.
  change t with (snd (g, t)).
  eapply cell_loops_ticks; [ | exact H ]; reflexivity.
Qed.

(** C9.  On an image (with at least one row and one column) and a positive
    cell size, [create_image_histograms] fails with the assertion error
    whenever the number of rows or of columns is not a multiple of the cell
    size, and never fails with that error when both are. *)
Theorem unaligned_dimensions_rejected (img : matrix) (cs : Z) :
  (1 <= nrows img)%nat -> (1 <= ncols img)%nat -> (0 < cs)%Z ->
  ((Z.of_nat (nrows img) mod cs <> 0
    \/ Z.of_nat (ncols img) mod cs <> 0)%Z ->
   create_image_histograms img cs = Raise AssertionError)
  /\ ((Z.of_nat (nrows img) mod cs = 0
       /\ Z.of_nat (ncols img) mod cs = 0)%Z ->
      create_image_histograms img cs <> Raise AssertionError).
Proof.
  intros Hh Hw Hcs.
  destruct (magnitudes_and_orientations_ok img Hh Hw)
    as [Ix [Iy [ori [mag [_ [Hc _]]]]]].
  split.
  - intros H; apply (histograms_unaligned img cs ori mag Hc); lia.
  - intros [HN HM].
    rewrite (histograms_aligned img cs ori mag Hc) by (assumption || lia).
    destruct (np_zeros3 _ _ _) as [g0 | e] eqn:E; cbn [bind].
    + intros H; apply cell_loops_error in H; destruct H; discriminate.
    + apply np_zeros3_error in E; subst e; discriminate.
Qed.

Lemma unaligned_dimensions_rejected_witness :
  (1 <= nrows flat10)%nat /\ (1 <= ncols flat10)%nat /\ (0 < 3)%Z
  /\ (Z.of_nat (nrows flat10) mod 3 <> 0)%Z
  /\ create_image_histograms flat10 3 = Raise AssertionError.
Proof.
  assert (Hh : (1 <= nrows flat10)%nat) by (unfold flat10; extent).
  assert (Hw : (1 <= ncols flat10)%nat) by (unfold flat10; extent).
  assert (Hcs : (0 < 3)%Z) by lia.
  assert (Hm : (Z.of_nat (nrows flat10) mod 3 <> 0)%Z)
    by (unfold flat10, nrows; cbn [length repeat]; intros H; discriminate H).
  split; [ exact Hh | split; [ exact Hw | split; [ exact Hcs | ] ] ].
  split; [ exact Hm | ].
  exact (proj1 (unaligned_dimensions_rejected flat10 3 Hh Hw Hcs)
               (or_introl Hm)).
Defined.

(** C2 fails on images that are not square.  On a 2x4 image with cell size
    2 the call returns a grid of shape 2 x 2 x 8, while the image has
    2 // 2 = 1 row of cells; on a 4x2 image it raises [IndexError]. *)
Theorem nonsquare_image_grid :
  (exists g t,
      create_image_histograms wide24 2 = OK (g, t)
      /\ grid_shape g 2 2 8
      /\ (Z.of_nat (nrows wide24) / 2 = 1)%Z
      /\ (Z.of_nat (ncols wide24) / 2 = 2)%Z)
  /\ create_image_histograms tall42 2 = Raise IndexError.
Proof.
  assert (H2 : (2 <= 2)%nat) by lia.
  assert (H4 : (2 <= 4)%nat) by lia.
  assert (Hcs : (0 < 2)%Z) by lia.
  split.
  - destruct (histograms_wide wide24 2 H2 H4 Hcs eq_refl eq_refl H4)
      as [g [t [Hrun Hg]]].
    exists g, t; split; [ exact Hrun | ].
    split; [ exact Hg | split; reflexivity ].
  - assert (H42 : (2 <= 4)%nat) by lia.
    assert (Hlt : (2 < 4)%nat) by lia.
    exact (histograms_tall tall42 2 H42 H2 Hcs eq_refl eq_refl Hlt).
Qed.

(** ** Stage 4: normalisation *)

Lemma dot_self_nonneg (v : list R) : 0 <= dot v v.
Proof. induction v as [ | x v IH ]; cbn; [ lra | nra ]. Qed.

Lemma dot_self_zero (v : list R) : dot v v = 0 -> all_zero v.
Proof.
  induction v as [ | x v IH ]; cbn; intros H; [ constructor | ].
  pose proof (dot_self_nonneg v).
  constructor; [ nra | apply IH; nra ].
Qed.

Lemma dot_zero (v : list R) : all_zero v -> dot v v = 0.
Proof.
  induction 1 as [ | x v Hx _ IH ]; cbn; [ reflexivity | ].
  rewrite IH, Hx; ring.
Qed.

Lemma dot_self_entry (v : list R) (x : R) : In x v -> x * x <= dot v v.
Proof.
  induction v as [ | y v IH ]; cbn; intros H; [ contradiction | ].
  pose proof (dot_self_nonneg v).
  destruct H as [-> | H]; [ nra | ].
  specialize (IH H); nra.
Qed.

Lemma dot_scale (c : R) (v : list R) :
  dot (map (fun x => x / c) v) (map (fun x => x / c) v)
  = dot v v * (/ c * / c).
Proof.
  induction v as [ | x v IH ]; cbn; [ ring | ].
  rewrite IH; unfold Rdiv; ring.
Qed.

Lemma norm_nonneg (v : list R) : 0 <= norm v.
Proof. apply sqrt_pos. Qed.

Lemma norm_square (v : list R) : norm v * norm v = dot v v.
Proof. apply sqrt_sqrt, dot_self_nonneg. Qed.

Lemma norm_zero_iff (v : list R) : norm v = 0 <-> all_zero v.
Proof.
  split; intros H.
  - apply dot_self_zero; rewrite <- norm_square, H; ring.
  - unfold norm; rewrite dot_zero by assumption; apply sqrt_0.
Qed.

Lemma normalize_zero (v : list R) : all_zero v -> normalize v = v.
Proof.
  intros H; unfold normalize.
  destruct (Req_dec_T (norm v) 0) as [_ | Hn]; [ reflexivity | ].
  now apply norm_zero_iff in H.
Qed.

Lemma normalize_unit (v : list R) :
  norm v <> 0 -> norm (normalize v) = 1.
Proof.
  intros Hn; unfold normalize.
  destruct (Req_dec_T (norm v) 0) as [H0 | _]; [ contradiction | ].
  unfold norm at 1; rewrite dot_scale, <- norm_square.
  replace (norm v * norm v * (/ norm v * / norm v)) with 1
    by (field; exact Hn).
  apply sqrt_1.
Qed.

Lemma normalize_length (v : list R) : length (normalize v) = length v.
Proof.
  unfold normalize; destruct (Req_dec_T (norm v) 0);
    [ reflexivity | apply length_map ].
Qed.

(** A normalised vector is all zero or of norm 1. *)
Lemma normalize_cases (v : list R) :
  ~ all_zero (normalize v) -> norm (normalize v) = 1.
Proof.
  intros H; apply normalize_unit; intros Hn; apply H.
  apply norm_zero_iff in Hn.
  now rewrite normalize_zero.
Qed.

Lemma normalize_bounds (v : list R) :
  Forall (fun x => 0 <= x) v ->
  Forall (fun x => 0 <= x <= 1) (normalize v).
Proof.
  intros Hv; unfold normalize.
  destruct (Req_dec_T (norm v) 0) as [H0 | Hn].
  - apply norm_zero_iff in H0.
    eapply Forall_impl; [ | exact H0 ]; cbn; intros x ->; lra.
  - pose proof (norm_nonneg v) as Hpos.
    pose proof (norm_square v) as Hsq.
    rewrite Forall_map, Forall_forall; rewrite Forall_forall in Hv.
    intros x Hx; specialize (Hv x Hx).
    pose proof (dot_self_entry v x Hx) as Hle.
    assert (Hlt : 0 < norm v) by lra.
    assert (Hxn : x <= norm v) by nra.
    split.
    + apply Rmult_le_pos; [ exact Hv | ].
      left; now apply Rinv_0_lt_compat.
    + apply (Rmult_le_reg_r (norm v)); [ exact Hlt | ].
      unfold Rdiv; rewrite Rmult_assoc, Rinv_l by exact Hn; lra.
Qed.

(** ** Stage 4: slices and windows *)

Lemma Forall_firstn' {A : Type} (P : A -> Prop) (n : nat) (l : list A) :
  Forall P l -> Forall P (firstn n l).
Proof.
  intros H; revert n; induction H as [ | x l Hx _ IH ]; intros [ | n ];
    cbn; constructor; auto.
Qed.

Lemma Forall_skipn' {A : Type} (P : A -> Prop) (n : nat) (l : list A) :
  Forall P l -> Forall P (skipn n l).
Proof.
  intros H; revert n; induction H as [ | x l Hx Hl IH ]; intros [ | n ];
    cbn; auto.
Qed.

Lemma Forall_slice {A : Type} (P : A -> Prop) (a b : Z) (l : list A) :
  Forall P l -> Forall P (Py.slice a b l).
Proof. intros H; unfold Py.slice; now apply Forall_firstn', Forall_skipn'. Qed.

Lemma slice_fit {A : Type} (a k : Z) (l : list A) :
  (0 <= a)%Z -> (0 <= k)%Z -> (a + k <= Z.of_nat (length l))%Z ->
  Py.slice a (a + k) l = firstn (Z.to_nat k) (skipn (Z.to_nat a) l).
Proof.
  intros Ha Hk Hfit; unfold Py.slice, Py.slice_index.
  destruct (Z.ltb_spec a 0); [ lia | ].
  destruct (Z.ltb_spec (a + k) 0); [ lia | ].
  rewrite !Z.min_r by lia.
  now replace (a + k - a)%Z with k by lia.
Qed.

Lemma slice_fit_length {A : Type} (a k : Z) (l : list A) :
  (0 <= a)%Z -> (0 <= k)%Z -> (a + k <= Z.of_nat (length l))%Z ->
  length (Py.slice a (a + k) l) = Z.to_nat k.
Proof.
  intros Ha Hk Hfit; rewrite slice_fit by assumption.
  rewrite length_firstn, length_skipn; lia.
Qed.

Lemma slice_fit_nth {A : Type} (a k : Z) (l : list A) (q : nat) (d : A) :
  (0 <= a)%Z -> (0 <= k)%Z -> (a + k <= Z.of_nat (length l))%Z ->
  (q < Z.to_nat k)%nat ->
  nth q (Py.slice a (a + k) l) d = nth (Z.to_nat a + q) l d.
Proof.
  intros Ha Hk Hfit Hq; rewrite slice_fit by assumption.
  rewrite nth_firstn, nth_skipn.
  destruct (Nat.ltb_spec q (Z.to_nat k)); [ reflexivity | lia ].
Qed.

Lemma grid_shape_row (g : grid) (m n d i : nat) :
  grid_shape g m n d -> (i < m)%nat ->
  length (nth i g []) = n /\ Forall (fun c => length c = d) (nth i g []).
Proof.
  intros [Hm Hall] Hi; rewrite Forall_forall in Hall.
  apply Hall, nth_In; lia.
Qed.

Lemma window_shape (hg : grid) (R C B : nat) (r0 c0 K : Z) :
  grid_shape hg R C B ->
  (0 <= r0)%Z -> (0 <= c0)%Z -> (0 <= K)%Z ->
  (r0 + K <= Z.of_nat R)%Z -> (c0 + K <= Z.of_nat C)%Z ->
  grid_shape (window hg r0 (r0 + K) c0 (c0 + K))
             (Z.to_nat K) (Z.to_nat K) B.
Proof.
  intros [HR Hall] Hr Hc HK HfR HfC; unfold window; split.
  - rewrite length_map, slice_fit_length; lia.
  - rewrite Forall_map.
    apply Forall_slice.
    eapply Forall_impl; [ | exact Hall ]; cbn.
    intros row [Hlen Hrow]; split.
    + rewrite slice_fit_length; lia.
    + now apply Forall_slice.
Qed.

Lemma window_slot (hg : grid) (R C B : nat) (r0 c0 K : Z) (a b : nat) :
  grid_shape hg R C B ->
  (0 <= r0)%Z -> (0 <= c0)%Z -> (0 <= K)%Z ->
  (r0 + K <= Z.of_nat R)%Z -> (c0 + K <= Z.of_nat C)%Z ->
  (a < Z.to_nat K)%nat -> (b < Z.to_nat K)%nat ->
  slot (window hg r0 (r0 + K) c0 (c0 + K)) a b
  = slot hg (Z.to_nat r0 + a) (Z.to_nat c0 + b).
Proof.
  intros Hg Hr Hc HK HfR HfC Ha Hb; unfold slot, window.
  assert (HR : length hg = R) by apply Hg.
  rewrite (nth_indep (map (Py.slice c0 (c0 + K)) (Py.slice r0 (r0 + K) hg))
                     [] (Py.slice c0 (c0 + K) []))
    by (rewrite length_map, slice_fit_length; lia).
  rewrite map_nth, (slice_fit_nth r0 K hg) by lia.
  destruct (grid_shape_row hg R C B (Z.to_nat r0 + a) Hg) as [Hlen _];
    [ lia | ].
  now rewrite slice_fit_nth by lia.
Qed.

Lemma concat_uniform_length {A : Type} (l : list (list A)) (w : nat) :
  Forall (fun r => length r = w) l ->
  length (concat l) = (length l * w)%nat.
Proof.
  induction 1 as [ | r l Hr _ IH ]; cbn; [ reflexivity | ].
  rewrite length_app, IH, Hr; reflexivity.
Qed.

Lemma concat_uniform_nth {A : Type} (l : list (list A)) (w q r : nat)
      (d : A) :
  Forall (fun x => length x = w) l -> (r < w)%nat -> (q < length l)%nat ->
  nth (q * w + r) (concat l) d = nth r (nth q l []) d.
Proof.
  intros H Hr; revert q; induction H as [ | x l Hx _ IH ]; intros q Hq;
    cbn in Hq; [ lia | ].
  destruct q as [ | q ]; cbn [concat nth].
  - rewrite app_nth1 by lia; reflexivity.
  - rewrite app_nth2 by (cbn; lia).
    replace (S q * w + r - length x)%nat with (q * w + r)%nat by (cbn; lia).
    apply IH; lia.
Qed.

Lemma grid_rows_uniform (g : grid) (m n d : nat) :
  grid_shape g m n d ->
  Forall (fun r => length r = n) g
  /\ Forall (fun c => length c = d) (concat g).
Proof.
  intros [_ Hall]; split.
  - eapply Forall_impl; [ | exact Hall ]; cbn; tauto.
  - apply Forall_concat.
    eapply Forall_impl; [ | exact Hall ]; cbn; tauto.
Qed.

Lemma flatten_length (g : grid) (m n d : nat) :
  grid_shape g m n d -> length (flatten g) = (m * n * d)%nat.
Proof.
  intros Hg; destruct (grid_rows_uniform g m n d Hg) as [H1 H2].
  unfold flatten.
  rewrite (concat_uniform_length _ d H2), (concat_uniform_length _ n H1).
  destruct Hg as [-> _]; reflexivity.
Qed.

Lemma flatten_nth (g : grid) (m n d a b c : nat) :
  grid_shape g m n d -> (a < m)%nat -> (b < n)%nat -> (c < d)%nat ->
  nth ((a * n + b) * d + c) (flatten g) 0 = nth c (slot g a b) 0.
Proof.
  intros Hg Ha Hb Hc; destruct (grid_rows_uniform g m n d Hg) as [H1 H2].
  assert (Hm : length g = m) by apply Hg.
  unfold flatten, slot.
  rewrite (concat_uniform_nth _ d _ _ 0 H2 Hc)
    by (rewrite (concat_uniform_length _ n H1); nia).
  f_equal.
  rewrite (concat_uniform_nth g n a b [] H1 Hb) by lia.
  reflexivity.
Qed.

(** ** Stage 4: the loop over the blocks *)

Lemma slot_set (g : grid) (m n d i j i' j' : nat) (v : list R) :
  grid_shape g m n d -> (i < m)%nat -> (j < n)%nat ->
  slot (set_nth i (set_nth j v (nth i g [])) g) i' j'
  = if ((i' =? i) && (j' =? j))%nat then v else slot g i' j'.
Proof.
  intros Hg Hi Hj; unfold slot.
  assert (Hm : length g = m) by apply Hg.
  destruct (grid_shape_row g m n d i Hg Hi) as [Hn _].
  rewrite nth_set_nth by lia.
  destruct (Nat.eqb_spec i' i) as [-> | Hne]; cbn [andb];
    [ | reflexivity ].
  now rewrite nth_set_nth by lia.
Qed.

Lemma for_range {S : Type} (P : nat -> S -> Prop)
      (body : Z -> S -> result S) (n : nat) (s : S) :
  P 0%nat s ->
  (forall k t, (k < n)%nat -> P k t ->
               exists t',
                 body (Z.of_nat k) t = OK t' /\ P (Datatypes.S k) t') ->
  exists s', for_ (Py.range (Z.of_nat n)) body s = OK s' /\ P n s'.
Proof.
  intros H0 Hstep; unfold Py.range; rewrite Nat2Z.id.
  assert (Hgen : forall len a t,
             (a + len = n)%nat -> P a t ->
             exists s', for_ (map Z.of_nat (seq a len)) body t = OK s'
                        /\ P n s').
  { induction len as [ | len IH ]; intros a t Ha Ht; cbn [seq map for_].
    - exists t; split; [ reflexivity | ].
      now replace n with a by lia.
    - destruct (Hstep a t) as [t' [Hb Ht']]; [ lia | exact Ht | ].
      rewrite Hb; cbn [bind]; apply IH; [ lia | exact Ht' ]. }
  apply (Hgen n 0%nat s); [ lia | exact H0 ].
Qed.

Lemma fill_grid (F : Z -> Z -> list R) (m n d : nat) (g0 : grid) :
  grid_shape g0 m n d ->
  (forall i j, (i < m)%nat -> (j < n)%nat ->
               length (F (Z.of_nat i) (Z.of_nat j)) = d) ->
  exists g,
    for_ (Py.range (Z.of_nat m))
         (fun i => for_ (Py.range (Z.of_nat n))
                        (fun j bg => setitem2 bg i j (F i j))) g0
    = OK g
    /\ grid_shape g m n d
    /\ forall i j, (i < m)%nat -> (j < n)%nat ->
                   slot g i j = F (Z.of_nat i) (Z.of_nat j).
Proof.
  intros Hg0 HF.
  destruct (for_range
              (fun k g =>
                 grid_shape g m n d
                 /\ forall i j, (i < k)%nat -> (j < n)%nat ->
                                slot g i j = F (Z.of_nat i) (Z.of_nat j))
              (fun i => for_ (Py.range (Z.of_nat n))
                             (fun j bg => setitem2 bg i j (F i j)))
              m g0) as [g [Hrun [Hg Hall]]].
  - split; [ exact Hg0 | intros; lia ].
  - intros i g Hi [Hg Hdone].
    destruct (for_range
                (fun k g' =>
                   grid_shape g' m n d
                   /\ (forall i' j, (i' < i)%nat -> (j < n)%nat ->
                         slot g' i' j = F (Z.of_nat i') (Z.of_nat j))
                   /\ forall j, (j < k)%nat ->
                         slot g' i j = F (Z.of_nat i) (Z.of_nat j))
                (fun j bg => setitem2 bg (Z.of_nat i) j (F (Z.of_nat i) j))
                n g) as [g' [Hrun [Hg' [Hold Hnew]]]].
    + split; [ exact Hg | split; [ exact Hdone | intros; lia ] ].
    + intros j g1 Hj [Hg1 [Hold Hnew]].
      rewrite (setitem2_ok g1 m n d) by (auto; lia).
      eexists; split; [ reflexivity | ].
      rewrite !Nat2Z.id.
      split; [ apply grid_shape_set; auto | ].
      split.
      * intros i' j' Hi' Hj'.
        rewrite (slot_set g1 m n d) by assumption.
        destruct (Nat.eqb_spec i' i); [ lia | cbn [andb] ].
        now apply Hold.
      * intros j' Hj'.
        rewrite (slot_set g1 m n d) by assumption.
        rewrite Nat.eqb_refl; cbn [andb].
        destruct (Nat.eqb_spec j' j) as [-> | Hne]; [ reflexivity | ].
        apply Hnew; lia.
    + exists g'; split; [ exact Hrun | split; [ exact Hg' | ] ].
      intros i' j Hi' Hj.
      destruct (Nat.eq_dec i' i) as [-> | Hne];
        [ now apply Hnew | apply Hold; lia ].
  - exists g; split; [ exact Hrun | split; [ exact Hg | exact Hall ] ].
Qed.

Lemma block_fits (n K S i : Z) :
  (1 <= K)%Z -> (1 <= S)%Z -> (K <= n)%Z ->
  (0 <= i < (n - (K - 1)) / S)%Z ->
  (0 <= i * S /\ i * S + K <= n)%Z.
Proof.
  intros HK HS Hn Hi.
  pose proof (Z.mul_div_le (n - (K - 1)) S ltac:(lia)) as Hd.
  nia.
Qed.

Lemma block_vector_length (hg : grid) (R C B : nat) (K S i j : Z) :
  grid_shape hg R C B -> (1 <= K)%Z -> (1 <= S)%Z ->
  (K <= Z.of_nat R)%Z -> (K <= Z.of_nat C)%Z ->
  (0 <= i < (Z.of_nat R - (K - 1)) / S)%Z ->
  (0 <= j < (Z.of_nat C - (K - 1)) / S)%Z ->
  length (block_vector hg K S i j) = Z.to_nat (Z.of_nat B * K ^ 2).
Proof.
  intros Hg HK HS HR HC Hi Hj; unfold block_vector.
  destruct (block_fits (Z.of_nat R) K S i) as [Hi0 Hi1]; try lia.
  destruct (block_fits (Z.of_nat C) K S j) as [Hj0 Hj1]; try lia.
  rewrite (flatten_length _ (Z.to_nat K) (Z.to_nat K) B)
    by (apply (window_shape hg R C B); auto; lia).
  rewrite Z.pow_2_r; nia.
Qed.

(** What [create_descriptor] returns on a well-formed grid with a block
    that fits: the shape of the output and the content of every entry. *)
Lemma descriptor_blocks (hg : grid) (R C B : nat) (K S : Z) :
  grid_shape hg R C B -> (1 <= K)%Z -> (1 <= S)%Z ->
  (K <= Z.of_nat R)%Z -> (K <= Z.of_nat C)%Z ->
  exists out,
    create_descriptor hg K S = OK out
    /\ grid_shape out
                  (Z.to_nat ((Z.of_nat R - (K - 1)) / S))
                  (Z.to_nat ((Z.of_nat C - (K - 1)) / S))
                  (Z.to_nat (Z.of_nat B * K ^ 2))
    /\ forall i j,
        (i < Z.to_nat ((Z.of_nat R - (K - 1)) / S))%nat ->
        (j < Z.to_nat ((Z.of_nat C - (K - 1)) / S))%nat ->
        slot out i j
        = normalize (block_vector hg K S (Z.of_nat i) (Z.of_nat j)).
Proof.
  intros Hg HK HS HR HC.
  assert (HlenR : length hg = R) by apply Hg.
  destruct hg as [ | row hg' ]; [ cbn in HlenR; lia | ].
  destruct (grid_shape_row (row :: hg') R C B 0 Hg) as [HlenC Hrow];
    [ lia | ].
  cbn [nth] in HlenC, Hrow.
  destruct row as [ | c row' ]; [ cbn in HlenC; lia | ].
  assert (HlenB : length c = B) by now inversion Hrow.
  set (g := (c :: row') :: hg') in *.
  set (mZ := ((Z.of_nat R - (K - 1)) / S)%Z).
  set (nZ := ((Z.of_nat C - (K - 1)) / S)%Z).
  assert (HmZ : (0 <= mZ)%Z) by (apply Z.div_pos; lia).
  assert (HnZ : (0 <= nZ)%Z) by (apply Z.div_pos; lia).
  assert (HdZ : (0 <= Z.of_nat B * K ^ 2)%Z)
    by (apply Z.mul_nonneg_nonneg; [ lia | apply Z.pow_nonneg; lia ]).
  destruct (np_zeros3_ok mZ nZ (Z.of_nat B * K ^ 2) HmZ HnZ HdZ)
    as [g0 Hg0].
  pose proof (np_zeros3_shape _ _ _ _ Hg0) as [Hsh0 _].
  destruct (fill_grid
              (fun i j => normalize (block_vector g K S i j))
              (Z.to_nat mZ) (Z.to_nat nZ)
              (Z.to_nat (Z.of_nat B * K ^ 2)) g0 Hsh0)
    as [out [Hrun [Hout Hslots]]].
  { intros i j Hi Hj; rewrite normalize_length.
    apply (block_vector_length g R C B); auto; fold mZ nZ; lia. }
  rewrite !Z2Nat.id in Hrun by assumption.
  exists out; split; [ | split; [ exact Hout | exact Hslots ] ].
  unfold create_descriptor.
  change (len_at0 g) with (OK (Z.of_nat (length (c :: row')))).
  rewrite HlenC, HlenR; cbn [bind].
  replace ((K <=? Z.of_nat R) && (K <=? Z.of_nat C))%Z with true
    by (symmetry; rewrite andb_true_iff, !Z.leb_le; lia).
  cbn [Py.assert bind]; unfold Py.floordiv.
  destruct (Z.eqb_spec S 0); [ lia | ].
  cbn [bind]; fold mZ nZ.
  change (len_at0 (hd [] g)) with (OK (Z.of_nat (length c))).
  rewrite HlenB; cbn [bind].
  rewrite Hg0; cbn [bind].
  exact Hrun.
Qed.

Lemma descriptor_block_too_large (hg : grid) (R C B : nat) (K S : Z) :
  grid_shape hg R C B -> (1 <= R)%nat ->
  (Z.of_nat R < K \/ Z.of_nat C < K)%Z ->
  create_descriptor hg K S = Raise AssertionError.
Proof.
  intros Hg HR1 Hbig.
  assert (HlenR : length hg = R) by apply Hg.
  destruct hg as [ | row hg' ]; [ cbn in HlenR; lia | ].
  destruct (grid_shape_row (row :: hg') R C B 0 Hg) as [HlenC _];
    [ lia | ].
  cbn [nth] in HlenC.
  unfold create_descriptor.
  change (len_at0 (row :: hg')) with (OK (Z.of_nat (length row))).
  rewrite HlenC, HlenR; cbn [bind].
  replace ((K <=? Z.of_nat R) && (K <=? Z.of_nat C))%Z with false;
    [ reflexivity | ].
  symmetry; rewrite andb_false_iff, !Z.leb_gt; lia.
Qed.

Lemma grid_Forall_slots (Q : list R -> Prop) (g : grid) (m n d : nat) :
  grid_shape g m n d ->
  (forall i j, (i < m)%nat -> (j < n)%nat -> Q (slot g i j)) ->
  Forall (Forall Q) g.
Proof.
  intros Hg H; assert (Hm : length g = m) by apply Hg.
  apply Forall_nth; intros i r0 Hi.
  rewrite (nth_indep g r0 [] Hi).
  destruct (grid_shape_row g m n d i Hg) as [Hn _]; [ lia | ].
  apply Forall_nth; intros j c0 Hj.
  rewrite (nth_indep _ c0 [] Hj).
  apply (H i j); lia.
Qed.

Lemma block_vector_Forall (P : R -> Prop) (hg : grid) (K S i j : Z) :
  Forall (Forall (Forall P)) hg -> Forall P (block_vector hg K S i j).
Proof.
  intros H; unfold block_vector, flatten, window.
  apply Forall_concat, Forall_concat.
  rewrite Forall_map; apply Forall_slice.
  eapply Forall_impl; [ | exact H ]; cbn.
  intros row Hrow; now apply Forall_slice.
Qed.

Lemma norm_3_4 : norm [3; 4] = 5.
Proof.
  unfold norm; cbn [dot].
  replace (3 * 3 + (4 * 4 + 0)) with (5 * 5) by ring.
  apply sqrt_square; lra.
Qed.

Lemma grid34_shape : grid_shape grid34 1 1 2.
Proof. unfold grid_shape, grid34; cbn; repeat constructor. Qed.

(** C6, as stated, fails: the output entry is not the flattened window but
    the flattened window divided by its norm.  On the one-cell grid with
    histogram [3; 4] (block size 1, step 1) the window flattens to [3; 4]
    and the output entry is [3/5; 4/5]. *)
Lemma block_entry_is_normalized :
  exists out,
    create_descriptor grid34 1 1 = OK out
    /\ block_vector grid34 1 1 0 0 = [3; 4]
    /\ slot out 0 0 = [3 / 5; 4 / 5]
    /\ slot out 0 0 <> block_vector grid34 1 1 0 0.
Proof.
  destruct (descriptor_blocks grid34 1 1 2 1 1 grid34_shape)
    as [out [Hrun [_ Hslots]]]; try (cbn; lia).
  assert (Hb : block_vector grid34 1 1 0 0 = [3; 4]) by reflexivity.
  assert (Hs : slot out 0 0 = [3 / 5; 4 / 5]).
  { rewrite (Hslots 0%nat 0%nat) by (cbv; lia).
    change (Z.of_nat 0) with 0%Z; rewrite Hb.
    unfold normalize; rewrite norm_3_4.
    destruct (Req_dec_T 5 0); [ lra | reflexivity ]. }
  exists out; repeat split; try assumption.
  rewrite Hs, Hb; intros H; inversion H; lra.
Qed.

(** C6, amended.  For every R x C x B histogram grid (R at least 1), block
    size K at least 1 and step S at least 1, [create_descriptor] fails with
    the assertion error when K exceeds R or C, and otherwise returns a grid
    of shape floor((R-(K-1))/S) x floor((C-(K-1))/S) x B*K^2 whose entry
    [(i, j)] is the flattened K x K window that starts at cell
    [(i*S, j*S)], divided by its Euclidean norm (left unchanged when the
    norm is 0); the window is flattened by rows of cells, then by cells of
    a row, then by bins: position [(a*K + b)*B + c] of the flattened window
    holds bin [c] of cell [(i*S + a, j*S + b)]. *)
Theorem descriptor_shape_and_layout (hg : grid) (R C B : nat) (K S : Z) :
  grid_shape hg R C B -> (1 <= R)%nat -> (1 <= K)%Z -> (1 <= S)%Z ->
  ((Z.of_nat R < K \/ Z.of_nat C < K)%Z ->
   create_descriptor hg K S = Raise AssertionError)
  /\ ((K <= Z.of_nat R)%Z -> (K <= Z.of_nat C)%Z ->
      exists out,
        create_descriptor hg K S = OK out
        /\ grid_shape out
                      (Z.to_nat ((Z.of_nat R - (K - 1)) / S))
                      (Z.to_nat ((Z.of_nat C - (K - 1)) / S))
                      (Z.to_nat (Z.of_nat B * K ^ 2))
        /\ forall i j,
            (i < Z.to_nat ((Z.of_nat R - (K - 1)) / S))%nat ->
            (j < Z.to_nat ((Z.of_nat C - (K - 1)) / S))%nat ->
            slot out i j
            = normalize (block_vector hg K S (Z.of_nat i) (Z.of_nat j))
            /\ length (block_vector hg K S (Z.of_nat i) (Z.of_nat j))
               = Z.to_nat (Z.of_nat B * K ^ 2)
            /\ forall a b c,
                (a < Z.to_nat K)%nat -> (b < Z.to_nat K)%nat ->
                (c < B)%nat ->
                nth ((a * Z.to_nat K + b) * B + c)
                    (block_vector hg K S (Z.of_nat i) (Z.of_nat j)) 0
                = nth c (slot hg (i * Z.to_nat S + a)
                                 (j * Z.to_nat S + b)) 0).
Proof.
  intros Hg HR1 HK HS; split.
  - intros Hbig; now apply (descriptor_block_too_large hg R C B).
  - intros HR HC.
    destruct (descriptor_blocks hg R C B K S Hg HK HS HR HC)
      as [out [Hrun [Hout Hslots]]].
    exists out; split; [ exact Hrun | split; [ exact Hout | ] ].
    intros i j Hi Hj.
    split; [ now apply Hslots | ].
    split; [ apply (block_vector_length hg R C B); auto; lia | ].
    intros a b c Ha Hb Hc.
    destruct (block_fits (Z.of_nat R) K S (Z.of_nat i)) as [Hi0 Hi1];
      try lia.
    destruct (block_fits (Z.of_nat C) K S (Z.of_nat j)) as [Hj0 Hj1];
      try lia.
    unfold block_vector.
    rewrite (flatten_nth _ (Z.to_nat K) (Z.to_nat K) B)
      by (try apply (window_shape hg R C B); auto; lia).
    rewrite (window_slot hg R C B) by (auto; lia).
    rewrite !Z2Nat.inj_mul, !Nat2Z.id by lia.
    reflexivity.
Qed.

Lemma descriptor_shape_and_layout_witness :
  grid_shape grid34 1 1 2 /\ (1 <= 1)%nat /\ (1 <= 1)%Z
  /\ exists out,
      create_descriptor grid34 1 1 = OK out
      /\ grid_shape out 1 1 2.
Proof.
  assert (HR : (1 <= 1)%nat) by lia.
  assert (HK : (1 <= 1)%Z) by lia.
  split; [ exact grid34_shape | split; [ exact HR | split; [ exact HK | ] ] ].
  destruct (proj2 (descriptor_shape_and_layout grid34 1 1 2 1 1
                     grid34_shape HR HK HK))
    as [out [Hrun [Hout _]]]; try (cbn; lia).
  exists out; split; [ exact Hrun | exact Hout ].
Defined.

(** C5.  On a well-formed grid with a block that fits, every output row of
    [create_descriptor] that is not all zero has Euclidean norm 1, and a
    block whose gathered window is all zero yields that all-zero vector
    unchanged: the call returns, the zero norm is no error. *)
Theorem block_rows_unit_norm (hg : grid) (R C B : nat) (K S : Z) :
  grid_shape hg R C B -> (1 <= K)%Z -> (1 <= S)%Z ->
  (K <= Z.of_nat R)%Z -> (K <= Z.of_nat C)%Z ->
  exists out,
    create_descriptor hg K S = OK out
    /\ forall i j,
        (i < Z.to_nat ((Z.of_nat R - (K - 1)) / S))%nat ->
        (j < Z.to_nat ((Z.of_nat C - (K - 1)) / S))%nat ->
        (~ all_zero (slot out i j) -> norm (slot out i j) = 1)
        /\ (all_zero (block_vector hg K S (Z.of_nat i) (Z.of_nat j)) ->
            slot out i j
            = block_vector hg K S (Z.of_nat i) (Z.of_nat j)
            /\ all_zero (slot out i j)).
Proof.
  intros Hg HK HS HR HC.
  destruct (descriptor_blocks hg R C B K S Hg HK HS HR HC)
    as [out [Hrun [_ Hslots]]].
  exists out; split; [ exact Hrun | ].
  intros i j Hi Hj; rewrite (Hslots i j Hi Hj); split.
  - apply normalize_cases.
  - intros Hz; rewrite normalize_zero by exact Hz; split;
      [ reflexivity | exact Hz ].
Qed.

Lemma grid22_shape : grid_shape grid22 2 2 2.
Proof. unfold grid_shape, grid22; cbn; repeat constructor. Qed.

Lemma block_rows_unit_norm_witness :
  grid_shape grid22 2 2 2 /\ (1 <= 2)%Z /\ (1 <= 1)%Z
  /\ (2 <= Z.of_nat 2)%Z
  /\ exists out,
      create_descriptor grid22 2 1 = OK out
      /\ (~ all_zero (slot out 0 0) -> norm (slot out 0 0) = 1).
Proof.
  assert (HK : (1 <= 2)%Z) by lia.
  assert (HS : (1 <= 1)%Z) by lia.
  assert (HR : (2 <= Z.of_nat 2)%Z) by (cbn; lia).
  split; [ exact grid22_shape | ].
  split; [ exact HK | split; [ exact HS | split; [ exact HR | ] ] ].
  destruct (block_rows_unit_norm grid22 2 2 2 2 1 grid22_shape HK HS HR HR)
    as [out [Hrun Hrows]].
  exists out; split; [ exact Hrun | ].
  apply (Hrows 0%nat 0%nat); cbv; lia.
Defined.

Lemma setitem2_Forall (P : R -> Prop) (g g' : grid) (i j : Z)
      (v : list R) :
  Forall (Forall (Forall P)) g -> Forall P v ->
  setitem2 g i j v = OK g' -> Forall (Forall (Forall P)) g'.
Proof.
  intros Hg Hv H; unfold setitem2 in H.
  inv_bind H; rename a into i'; inv_bind H; rename a into j'.
  pose proof (index_bound _ _ _ Ha) as Hi.
  assert (Hrow : Forall (Forall P) (nth i' g [])).
  { rewrite Forall_forall in Hg; apply Hg, nth_In, Hi. }
  destruct (length v =? _)%nat.
  - inversion H; subst g'.
    apply set_nth_Forall; [ | exact Hg ].
    now apply set_nth_Forall.
  - destruct (length v =? 1)%nat eqn:E1; inversion H; subst g'.
    apply set_nth_Forall; [ | exact Hg ].
    apply set_nth_Forall; [ | exact Hrow ].
    apply Forall_forall; intros x Hx; apply repeat_spec in Hx; subst x.
    destruct v as [ | x v ]; [ discriminate E1 | ].
    now inversion Hv.
Qed.

Lemma descriptor_entries_bounded (hg : grid) (K S : Z) (out : grid) :
  Forall (Forall (Forall (fun x => 0 <= x))) hg ->
  create_descriptor hg K S = OK out ->
  Forall (Forall (Forall (fun x => 0 <= x <= 1))) out.
Proof.
  intros Hpos H; unfold create_descriptor in H.
  inv_bind H; inv_bind H; inv_bind H; inv_bind H; inv_bind H.
  inv_bind H; rename a4 into g0.
  apply np_zeros3_shape in Ha4; destruct Ha4 as [_ Hzero].
  refine (for_inv (fun g => Forall (Forall (Forall (fun x => 0 <= x <= 1))) g)
                  _ _ _ _ _ _ H).
  - intros i g g' _ Hg Hi.
    refine (for_inv
              (fun g => Forall (Forall (Forall (fun x => 0 <= x <= 1))) g)
              _ _ _ _ _ Hg Hi).
    intros j g1 g2 _ Hg1 Hstep; unfold block_step in Hstep.
    eapply setitem2_Forall; [ exact Hg1 | | exact Hstep ].
    now apply normalize_bounds, block_vector_Forall.
  - eapply Forall_impl; [ | exact Hzero ]; cbn; intros row Hrow.
    eapply Forall_impl; [ | exact Hrow ]; cbn; intros c Hc.
    eapply Forall_impl; [ | exact Hc ]; cbn; intros x ->; lra.
Qed.

(** C10.  For every histogram grid whose entries are all non-negative,
    every entry of a grid returned by [create_descriptor] lies in [0, 1];
    and the call does return on a well-formed grid with block size and
    step at least 1 and a block that fits. *)
Theorem descriptor_entries_unit_interval (hg : grid) (K S : Z) :
  Forall (Forall (Forall (fun x => 0 <= x))) hg ->
  (forall out,
      create_descriptor hg K S = OK out ->
      Forall (Forall (Forall (fun x => 0 <= x <= 1))) out)
  /\ (forall R C B : nat,
         grid_shape hg R C B -> (1 <= K)%Z -> (1 <= S)%Z ->
         (K <= Z.of_nat R)%Z -> (K <= Z.of_nat C)%Z ->
         exists out,
           create_descriptor hg K S = OK out
           /\ Forall (Forall (Forall (fun x => 0 <= x <= 1))) out).
Proof.
  intros Hpos; split.
  - intros out; now apply descriptor_entries_bounded.
  - intros R C B Hg HK HS HR HC.
    destruct (descriptor_blocks hg R C B K S Hg HK HS HR HC)
      as [out [Hrun _]].
    exists out; split; [ exact Hrun | ].
    now apply (descriptor_entries_bounded hg K S).
Qed.

Lemma grid22_nonneg : Forall (Forall (Forall (fun x => 0 <= x))) grid22.
Proof. unfold grid22; repeat constructor; lra. Qed.

Lemma descriptor_entries_unit_interval_witness :
  Forall (Forall (Forall (fun x => 0 <= x))) grid22
  /\ exists out,
      create_descriptor grid22 2 1 = OK out
      /\ Forall (Forall (Forall (fun x => 0 <= x <= 1))) out.
Proof.
  assert (HK : (1 <= 2)%Z) by lia.
  assert (HS : (1 <= 1)%Z) by lia.
  assert (HR : (2 <= Z.of_nat 2)%Z) by (cbn; lia).
  split; [ exact grid22_nonneg | ].
  exact (proj2 (descriptor_entries_unit_interval grid22 2 1 grid22_nonneg)
               2%nat 2%nat 2%nat grid22_shape HK HS HR HR).
Defined.

(** ** Stage 3 again: the grid of a square image *)

Lemma cell_step_eq (O G : matrix) (cs : Z) (nb : nat) (i j : Z)
      (st : grid * option (list R)) :
  samedims O G ->
  cell_step (Arr2 O) (Arr2 G) cs nb i j st
  = (g <- setitem2 (fst st) i j (cell_histogram O G cs nb i j) ;;
     OK (g, Some (bin_edges nb))).
Proof.
  intros Hs; unfold cell_step; cbn [getslice2 bind].
  fold (cell_of O cs i j); fold (cell_of G cs i j).
  now rewrite create_histogram_cell by assumption.
Qed.

(** The loops of [create_image_histograms] carry the variable [bin_ticks]
    next to the grid; the grid alone evolves by item assignments. *)
Lemma for_cell_steps (O G : matrix) (cs : Z) (nb : nat) (i : Z)
      (l : list Z) (g g' : grid) (t : option (list R)) :
  samedims O G ->
  for_ l (fun j bg => setitem2 bg i j (cell_histogram O G cs nb i j)) g
  = OK g' ->
  for_ l (cell_step (Arr2 O) (Arr2 G) cs nb i) (g, t)
  = OK (g', match l with [] => t | _ :: _ => Some (bin_edges nb) end).
Proof.
  intros Hs; revert g t; induction l as [ | j l IH ]; intros g t H;
    cbn [for_] in *.
  - now inversion H.
  - inv_bind H; rewrite cell_step_eq by assumption; cbn [fst].
    rewrite Ha; cbn [bind].
    rewrite (IH a (Some (bin_edges nb)) H).
    destruct l; reflexivity.
Qed.

Lemma for_cell_rows (O G : matrix) (cs : Z) (nb : nat) (li lj : list Z)
      (g g' : grid) (t : option (list R)) :
  samedims O G ->
  for_ li (fun i =>
             for_ lj (fun j bg =>
                        setitem2 bg i j (cell_histogram O G cs nb i j))) g
  = OK g' ->
  exists t',
    for_ li (fun i => for_ lj (cell_step (Arr2 O) (Arr2 G) cs nb i)) (g, t)
    = OK (g', t')
    /\ (li <> [] -> lj <> [] -> t' = Some (bin_edges nb))
    /\ (t = Some (bin_edges nb) -> t' = Some (bin_edges nb)).
Proof.
  intros Hs; revert g t; induction li as [ | i li IH ]; intros g t H;
    cbn [for_] in *.
  - inversion H; subst; exists t; split; [ reflexivity | ].
    split; [ intros Hne; now contradiction Hne | auto ].
  - inv_bind H.
    rewrite (for_cell_steps O G cs nb i lj g a t Hs Ha); cbn [bind].
    destruct (IH a (match lj with
                    | [] => t
                    | _ :: _ => Some (bin_edges nb)
                    end) H) as [t' [Hrun [_ Hkeep]]].
    exists t'; split; [ exact Hrun | split ].
    + intros _ Hlj; apply Hkeep; destruct lj; [ contradiction | reflexivity ].
    + intros Ht; apply Hkeep; destruct lj; [ exact Ht | reflexivity ].
Qed.

Lemma range_nonempty (n : Z) : (1 <= n)%Z -> Py.range n <> [].
Proof.
  intros Hn; unfold Py.range.
  destruct (Z.to_nat n) as [ | k ] eqn:E; [ lia | discriminate ].
Qed.

(** On a square aligned image the grid has one entry per cell and every
    entry is the histogram of its cell, all with the same edges. *)
Lemma histograms_square (img : matrix) (cs : Z) :
  (2 <= nrows img)%nat -> nrows img = ncols img -> (0 < cs)%Z ->
  (Z.of_nat (nrows img) mod cs = 0)%Z ->
  exists O G g,
    compute_magnitudes_and_orientations img = OK (Arr2 O, Arr2 G)
    /\ has_shape O (nrows img) (ncols img)
    /\ has_shape G (nrows img) (ncols img)
    /\ create_image_histograms img cs = OK (g, Some (bin_edges 8))
    /\ grid_shape g (Z.to_nat (Z.of_nat (nrows img) / cs))
                  (Z.to_nat (Z.of_nat (ncols img) / cs)) 8
    /\ forall i j,
        (i < Z.to_nat (Z.of_nat (nrows img) / cs))%nat ->
        (j < Z.to_nat (Z.of_nat (ncols img) / cs))%nat ->
        slot g i j = cell_histogram O G cs 8 (Z.of_nat i) (Z.of_nat j).
Proof.
  intros Hh Hsq Hcs HN.
  assert (Hw : (2 <= ncols img)%nat) by lia.
  destruct (magnitudes_and_orientations_2d img Hh Hw)
    as [O [G [Hc [HO HG]]]].
  pose proof (has_shape_samedims _ _ _ _ HO HG) as Hs.
  exists O, G.
  rewrite (histograms_aligned img cs _ _ Hc)
    by (rewrite <- ?Hsq; assumption || lia).
  rewrite <- Hsq; rewrite <- Hsq in HO, HG.
  set (q := (Z.of_nat (nrows img) / cs)%Z).
  assert (HNq : Z.of_nat (nrows img) = (cs * q)%Z)
    by (unfold q; apply Z.div_exact; lia).
  assert (Hq : (1 <= q)%Z) by nia.
  destruct (np_zeros3_ok q q 8) as [g0 Hg0]; try lia.
  rewrite Hg0; cbn [bind].
  apply np_zeros3_shape in Hg0; destruct Hg0 as [Hg0 _].
  change (Z.to_nat 8) with 8%nat in Hg0.
  destruct (fill_grid (fun i j => cell_histogram O G cs 8 i j)
                      (Z.to_nat q) (Z.to_nat q) 8 g0 Hg0)
    as [g [Hrun [Hg Hslots]]].
  { intros; apply cell_histogram_length. }
  rewrite !Z2Nat.id in Hrun by lia.
  destruct (for_cell_rows O G cs 8 _ _ g0 g None Hs Hrun)
    as [t' [Hrun' [Hsome _]]].
  rewrite (Hsome (range_nonempty q Hq) (range_nonempty q Hq)) in Hrun'.
  exists g.
  split; [ exact Hc | split; [ exact HO | split; [ exact HG | ] ] ].
  split; [ exact Hrun' | split; [ exact Hg | exact Hslots ] ].
Qed.

(** The cell at grid position [(i, j)] is the region of rows
    [i*cs .. (i+1)*cs - 1] and columns [j*cs .. (j+1)*cs - 1]. *)
Lemma cell_of_region (x : matrix) (h w : nat) (cs : Z) (i j : nat) :
  has_shape x h w -> (0 < cs)%Z ->
  ((Z.of_nat i + 1) * cs <= Z.of_nat h)%Z ->
  ((Z.of_nat j + 1) * cs <= Z.of_nat w)%Z ->
  has_shape (cell_of x cs (Z.of_nat i) (Z.of_nat j))
            (Z.to_nat cs) (Z.to_nat cs)
  /\ forall a b, (a < Z.to_nat cs)%nat -> (b < Z.to_nat cs)%nat ->
       nth b (nth a (cell_of x cs (Z.of_nat i) (Z.of_nat j)) []) 0
       = nth (j * Z.to_nat cs + b) (nth (i * Z.to_nat cs + a) x []) 0.
Proof.
  intros [Hh Hall] Hcs Hi Hj; unfold cell_of, nrows in *.
  replace ((Z.of_nat i + 1) * cs)%Z with (Z.of_nat i * cs + cs)%Z in * by ring.
  replace ((Z.of_nat j + 1) * cs)%Z with (Z.of_nat j * cs + cs)%Z in * by ring.
  assert (Hi0 : (0 <= Z.of_nat i * cs)%Z) by nia.
  assert (Hj0 : (0 <= Z.of_nat j * cs)%Z) by nia.
  split.
  - split.
    + unfold nrows; rewrite length_map, slice_fit_length; lia.
    + rewrite Forall_map; apply Forall_slice.
      eapply Forall_impl; [ | exact Hall ]; cbn; intros r Hr.
      rewrite slice_fit_length; lia.
  - intros a b Ha Hb.
    rewrite (nth_indep
               (map (Py.slice (Z.of_nat j * cs) (Z.of_nat j * cs + cs))
                    (Py.slice (Z.of_nat i * cs) (Z.of_nat i * cs + cs) x))
               [] (Py.slice (Z.of_nat j * cs) (Z.of_nat j * cs + cs) []))
      by (rewrite length_map, slice_fit_length; lia).
    rewrite map_nth, (slice_fit_nth (Z.of_nat i * cs) cs x) by lia.
    assert (Hlen : length (nth (Z.to_nat (Z.of_nat i * cs) + a) x []) = w).
    { rewrite Forall_forall in Hall; apply Hall, nth_In; nia. }
    rewrite slice_fit_nth by lia.
    rewrite !Z2Nat.inj_mul, !Nat2Z.id by lia.
    reflexivity.
Qed.

(** ** Stage 3 again: the content of every bin *)

Lemma diff_nth (l : list R) (k : nat) :
  (S k < length l)%nat -> nth k (diff l) 0 = nth (S k) l 0 - nth k l 0.
Proof.
  revert k; induction l as [ | a [ | b t ] IH ]; intros k Hk;
    cbn [length] in Hk; try lia.
  rewrite diff_cons2.
  destruct k as [ | k ]; [ reflexivity | ].
  cbn [nth]; apply IH; cbn [length]; lia.
Qed.

Lemma cum_weights_nth_below (a w l : list R) (x : R) (k : nat) :
  (k < length l)%nat ->
  nth k (cum_weights a w (l ++ [x])) 0
  = wsum (fun y => Rltb y (nth k (l ++ [x]) 0)) a w.
Proof.
  intros Hk; rewrite cum_weights_snoc.
  rewrite !app_nth1 by (rewrite ?length_map; lia).
  rewrite (nth_indep _ 0 (wsum (fun y => Rltb y 0) a w))
    by (rewrite length_map; lia).
  now rewrite (map_nth (fun e => wsum (fun y => Rltb y e) a w)).
Qed.

Lemma cum_weights_nth_last (a w l : list R) (x : R) :
  nth (length l) (cum_weights a w (l ++ [x])) 0
  = wsum (fun y => Rleb y x) a w.
Proof.
  rewrite cum_weights_snoc, app_nth2 by (rewrite length_map; lia).
  now rewrite length_map, Nat.sub_diag.
Qed.

Lemma wsum_half_open (lo hi : R) (a w : list R) :
  lo <= hi ->
  wsum (fun x => Rltb x hi) a w - wsum (fun x => Rltb x lo) a w
  = wsum (fun x => Rleb lo x && Rltb x hi) a w.
Proof.
  intros Hle; revert w; induction a as [ | x a IH ]; intros [ | c w ];
    cbn [wsum]; try ring.
  rewrite <- IH; unfold Rleb, Rltb.
  destruct (Rlt_dec x hi), (Rlt_dec x lo), (Rle_dec lo x);
    cbn [andb]; try ring; lra.
Qed.

Lemma wsum_nonneg (p : R -> bool) (a w : list R) :
  Forall (fun c => 0 <= c) w -> 0 <= wsum p a w.
Proof.
  intros Hw; revert a; induction Hw as [ | c w Hc _ IH ]; intros [ | x a ];
    cbn [wsum]; try lra.
  specialize (IH a); destruct (p x); lra.
Qed.

Lemma edge_step (B k : nat) :
  (1 <= B)%nat -> (k < B)%nat -> edge B k < edge B (S k).
Proof.
  intros HB Hk; unfold edge; rewrite !bin_edges_nth by lia.
  pose proof (INR_pos B HB) as Hpos; pose proof PI_RGT_0 as Hpi.
  rewrite S_INR.
  assert (0 < 2 * PI / INR B).
  { unfold Rdiv; apply Rmult_lt_0_compat; [ lra | ].
    now apply Rinv_0_lt_compat. }
  nra.
Qed.

Lemma edge_mono (B j k : nat) :
  (1 <= B)%nat -> (j <= k)%nat -> (k <= B)%nat -> edge B j <= edge B k.
Proof.
  intros HB Hjk Hk; induction Hjk as [ | k Hjk IH ]; [ lra | ].
  pose proof (edge_step B k HB ltac:(lia)).
  specialize (IH ltac:(lia)); lra.
Qed.

Lemma histogram_bin (a w : list R) (B k : nat) :
  (1 <= B)%nat -> (k < B)%nat ->
  nth k (diff (cum_weights a w (bin_edges B))) 0
  = wsum (in_bin B k) a w.
Proof.
  intros HB Hk.
  pose proof (edge_step B k HB Hk) as Hstep.
  assert (Hlen : length (cum_weights a w (bin_edges B)) = S B).
  { rewrite cum_weights_length by apply bin_edges_nonempty.
    rewrite bin_edges_length; lia. }
  rewrite diff_nth by lia.
  pose proof (bin_edges_length B) as HL.
  pose proof (app_removelast_last 0 (bin_edges_nonempty B)) as Hsplit.
  assert (Hrl : length (removelast (bin_edges B)) = B).
  { pose proof (f_equal (@length R) Hsplit) as E.
    rewrite length_app in E; cbn [length] in E; lia. }
  unfold in_bin, edge.
  destruct (Nat.eqb_spec (S k) B) as [HkB | HkB].
  - (* the last bin *)
    rewrite Hsplit at 1 2.
    replace (S k) with (length (removelast (bin_edges B))) at 1 by lia.
    rewrite cum_weights_nth_last, cum_weights_nth_below by lia.
    rewrite <- Hsplit.
    assert (Hlast : last (bin_edges B) 0 = nth (S k) (bin_edges B) 0).
    { rewrite Hsplit at 2.
      rewrite app_nth2 by lia.
      replace (S k - length (removelast (bin_edges B)))%nat with 0%nat
        by lia.
      reflexivity. }
    rewrite Hlast.
    apply wsum_between; unfold edge in Hstep; lra.
  - rewrite Hsplit at 1 2.
    rewrite !cum_weights_nth_below by lia.
    rewrite <- Hsplit.
    apply wsum_half_open; unfold edge in Hstep; lra.
Qed.

(** A rounded orientation is counted in at most one bin. *)
Lemma in_bin_unique (B j k : nat) (x : R) :
  (1 <= B)%nat -> (j < B)%nat -> (k < B)%nat ->
  in_bin B j x = true -> in_bin B k x = true -> j = k.
Proof.
  assert (Hlt : forall j k, (1 <= B)%nat -> (j < k)%nat -> (k < B)%nat ->
                            in_bin B j x = true -> in_bin B k x = true ->
                            False).
  { clear j k; intros j k HB Hjk Hk Hj Hk'.
    unfold in_bin in Hj, Hk'.
    apply andb_true_iff in Hj; destruct Hj as [_ Hj].
    apply andb_true_iff in Hk'; destruct Hk' as [Hk' _].
    destruct (Nat.eqb_spec (S j) B); [ lia | ].
    pose proof (edge_mono B (S j) k HB ltac:(lia) ltac:(lia)) as Hm.
    unfold Rltb in Hj; unfold Rleb in Hk'.
    destruct (Rlt_dec x (edge B (S j))); [ | discriminate ].
    destruct (Rle_dec (edge B k) x); [ lra | discriminate ]. }
  intros HB Hj Hk Hjx Hkx.
  destruct (Nat.lt_trichotomy j k) as [H | [H | H]]; [ | exact H | ].
  - exfalso; now apply (Hlt j k).
  - exfalso; now apply (Hlt k j).
Qed.


(** ** Stage 3 again: rounding to five decimal digits *)

(** [rint] returns a nearest integer, the even one at a tie. *)
Lemma rint_nearest (y : R) :
  exists n : Z,
    rint y = IZR n
    /\ Rabs (y - IZR n) <= 1 / 2
    /\ (Rabs (y - IZR n) = 1 / 2 -> Z.even n = true).
Proof.
  pose proof (base_fp y) as [Hlo Hhi].
  assert (Hy : y = IZR (Int_part y) + frac_part y)
    by (unfold frac_part; lra).
  unfold rint.
  destruct (Rlt_dec (frac_part y) (1 / 2)) as [Hd | Hd].
  - exists (Int_part y); split; [ reflexivity | ].
    rewrite Rabs_pos_eq by lra; split; [ lra | intros; lra ].
  - destruct (Rlt_dec (1 / 2) (frac_part y)) as [Hd' | Hd'].
    + exists (Int_part y + 1)%Z; split; [ reflexivity | ].
      rewrite plus_IZR, Rabs_left by lra; split; [ lra | intros; lra ].
    + destruct (Z.even (Int_part y)) eqn:Heven.
      * exists (Int_part y); split; [ reflexivity | ].
        rewrite Rabs_pos_eq by lra; split; [ lra | intros _; exact Heven ].
      * exists (Int_part y + 1)%Z; split; [ reflexivity | ].
        rewrite plus_IZR, Rabs_left by lra; split; [ lra | intros _ ].
        rewrite Z.add_1_r, Z.even_succ, <- Z.negb_even, Heven; reflexivity.
Qed.

Lemma around_rounded (d : nat) (x : R) : rounded d x (around d x).
Proof.
  destruct (rint_nearest (x * 10 ^ d)) as [n [Hn [Hc He]]].
  exists n; unfold around; rewrite Hn.
  split; [ reflexivity | split; assumption ].
Qed.

(** Two nearest integers of one number, each even if at a tie, are
    equal. *)
Lemma nearest_unique (t : R) (n n' : Z) :
  Rabs (t - IZR n) <= 1 / 2 ->
  (Rabs (t - IZR n) = 1 / 2 -> Z.even n = true) ->
  Rabs (t - IZR n') <= 1 / 2 ->
  (Rabs (t - IZR n') = 1 / 2 -> Z.even n' = true) ->
  n = n'.
Proof.
  intros Hc He Hc' He'.
  assert (Hb : - 1 / 2 <= t - IZR n <= 1 / 2)
    by (unfold Rabs in Hc; destruct (Rcase_abs (t - IZR n)); lra).
  assert (Hb' : - 1 / 2 <= t - IZR n' <= 1 / 2)
    by (unfold Rabs in Hc'; destruct (Rcase_abs (t - IZR n')); lra).
  assert (H1 : (n - n' <= 1)%Z) by (apply le_IZR; rewrite minus_IZR; lra).
  assert (H2 : (n' - n <= 1)%Z) by (apply le_IZR; rewrite minus_IZR; lra).
  destruct (Z.eq_dec n n') as [E | Hne]; [ exact E | exfalso ].
  assert (Hcase : (n' = n + 1 \/ n = n' + 1)%Z) by lia.
  destruct Hcase as [E | E]; subst.
  - rewrite plus_IZR in *.
    assert (Ht : t - IZR n = 1 / 2) by lra.
    assert (Ht' : t - (IZR n + 1) = - (1 / 2)) by lra.
    rewrite Ht, Rabs_pos_eq in He by lra.
    rewrite Ht', Rabs_Ropp, Rabs_pos_eq in He' by lra.
    specialize (He eq_refl); specialize (He' eq_refl).
    rewrite Z.add_1_r, Z.even_succ, <- Z.negb_even, He in He'; discriminate.
  - rewrite plus_IZR in *.
    assert (Ht : t - IZR n' = 1 / 2) by lra.
    assert (Ht' : t - (IZR n' + 1) = - (1 / 2)) by lra.
    rewrite Ht, Rabs_pos_eq in He' by lra.
    rewrite Ht', Rabs_Ropp, Rabs_pos_eq in He by lra.
    specialize (He eq_refl); specialize (He' eq_refl).
    rewrite Z.add_1_r, Z.even_succ, <- Z.negb_even, He' in He; discriminate.
Qed.

(** A number has one rounded value only. *)
Lemma rounded_unique (d : nat) (x y y' : R) :
  rounded d x y -> rounded d x y' -> y = y'.
Proof.
  intros [n [Hy [Hc He]]] [n' [Hy' [Hc' He']]].
  rewrite Hy, Hy'; do 2 f_equal.
  now apply (nearest_unique (x * 10 ^ d)).
Qed.

Lemma rounded_around (d : nat) (x y : R) : rounded d x y -> y = around d x.
Proof.
  intros H; apply (rounded_unique d x); [ exact H | apply around_rounded ].
Qed.

Lemma Forall2_around (d : nat) (xs : list R) :
  Forall2 (rounded d) xs (map (around d) xs).
Proof.
  induction xs as [ | x xs IH ]; cbn; constructor;
    [ apply around_rounded | exact IH ].
Qed.

Lemma Forall2_rounded (d : nat) (xs ys : list R) :
  Forall2 (rounded d) xs ys -> ys = map (around d) xs.
Proof.
  induction 1 as [ | x y xs ys Hxy _ IH ]; cbn; [ reflexivity | ].
  now rewrite (rounded_around d x y Hxy), IH.
Qed.

(** The bins of a cell in terms of the rounded orientations. *)
Lemma histogram_of_rounded (a w : matrix) (B : nat) :
  (1 <= B)%nat ->
  exists vals,
    Forall2 (rounded 5) (concat a) vals
    /\ (forall vals', Forall2 (rounded 5) (concat a) vals' -> vals' = vals)
    /\ forall k, (k < B)%nat ->
         nth k (diff (cum_weights (concat (map (map (around 5)) a))
                                  (concat w) (bin_edges B))) 0
         = wsum (in_bin B k) vals (concat w).
Proof.
  intros HB; exists (map (around 5) (concat a)).
  split; [ apply Forall2_around | split ].
  - intros vals' H; now apply Forall2_rounded.
  - intros k Hk; rewrite histogram_bin by assumption.
    now rewrite concat_map.
Qed.

(** *** An orientation that rounding moves into the next bin *)

Lemma PI_digits : 3141592 / 1000000 < PI < 31416 / 10000.
Proof.
  pose proof (PI_2_3_7_ineq 3) as [Hlo Hhi].
  unfold sum_f_R0, tg_alt, PI_2_3_7_tg, Ratan_seq in Hlo, Hhi.
  cbn [Nat.mul Nat.add INR pow] in Hlo, Hhi.
  split; lra.
Qed.

Lemma around5_near_edge : around 5 (392699 / 1000000) = 3927 / 10000.
Proof.
  symmetry; apply rounded_around.
  exists 39270%Z; split; [ simpl; lra | ].
  replace (392699 / 1000000 * 10 ^ 5 - 39270) with (- (1 / 10))
    by (simpl; lra).
  rewrite Rabs_Ropp, Rabs_pos_eq by lra.
  split; [ lra | intros; lra ].
Qed.

Lemma edge8 (k : nat) :
  (k <= 8)%nat -> edge 8 k = - PI - PI / 8 + INR k * (PI / 4).
Proof.
  intros Hk; unfold edge; rewrite bin_edges_nth by exact Hk.
  simpl; field.
Qed.

(** The orientation 0.392699 lies just below the edge [pi/8] between bins
    4 and 5; rounded to five digits it is 0.3927, which lies above that
    edge, and the magnitude of the pixel is counted in bin 5. *)
Example rounding_moves_bin :
  in_bin 8 4 (392699 / 1000000) = true
  /\ in_bin 8 5 (around 5 (392699 / 1000000)) = true
  /\ exists h,
      create_histogram [[1]] [[392699 / 1000000]] 8 = OK (h, bin_edges 8)
      /\ nth 4 h 0 = 0 /\ nth 5 h 0 = 1.
Proof.
  pose proof PI_digits as [Hlo Hhi].
  assert (H4 : in_bin 8 4 (392699 / 1000000) = true).
  { unfold in_bin; rewrite !edge8 by lia.
    change (5 =? 8)%nat with false; cbv iota; unfold Rleb, Rltb.
    destruct (Rle_dec _ _) as [_ | H]; [ | exfalso; apply H; simpl; lra ].
    destruct (Rlt_dec _ _) as [_ | H]; [ reflexivity | ].
    exfalso; apply H; simpl; lra. }
  assert (H5 : in_bin 8 5 (around 5 (392699 / 1000000)) = true).
  { rewrite around5_near_edge.
    unfold in_bin; rewrite !edge8 by lia.
    change (6 =? 8)%nat with false; cbv iota; unfold Rleb, Rltb.
    destruct (Rle_dec _ _) as [_ | H]; [ | exfalso; apply H; simpl; lra ].
    destruct (Rlt_dec _ _) as [_ | H]; [ reflexivity | ].
    exfalso; apply H; simpl; lra. }
  split; [ exact H4 | split; [ exact H5 | ] ].
  rewrite create_histogram_eq by reflexivity.
  eexists; split; [ reflexivity | ].
  rewrite !histogram_bin by lia.
  cbn [map concat app wsum].
  rewrite H5.
  assert (H4' : in_bin 8 4 (around 5 (392699 / 1000000)) = false).
  { destruct (in_bin 8 4 (around 5 (392699 / 1000000))) eqn:E;
      [ | reflexivity ].
    pose proof (in_bin_unique 8 4 5 _ ltac:(lia) ltac:(lia) ltac:(lia) E H5).
    lia. }
  rewrite H4'; split; ring.
Qed.

(** ** Stage 3 again: the edges and the rounding, cell by cell *)

(** C7.  For a positive bin count [B] the edges used by [create_histogram]
    are the [B + 1] values [-pi - pi/8 + k * (2 pi / B)], [k = 0 .. B],
    from [-pi - pi/8] to [pi - pi/8].  Every orientation is rounded to five
    decimal digits before it is binned: with [vals] the orientations of the
    cell each replaced by the multiple of [10^-5] nearest to it (the even
    one at a tie), bin [k] of the histogram is the total magnitude of the
    pixels whose value in [vals] lies between edge [k] and edge [k + 1].
    The edges depend on the bin count only: every step of the loop of
    [create_image_histograms] leaves the edges of its bins in [bin_ticks],
    a call returns the edges of 8 bins (or [None] when the loop never ran),
    and on a square aligned image every cell [(i, j)] of the returned grid
    is binned, after the same rounding, over these same edges. *)
Theorem bin_edges_evenly_spaced (B : nat) (mags oris img : matrix) (cs : Z)
        (i j : nat) :
  (1 <= B)%nat ->
  nrows oris = nrows mags -> ncols oris = ncols mags ->
  (2 <= nrows img)%nat -> nrows img = ncols img -> (0 < cs)%Z ->
  (Z.of_nat (nrows img) mod cs = 0)%Z ->
  (i < Z.to_nat (Z.of_nat (nrows img) / cs))%nat ->
  (j < Z.to_nat (Z.of_nat (ncols img) / cs))%nat ->
  length (bin_edges B) = (B + 1)%nat
  /\ (forall k, (k <= B)%nat ->
        nth k (bin_edges B) 0 = - PI - PI / 8 + INR k * (2 * PI / INR B))
  /\ nth 0 (bin_edges B) 0 = - PI - PI / 8
  /\ nth B (bin_edges B) 0 = PI - PI / 8
  /\ (exists h vals,
        create_histogram mags oris B = OK (h, bin_edges B)
        /\ length h = B
        /\ Forall2 (rounded 5) (concat oris) vals
        /\ (forall vals', Forall2 (rounded 5) (concat oris) vals' ->
                          vals' = vals)
        /\ forall k, (k < B)%nat ->
             nth k h 0 = wsum (in_bin B k) vals (concat mags))
  /\ (forall (ori mag : ndarray) (c a b : Z) (st st' : grid * option (list R)),
        cell_step ori mag c B a b st = OK st' ->
        snd st' = Some (bin_edges B))
  /\ (forall (x : matrix) (c : Z) (g : grid) (t : option (list R)),
        create_image_histograms x c = OK (g, t) ->
        t = None \/ t = Some (bin_edges 8))
  /\ exists O G g vals,
      compute_magnitudes_and_orientations img = OK (Arr2 O, Arr2 G)
      /\ create_image_histograms img cs = OK (g, Some (bin_edges 8))
      /\ Forall2 (rounded 5)
                 (concat (cell_of O cs (Z.of_nat i) (Z.of_nat j))) vals
      /\ forall k, (k < 8)%nat ->
           nth k (slot g i j) 0
           = wsum (in_bin 8 k) vals
                  (concat (cell_of G cs (Z.of_nat i) (Z.of_nat j))).
Proof.
  intros HB Hr Hc Hh Hsq Hcs HN Hi Hj.
  split; [ apply bin_edges_length | ].
  split; [ intros k Hk; now apply bin_edges_nth | ].
  split; [ rewrite bin_edges_nth by lia; cbn; ring | ].
  split; [ now apply bin_edges_last | ].
  split; [ | split; [ | split ] ].
  - destruct (histogram_of_rounded oris mags B HB)
      as [vals [Hvals [Huniq Hbins]]].
    rewrite create_histogram_eq by assumption.
    eexists; exists vals; split; [ reflexivity | ].
    split; [ | split; [ exact Hvals | split; [ exact Huniq | exact Hbins ] ] ].
    rewrite diff_length, cum_weights_length by apply bin_edges_nonempty.
    rewrite bin_edges_length; lia.
  - intros ori mag c a b st st' Hstep; eapply cell_step_ticks; eauto.
  - apply histograms_ticks.
  - destruct (histograms_square img cs Hh Hsq Hcs HN)
      as [O [G [g [Hrun0 [_ [_ [Hrun [_ Hslots]]]]]]]].
    destruct (histogram_of_rounded
                (cell_of O cs (Z.of_nat i) (Z.of_nat j))
                (cell_of G cs (Z.of_nat i) (Z.of_nat j)) 8 ltac:(lia))
      as [vals [Hvals [_ Hbins]]].
    exists O, G, g, vals.
    split; [ exact Hrun0 | split; [ exact Hrun | split; [ exact Hvals | ] ] ].
    intros k Hk; rewrite (Hslots i j Hi Hj).
    now apply Hbins.
Qed.

(** With 8 bins, on the one-pixel cell of a gradient along the negative x
    axis and on the 3x3 image with a vertical edge cut into cells of one
    pixel: edge 4, the last edge, and bin 4 of the cell in row 1, column 2
    of the grid. *)
Lemma bin_edges_evenly_spaced_witness :
  (1 <= 8)%nat
  /\ nrows west_cell_orientations = nrows west_cell_magnitudes
  /\ ncols west_cell_orientations = ncols west_cell_magnitudes
  /\ (2 <= nrows edge3)%nat /\ nrows edge3 = ncols edge3 /\ (0 < 1)%Z
  /\ (Z.of_nat (nrows edge3) mod 1 = 0)%Z
  /\ (1 < Z.to_nat (Z.of_nat (nrows edge3) / 1))%nat
  /\ (2 < Z.to_nat (Z.of_nat (ncols edge3) / 1))%nat
  /\ nth 4 (bin_edges 8) 0 = - PI - PI / 8 + INR 4 * (2 * PI / INR 8)
  /\ nth 8 (bin_edges 8) 0 = PI - PI / 8
  /\ (exists h vals,
        create_histogram west_cell_magnitudes west_cell_orientations 8
        = OK (h, bin_edges 8)
        /\ Forall2 (rounded 5) (concat west_cell_orientations) vals
        /\ nth 7 h 0 = wsum (in_bin 8 7) vals (concat west_cell_magnitudes))
  /\ exists O G g vals,
      compute_magnitudes_and_orientations edge3 = OK (Arr2 O, Arr2 G)
      /\ create_image_histograms edge3 1 = OK (g, Some (bin_edges 8))
      /\ (Some (bin_edges 8) = None
          \/ Some (bin_edges 8) = Some (bin_edges 8))
      /\ Forall2 (rounded 5)
                 (concat (cell_of O 1 (Z.of_nat 1) (Z.of_nat 2))) vals
      /\ nth 4 (slot g 1 2) 0
         = wsum (in_bin 8 4) vals
                (concat (cell_of G 1 (Z.of_nat 1) (Z.of_nat 2))).
Proof.
  assert (HB : (1 <= 8)%nat) by lia.
  assert (Hh : (2 <= nrows edge3)%nat) by (unfold edge3; extent).
  assert (Hsq : nrows edge3 = ncols edge3) by reflexivity.
  assert (Hcs : (0 < 1)%Z) by lia.
  assert (HN : (Z.of_nat (nrows edge3) mod 1 = 0)%Z) by reflexivity.
  assert (Hi : (1 < Z.to_nat (Z.of_nat (nrows edge3) / 1))%nat)
    by (unfold edge3; cbn [nrows length Z.of_nat]; cbv; lia).
  assert (Hj : (2 < Z.to_nat (Z.of_nat (ncols edge3) / 1))%nat)
    by (unfold edge3; cbn [ncols hd length Z.of_nat]; cbv; lia).
  destruct (bin_edges_evenly_spaced 8 west_cell_magnitudes
              west_cell_orientations edge3 1 1 2
              HB eq_refl eq_refl Hh Hsq Hcs HN Hi Hj)
    as [_ [Hedges [_ [Hlast [Hcell [_ [Hticks Himg]]]]]]].
  destruct Hcell as [h [vals [Hrun [_ [Hvals [_ Hbins]]]]]].
  destruct Himg as [O [G [g [vals' [Hc [Hrun' [Hvals' Hbins']]]]]]].
  split; [ exact HB | split; [ reflexivity | split; [ reflexivity | ] ] ].
  split; [ exact Hh | split; [ exact Hsq | split; [ exact Hcs | ] ] ].
  split; [ exact HN | split; [ exact Hi | split; [ exact Hj | ] ] ].
  split; [ apply Hedges; lia | split; [ exact Hlast | split ] ].
  - exists h, vals; split; [ exact Hrun | split; [ exact Hvals | ] ].
    apply Hbins; lia.
  - exists O, G, g, vals'; split; [ exact Hc | split; [ exact Hrun' | ] ].
    split; [ exact (Hticks edge3 1%Z g _ Hrun') | ].
    split; [ exact Hvals' | apply Hbins'; lia ].
Defined.

(** ** Stage 3 again: the orientations above the last edge *)

Ltac entries :=
  repeat match goal with
         | |- _ :: _ = _ :: _ => f_equal
         | |- @eq R _ _ => ring
         end.

(** The gradients of the 4x4 image with a vertical edge.  In its last
    column the zero padding lies to the right of the bright half, so the
    gradient points along the negative x axis. *)
Lemma edge4_Ix :
  sobel_out SOBEL_X_KERNEL edge4
  = [[0; 765; 765; -765]; [0; 1020; 1020; -1020];
     [0; 1020; 1020; -1020]; [0; 765; 765; -765]].
Proof. cbn; entries. Qed.

Lemma edge4_Iy :
  sobel_out SOBEL_Y_KERNEL edge4
  = [[0; -255; -765; -765]; [0; 0; 0; 0];
     [0; 0; 0; 0]; [0; 255; 765; 765]].
Proof. cbn; entries. Qed.

Lemma arctan2_west_axis (x : R) : x < 0 -> arctan2 0 x = PI.
Proof.
  intros Hx; unfold arctan2.
  destruct (Rlt_dec 0 x) as [H | _]; [ lra | ].
  destruct (Rlt_dec x 0) as [_ | H]; [ | lra ].
  destruct (Rle_dec 0 0) as [_ | H]; [ | lra ].
  unfold Rdiv; rewrite Rmult_0_l, atan_0; ring.
Qed.

Lemma arctan2_east_axis (x : R) : 0 < x -> arctan2 0 x = 0.
Proof.
  intros Hx; unfold arctan2.
  destruct (Rlt_dec 0 x) as [_ | H]; [ | lra ].
  unfold Rdiv; rewrite Rmult_0_l; apply atan_0.
Qed.

Lemma arctan2_south_east (a : R) : 0 < a -> arctan2 (- a) a = - (PI / 4).
Proof.
  intros Ha; unfold arctan2.
  destruct (Rlt_dec 0 a) as [_ | H]; [ | lra ].
  replace (- a / a) with (Ropp 1) by (field; lra).
  now rewrite atan_opp, atan_1.
Qed.

Lemma arctan2_south_west (a : R) :
  0 < a -> arctan2 (- a) (- a) = - (3 * PI / 4).
Proof.
  intros Ha; unfold arctan2.
  destruct (Rlt_dec 0 (- a)) as [H | _]; [ lra | ].
  destruct (Rlt_dec (- a) 0) as [_ | H]; [ | lra ].
  destruct (Rle_dec 0 (- a)) as [H | _]; [ lra | ].
  replace (- a / - a) with 1 by (field; lra).
  rewrite atan_1; field.
Qed.

(** An orientation up to [3 pi / 4] is still between the outer edges after
    rounding. *)
Lemma rounded_inside (o : R) :
  - PI < o -> o <= 3 * PI / 4 -> in_edges (around 5 o) = true.
Proof.
  intros Hlo Hhi; pose proof (around5_close o); pose proof PI_gt_3.
  unfold in_edges; rewrite rounded_above_low_edge by exact Hlo.
  unfold Rleb; destruct (Rle_dec (around 5 o) (PI - PI / 8));
    [ reflexivity | lra ].
Qed.

(** The cell at grid position [(0, 1)] of a 4x4 array, cells of 2x2. *)
Lemma cell_0_1 (a00 a01 a02 a03 a10 a11 a12 a13 a20 a21 a22 a23
                a30 a31 a32 a33 : R) :
  cell_of [[a00; a01; a02; a03]; [a10; a11; a12; a13];
           [a20; a21; a22; a23]; [a30; a31; a32; a33]] 2 0 1
  = [[a02; a03]; [a12; a13]].
Proof. reflexivity. Qed.

Lemma edge4_arrays :
  compute_magnitudes_and_orientations edge4
  = OK (Arr2 (map2 (map2 arctan2) (sobel_out SOBEL_Y_KERNEL edge4)
                   (sobel_out SOBEL_X_KERNEL edge4)),
        Arr2 (map2 (map2 (fun x y => x ^ 2 + y ^ 2))
                   (sobel_out SOBEL_X_KERNEL edge4)
                   (sobel_out SOBEL_Y_KERNEL edge4))).
Proof.
  unfold compute_magnitudes_and_orientations.
  rewrite gradients_2d by (unfold edge4; extent); cbn [bind].
  rewrite arr_map2_map; reflexivity.
Qed.

Lemma edge4_cell_orientations :
  cell_of (map2 (map2 arctan2) (sobel_out SOBEL_Y_KERNEL edge4)
                (sobel_out SOBEL_X_KERNEL edge4)) 2 0 1
  = [[- (PI / 4); - (3 * PI / 4)]; [0; PI]].
Proof.
  rewrite edge4_Ix, edge4_Iy.
  cbn [map2 map combine fst snd]; rewrite cell_0_1.
  change (-765) with (Ropp 765); change (-1020) with (Ropp 1020).
  rewrite (arctan2_south_east 765), (arctan2_south_west 765) by lra.
  rewrite (arctan2_east_axis 1020) by lra.
  now rewrite (arctan2_west_axis (Ropp 1020)) by lra.
Qed.

Lemma edge4_cell_magnitudes :
  cell_of (map2 (map2 (fun x y => x ^ 2 + y ^ 2))
                (sobel_out SOBEL_X_KERNEL edge4)
                (sobel_out SOBEL_Y_KERNEL edge4)) 2 0 1
  = [[1170450; 1170450]; [1040400; 1040400]].
Proof.
  rewrite edge4_Ix, edge4_Iy.
  cbn [map2 map combine fst snd]; rewrite cell_0_1.
  entries.
Qed.

(** The right cell of the top row of the grid of [edge4]: the pixel in
    row 1 of the last column has the gradient [(-1020, 0)], the orientation
    [pi] and the magnitude [1020^2], and this magnitude is in no bin. *)
Lemma edge4_cell_sum :
  exists O G g,
    compute_magnitudes_and_orientations edge4 = OK (Arr2 O, Arr2 G)
    /\ create_image_histograms edge4 2 = OK (g, Some (bin_edges 8))
    /\ cell_of O 2 0 1 = [[- (PI / 4); - (3 * PI / 4)]; [0; PI]]
    /\ cell_of G 2 0 1 = [[1170450; 1170450]; [1040400; 1040400]]
    /\ Rsum (slot g 0 1) = 3381300
    /\ Rsum (concat (cell_of G 2 0 1)) = 4421700.
Proof.
  destruct (histograms_square edge4 2) as
      [O [G [g [Hc [_ [_ [Hrun [_ Hslots]]]]]]]];
    [ unfold edge4; extent | reflexivity | lia | reflexivity | ].
  pose proof edge4_arrays as Hc'.
  assert (HO : O = map2 (map2 arctan2) (sobel_out SOBEL_Y_KERNEL edge4)
                        (sobel_out SOBEL_X_KERNEL edge4)) by congruence.
  assert (HG : G = map2 (map2 (fun x y => x ^ 2 + y ^ 2))
                        (sobel_out SOBEL_X_KERNEL edge4)
                        (sobel_out SOBEL_Y_KERNEL edge4)) by congruence.
  subst O G; clear Hc'.
  do 2 eexists; exists g.
  split; [ exact Hc | split; [ exact Hrun | ] ].
  split; [ apply edge4_cell_orientations | ].
  split; [ apply edge4_cell_magnitudes | ].
  split.
  - rewrite (Hslots 0%nat 1%nat) by (cbv; lia).
    unfold cell_histogram.
    destruct (bin_edges_outer 8) as [l ->]; [ lia | ].
    pose proof PI_RGT_0.
    rewrite histogram_sum by lra.
    change (Z.of_nat 0) with 0%Z; change (Z.of_nat 1) with 1%Z.
    rewrite edge4_cell_orientations, edge4_cell_magnitudes.
    cbn [map concat app wsum].
    fold (in_edges (around 5 (- (PI / 4)))).
    fold (in_edges (around 5 (- (3 * PI / 4)))).
    fold (in_edges (around 5 0)).
    fold (in_edges (around 5 PI)).
    rewrite !rounded_inside by lra.
    rewrite rounded_pi_outside; ring.
  - rewrite edge4_cell_magnitudes; cbn; ring.
Qed.

(** C1 does not hold on the code.  The orientation [arctan2(0, -1) = pi]
    of a gradient along the negative x axis lies in (-pi, pi]; its rounded
    value is above the last edge [pi - pi/8], and [np.histogram] leaves the
    pixel out.  On the one-pixel cell with that gradient the bin weights
    add up to 0 while the magnitude of the cell is 1.  Through the whole
    pipeline, on the 4x4 image whose left half is 0 and right half 255,
    cells of 2x2: the cell at grid position [(0, 1)] has the orientations
    [-pi/4], [-3 pi/4], [0] and [pi]; its bin weights add up to 3381300
    while its magnitudes add up to 4421700, the difference being the
    magnitude [1020^2] of the pixel with orientation [pi]. *)
Theorem west_gradient_dropped :
  Forall (fun o => - PI < o <= PI) (concat west_cell_orientations)
  /\ (exists h,
        create_histogram west_cell_magnitudes west_cell_orientations 8
        = OK (h, bin_edges 8)
        /\ Rsum h = 0
        /\ Rsum (concat west_cell_magnitudes) = 1)
  /\ exists O G g,
      compute_magnitudes_and_orientations edge4 = OK (Arr2 O, Arr2 G)
      /\ create_image_histograms edge4 2 = OK (g, Some (bin_edges 8))
      /\ cell_of O 2 0 1 = [[- (PI / 4); - (3 * PI / 4)]; [0; PI]]
      /\ cell_of G 2 0 1 = [[1170450; 1170450]; [1040400; 1040400]]
      /\ Rsum (slot g 0 1) = 3381300
      /\ Rsum (concat (cell_of G 2 0 1)) = 4421700.
Proof.
  split; [ | split ].
  - cbn; constructor; [ apply arctan2_range | constructor ].
  - destruct (create_histogram_sum west_cell_magnitudes
                west_cell_orientations 8) as [h [Hh Hs]];
      [ lia | reflexivity | reflexivity | ].
    exists h; split; [ exact Hh | split ].
    + rewrite Hs; cbn [west_cell_orientations west_cell_magnitudes
                        concat app wsum].
      rewrite arctan2_west, rounded_pi_outside; ring.
    + cbn; ring.
  - exact edge4_cell_sum.
Qed.

(** * Further properties of the pipeline *)

(** ** The content of every bin *)

(** X1.  Bin [k] of the histogram of a cell is the total magnitude of the
    pixels whose rounded orientation lies in [[edge k, edge (k+1))], the
    upper edge included for the last bin only; a pixel is counted in at
    most one bin, and non-negative magnitudes give non-negative bins. *)
Theorem histogram_bin_content (mags oris : matrix) (B : nat) :
  (1 <= B)%nat -> nrows oris = nrows mags -> ncols oris = ncols mags ->
  exists h,
    create_histogram mags oris B = OK (h, bin_edges B)
    /\ length h = B
    /\ (forall k, (k < B)%nat ->
          nth k h 0
          = wsum (fun o => in_bin B k (around 5 o))
                 (concat oris) (concat mags))
    /\ (forall j k x, (j < B)%nat -> (k < B)%nat ->
          in_bin B j x = true -> in_bin B k x = true -> j = k)
    /\ (Forall (fun c => 0 <= c) (concat mags) ->
        Forall (fun b => 0 <= b) h).
Proof.
  intros HB Hr Hc; rewrite create_histogram_eq by assumption.
  eexists; split; [ reflexivity | ].
  assert (Hlen : length (diff (cum_weights
                           (concat (map (map (around 5)) oris))
                           (concat mags) (bin_edges B))) = B).
  { rewrite diff_length, cum_weights_length by apply bin_edges_nonempty.
    rewrite bin_edges_length; lia. }
  assert (Hbin : forall k, (k < B)%nat ->
            nth k (diff (cum_weights
                           (concat (map (map (around 5)) oris))
                           (concat mags) (bin_edges B))) 0
            = wsum (fun o => in_bin B k (around 5 o))
                   (concat oris) (concat mags)).
  { intros k Hk; rewrite histogram_bin by assumption.
    now rewrite <- concat_map, wsum_map. }
  split; [ exact Hlen | split; [ exact Hbin | split ] ].
  - intros j k x Hj Hk; now apply in_bin_unique.
  - intros Hpos; apply Forall_nth; intros k d Hk.
    rewrite Hlen in Hk.
    rewrite (nth_indep _ d 0) by lia.
    rewrite Hbin by exact Hk.
    now apply wsum_nonneg.
Qed.

Lemma histogram_bin_content_witness :
  (1 <= 8)%nat
  /\ nrows west_cell_orientations = nrows west_cell_magnitudes
  /\ ncols west_cell_orientations = ncols west_cell_magnitudes
  /\ exists h,
      create_histogram west_cell_magnitudes west_cell_orientations 8
      = OK (h, bin_edges 8)
      /\ length h = 8%nat.
Proof.
  assert (HB : (1 <= 8)%nat) by lia.
  split; [ exact HB | split; [ reflexivity | split; [ reflexivity | ] ] ].
  destruct (histogram_bin_content west_cell_magnitudes
              west_cell_orientations 8 HB eq_refl eq_refl)
    as [h [Hh [Hlen _]]].
  exists h; split; [ exact Hh | exact Hlen ].
Defined.

(** ** Images with a single row or column *)

Lemma squeeze_thin (x : matrix) :
  nrows x = 1%nat \/ ncols x = 1%nat -> (ndim (squeeze x) < 2)%nat.
Proof.
  intros H; unfold squeeze.
  destruct (nrows x =? 1)%nat eqn:E1, (ncols x =? 1)%nat eqn:E2; cbn;
    try lia.
  apply Nat.eqb_neq in E1, E2; lia.
Qed.

Lemma arr_map2_ndim (f : R -> R -> R) (a b c : ndarray) :
  arr_map2 f a b = OK c -> ndim c = ndim a /\ ndim c = ndim b.
Proof. destruct a, b; cbn; intros H; inversion H; subst; auto. Qed.

Lemma getslice2_thin (x : ndarray) (r0 r1 c0 c1 : Z) :
  (ndim x < 2)%nat -> getslice2 x r0 r1 c0 c1 = Raise IndexError.
Proof. destruct x; cbn; intros H; try reflexivity; lia. Qed.

Lemma cell_step_thin (ori mag : ndarray) (cs : Z) (nb : nat) (i j : Z)
      (st : grid * option (list R)) :
  (ndim ori < 2)%nat -> cell_step ori mag cs nb i j st = Raise IndexError.
Proof.
  intros H; unfold cell_step; now rewrite getslice2_thin.
Qed.

Lemma range_cons (n : Z) :
  (1 <= n)%Z -> exists l, Py.range n = 0%Z :: l.
Proof.
  intros Hn; unfold Py.range.
  destruct (Z.to_nat n) as [ | k ] eqn:E; [ lia | ].
  cbn [seq map]; eauto.
Qed.

(** X2.  The gradient arrays of an image with a single row or a single
    column lose an axis in [torch.squeeze], and the two-index slices of
    [create_image_histograms] then fail: for such an image the call raises
    [IndexError] with cell size 1 and the assertion error with every larger
    cell size, so it never returns a grid. *)
Theorem thin_image_rejected (img : matrix) (cs : Z) :
  (1 <= nrows img)%nat -> (1 <= ncols img)%nat ->
  nrows img = 1%nat \/ ncols img = 1%nat ->
  (0 < cs)%Z ->
  exists Ix Iy,
    compute_image_gradients img = OK (Ix, Iy)
    /\ (ndim Ix < 2)%nat /\ (ndim Iy < 2)%nat
    /\ (cs = 1%Z -> create_image_histograms img cs = Raise IndexError)
    /\ (cs <> 1%Z -> create_image_histograms img cs = Raise AssertionError).
Proof.
  intros Hh Hw Hthin Hcs.
  destruct (magnitudes_and_orientations_ok img Hh Hw)
    as [Ix [Iy [ori [mag [Hg [Hc [Hmag Hori]]]]]]].
  exists Ix, Iy.
  assert (HIx : (ndim Ix < 2)%nat /\ (ndim Iy < 2)%nat).
  { rewrite gradients_ok in Hg by assumption.
    inversion Hg; subst Ix Iy; split; apply squeeze_thin;
      rewrite ?sobel_out_ncols by lia;
      try (destruct (sobel_out_shape SOBEL_X_KERNEL img) as [-> _]);
      try (destruct (sobel_out_shape SOBEL_Y_KERNEL img) as [-> _]);
      exact Hthin. }
  destruct HIx as [HIx HIy].
  split; [ exact Hg | split; [ exact HIx | split; [ exact HIy | ] ] ].
  assert (Hndim : (ndim ori < 2)%nat).
  { destruct (arr_map2_ndim _ _ _ _ Hori) as [-> _]; exact HIy. }
  split.
  - intros ->.
    rewrite (histograms_aligned img 1 ori mag Hc)
      by (try lia; apply Z.mod_1_r).
    rewrite !Z.div_1_r.
    destruct (np_zeros3_ok (Z.of_nat (ncols img)) (Z.of_nat (ncols img)) 8)
      as [g0 Hg0]; try lia.
    rewrite Hg0; cbn [bind].
    destruct (range_cons (Z.of_nat (ncols img))) as [l1 ->]; [ lia | ].
    destruct (range_cons (Z.of_nat (nrows img))) as [l2 ->]; [ lia | ].
    cbn [for_].
    now rewrite cell_step_thin.
  - intros Hne.
    apply (histograms_unaligned img cs ori mag Hc); [ lia | ].
    destruct Hthin as [H1 | H1]; rewrite H1;
      [ right | left ]; change (Z.of_nat 1) with 1%Z;
      rewrite Z.mod_1_l by lia; lia.
Qed.

Lemma thin_image_rejected_witness :
  (1 <= nrows row3)%nat /\ (1 <= ncols row3)%nat
  /\ (nrows row3 = 1%nat \/ ncols row3 = 1%nat) /\ (0 < 1)%Z
  /\ create_image_histograms row3 1 = Raise IndexError.
Proof.
  assert (Hh : (1 <= nrows row3)%nat) by (unfold row3; extent).
  assert (Hw : (1 <= ncols row3)%nat) by (unfold row3; extent).
  assert (Hthin : nrows row3 = 1%nat \/ ncols row3 = 1%nat)
    by (left; reflexivity).
  assert (Hcs : (0 < 1)%Z) by lia.
  split; [ exact Hh | split; [ exact Hw | ] ].
  split; [ exact Hthin | split; [ exact Hcs | ] ].
  destruct (thin_image_rejected row3 1 Hh Hw Hthin Hcs)
    as [Ix [Iy [_ [_ [_ [Hidx _]]]]]].
  exact (Hidx eq_refl).
Defined.

(** ** The gradients of a constant image *)

Lemma const_image_shape (h w : nat) (c : R) :
  (1 <= h)%nat ->
  nrows (const_image h w c) = h /\ ncols (const_image h w c) = w
  /\ rect (const_image h w c).
Proof.
  intros Hh.
  assert (Hc : ncols (const_image h w c) = w).
  { unfold const_image, ncols.
    destruct h as [ | h ]; [ lia | ]; cbn [repeat hd].
    apply repeat_length. }
  split; [ apply repeat_length | split; [ exact Hc | ] ].
  unfold rect; rewrite Hc.
  apply Forall_forall; intros r Hr; apply repeat_spec in Hr; subst.
  apply repeat_length.
Qed.

Lemma pix_const_in (h w : nat) (c : R) (i j : Z) :
  (1 <= h)%nat ->
  (0 <= i < Z.of_nat h)%Z -> (0 <= j < Z.of_nat w)%Z ->
  pix (const_image h w c) i j = c.
Proof.
  intros Hh Hi Hj; unfold pix.
  destruct (const_image_shape h w c Hh) as [-> [-> _]].
  replace (_ && _ && _ && _)%bool with true
    by (symmetry; rewrite !andb_true_iff; repeat split; lia).
  unfold const_image.
  rewrite (nth_indep _ [] (repeat c w)) by (rewrite repeat_length; lia).
  rewrite nth_repeat, (nth_indep _ 0 c) by (rewrite repeat_length; lia).
  apply nth_repeat.
Qed.

Lemma pix_const_out (h w : nat) (c : R) (i j : Z) :
  (1 <= h)%nat ->
  (i < 0 \/ Z.of_nat h <= i \/ j < 0 \/ Z.of_nat w <= j)%Z ->
  pix (const_image h w c) i j = 0.
Proof.
  intros Hh Hout; unfold pix.
  destruct (const_image_shape h w c Hh) as [-> [-> _]].
  replace (_ && _ && _ && _)%bool with false; [ reflexivity | ].
  symmetry; rewrite !andb_false_iff; lia.
Qed.

Ltac pix_const Hh :=
  repeat match goal with
         | |- context [pix (const_image ?h ?w ?c) ?i ?j] =>
             first [ rewrite (pix_const_in h w c i j Hh) by lia
                   | rewrite (pix_const_out h w c i j Hh) by lia ]
         end.

Lemma const_gradient (h w : nat) (c : R) (i j : nat) :
  (3 <= h)%nat -> (3 <= w)%nat -> (i < h)%nat -> (j < w)%nat ->
  let Ix := nth j (nth i (sobel_out SOBEL_X_KERNEL (const_image h w c)) [])
                0 in
  let Iy := nth j (nth i (sobel_out SOBEL_Y_KERNEL (const_image h w c)) [])
                0 in
  ((1 <= i < h - 1)%nat -> (1 <= j < w - 1)%nat -> Ix = 0 /\ Iy = 0)
  /\ ((1 <= i < h - 1)%nat -> j = 0%nat -> Ix = 4 * c /\ Iy = 0)
  /\ ((1 <= i < h - 1)%nat -> j = (w - 1)%nat -> Ix = - (4 * c) /\ Iy = 0)
  /\ (i = 0%nat -> (1 <= j < w - 1)%nat -> Ix = 0 /\ Iy = - (4 * c))
  /\ (i = (h - 1)%nat -> (1 <= j < w - 1)%nat -> Ix = 0 /\ Iy = 4 * c).
Proof.
  intros Hh Hw Hi Hj Ix Iy.
  assert (Hh1 : (1 <= h)%nat) by lia.
  destruct (const_image_shape h w c Hh1) as [Hr [Hc Hrect]].
  assert (HIx : Ix = correlate3 SOBEL_X_KERNEL (const_image h w c) i j)
    by (apply sobel_out_nth; rewrite ?Hr, ?Hc; assumption).
  assert (HIy : Iy = correlate3 SOBEL_Y_KERNEL (const_image h w c) i j)
    by (apply sobel_out_nth; rewrite ?Hr, ?Hc; assumption).
  rewrite HIx, HIy; unfold correlate3, SOBEL_X_KERNEL, SOBEL_Y_KERNEL.
  cbn [seq map Rsum fold_right nth Z.of_nat Pos.of_succ_nat Pos.succ].
  repeat split; intros; subst; pix_const Hh1; ring.
Qed.

(** X3.  On a constant image of at least 3x3 both gradients vanish at every
    interior pixel, but not on the border, where the kernel sees the zero
    padding: in the interior of the left and right columns [Ix] is [4 c]
    and [-4 c], in the interior of the top and bottom rows [Iy] is [-4 c]
    and [4 c]. *)
Theorem constant_image_gradients (h w : nat) (c : R) :
  (3 <= h)%nat -> (3 <= w)%nat ->
  exists Ix Iy,
    compute_image_gradients (const_image h w c) = OK (Arr2 Ix, Arr2 Iy)
    /\ forall i j, (i < h)%nat -> (j < w)%nat ->
         ((1 <= i < h - 1)%nat -> (1 <= j < w - 1)%nat ->
          nth j (nth i Ix []) 0 = 0 /\ nth j (nth i Iy []) 0 = 0)
         /\ ((1 <= i < h - 1)%nat -> j = 0%nat ->
             nth j (nth i Ix []) 0 = 4 * c /\ nth j (nth i Iy []) 0 = 0)
         /\ ((1 <= i < h - 1)%nat -> j = (w - 1)%nat ->
             nth j (nth i Ix []) 0 = - (4 * c)
             /\ nth j (nth i Iy []) 0 = 0)
         /\ (i = 0%nat -> (1 <= j < w - 1)%nat ->
             nth j (nth i Ix []) 0 = 0
             /\ nth j (nth i Iy []) 0 = - (4 * c))
         /\ (i = (h - 1)%nat -> (1 <= j < w - 1)%nat ->
             nth j (nth i Ix []) 0 = 0 /\ nth j (nth i Iy []) 0 = 4 * c).
Proof.
  intros Hh Hw.
  destruct (const_image_shape h w c ltac:(lia)) as [Hr [Hc _]].
  exists (sobel_out SOBEL_X_KERNEL (const_image h w c)),
         (sobel_out SOBEL_Y_KERNEL (const_image h w c)).
  split; [ apply gradients_2d; rewrite ?Hr, ?Hc; lia | ].
  intros i j Hi Hj; exact (const_gradient h w c i j Hh Hw Hi Hj).
Qed.

Lemma constant_image_gradients_witness :
  (3 <= 3)%nat
  /\ exists Ix Iy,
      compute_image_gradients (const_image 3 3 1) = OK (Arr2 Ix, Arr2 Iy)
      /\ nth 1 (nth 1 Ix []) 0 = 0 /\ nth 0 (nth 1 Ix []) 0 = 4 * 1.
Proof.
  assert (H3 : (3 <= 3)%nat) by lia.
  split; [ exact H3 | ].
  destruct (constant_image_gradients 3 3 1 H3 H3) as [Ix [Iy [Hrun Hall]]].
  exists Ix, Iy; split; [ exact Hrun | split ].
  - destruct (Hall 1%nat 1%nat ltac:(lia) ltac:(lia)) as [Hin _].
    apply Hin; lia.
  - destruct (Hall 1%nat 0%nat ltac:(lia) ltac:(lia)) as [_ [Hleft _]].
    apply Hleft; [ lia | reflexivity ].
Defined.

(** ** The grid of an image that is not square *)

Lemma fill_grid_part (F : Z -> Z -> list R) (m n n' d : nat) (g0 : grid) :
  grid_shape g0 m n d -> (n' <= n)%nat ->
  (forall i j, (i < m)%nat -> (j < n')%nat ->
               length (F (Z.of_nat i) (Z.of_nat j)) = d) ->
  exists g,
    for_ (Py.range (Z.of_nat m))
         (fun i => for_ (Py.range (Z.of_nat n'))
                        (fun j bg => setitem2 bg i j (F i j))) g0
    = OK g
    /\ grid_shape g m n d
    /\ (forall i j, (i < m)%nat -> (j < n')%nat ->
                    slot g i j = F (Z.of_nat i) (Z.of_nat j))
    /\ (forall i j, (n' <= j)%nat -> slot g i j = slot g0 i j).
Proof.
  intros Hg0 Hn HF.
  destruct (for_range
              (fun k g =>
                 grid_shape g m n d
                 /\ (forall i j, (i < k)%nat -> (j < n')%nat ->
                                 slot g i j = F (Z.of_nat i) (Z.of_nat j))
                 /\ (forall i j, (n' <= j)%nat -> slot g i j = slot g0 i j))
              (fun i => for_ (Py.range (Z.of_nat n'))
                             (fun j bg => setitem2 bg i j (F i j)))
              m g0) as [g [Hrun [Hg [Hall Hrest]]]].
  - split; [ exact Hg0 | split; [ intros; lia | reflexivity ] ].
  - intros i g Hi [Hg [Hdone Hrest]].
    destruct (for_range
                (fun k g' =>
                   grid_shape g' m n d
                   /\ (forall i' j, (i' < i)%nat -> (j < n')%nat ->
                         slot g' i' j = F (Z.of_nat i') (Z.of_nat j))
                   /\ (forall j, (j < k)%nat ->
                         slot g' i j = F (Z.of_nat i) (Z.of_nat j))
                   /\ (forall i' j, (n' <= j)%nat ->
                         slot g' i' j = slot g0 i' j))
                (fun j bg => setitem2 bg (Z.of_nat i) j (F (Z.of_nat i) j))
                n' g) as [g' [Hrun [Hg' [Hold [Hnew Hrest']]]]].
    + repeat split; try assumption; try apply Hg; intros; lia.
    + intros j g1 Hj [Hg1 [Hold [Hnew Hrest1]]].
      rewrite (setitem2_ok g1 m n d) by (auto; lia).
      eexists; split; [ reflexivity | ].
      rewrite !Nat2Z.id.
      split; [ apply grid_shape_set; auto | ].
      split; [ | split ].
      * intros i' j' Hi' Hj'.
        rewrite (slot_set g1 m n d) by (assumption || lia).
        destruct (Nat.eqb_spec i' i); [ lia | cbn [andb] ].
        now apply Hold.
      * intros j' Hj'.
        rewrite (slot_set g1 m n d) by (assumption || lia).
        rewrite Nat.eqb_refl; cbn [andb].
        destruct (Nat.eqb_spec j' j) as [-> | Hne]; [ reflexivity | ].
        apply Hnew; lia.
      * intros i' j' Hj'.
        rewrite (slot_set g1 m n d) by (assumption || lia).
        destruct (Nat.eqb_spec j' j) as [-> | Hne]; [ lia | ].
        rewrite andb_false_r; now apply Hrest1.
    + exists g'; split; [ exact Hrun | split; [ exact Hg' | split ] ].
      * intros i' j Hi' Hj.
        destruct (Nat.eq_dec i' i) as [-> | Hne];
          [ now apply Hnew | apply Hold; lia ].
      * exact Hrest'.
  - exists g; repeat split; try assumption; apply Hg.
Qed.

Lemma zero_grid_slot (m n d : Z) (g : grid) (i j : nat) :
  np_zeros3 m n d = OK g -> (i < Z.to_nat m)%nat -> (j < Z.to_nat n)%nat ->
  slot g i j = zeros (Z.to_nat d).
Proof.
  unfold np_zeros3; destruct (_ || _ || _)%bool; [ discriminate | ].
  intros H Hi Hj; inversion H; subst g; unfold slot.
  rewrite (nth_indep _ [] (repeat (zeros (Z.to_nat d)) (Z.to_nat n)))
    by (rewrite repeat_length; lia).
  rewrite nth_repeat.
  rewrite (nth_indep _ [] (zeros (Z.to_nat d)))
    by (rewrite repeat_length; lia).
  apply nth_repeat.
Qed.

Lemma all_zero_zeros (v : list R) : all_zero v -> v = zeros (length v).
Proof.
  induction 1 as [ | x v Hx _ IH ]; cbn; [ reflexivity | ].
  now rewrite Hx, IH at 1.
Qed.

Lemma wsum_nil_l (p : R -> bool) (w : list R) : wsum p [] w = 0.
Proof. reflexivity. Qed.

Lemma slice_past {A : Type} (a b : Z) (l : list A) :
  (Z.of_nat (length l) <= a)%Z -> (a <= b)%Z -> Py.slice a b l = [].
Proof.
  intros Ha Hb; unfold Py.slice, Py.slice_index.
  destruct (Z.ltb_spec a 0); [ lia | ].
  destruct (Z.ltb_spec b 0); [ lia | ].
  rewrite !Z.min_l by lia.
  rewrite Z.sub_diag; reflexivity.
Qed.

(** The histogram of a cell below the last row of the image: the slice is
    empty and every bin is 0. *)
Lemma cell_histogram_past (O G : matrix) (cs : Z) (nb : nat) (i j : Z) :
  (0 < cs)%Z -> (Z.of_nat (length O) <= i * cs)%Z ->
  cell_histogram O G cs nb i j = zeros nb.
Proof.
  intros Hcs Hi.
  assert (Hcell : cell_of O cs i j = []).
  { unfold cell_of; rewrite slice_past by nia; reflexivity. }
  pose proof (cell_histogram_length O G cs nb i j) as Hlen.
  rewrite <- Hlen at 2; apply all_zero_zeros.
  unfold cell_histogram; rewrite Hcell; cbn [map concat].
  apply Forall_nth; intros k d Hk.
  rewrite diff_length in Hk.
  rewrite (nth_indep _ d 0) by (rewrite diff_length; lia).
  rewrite diff_nth by lia.
  assert (Hz : forall q, nth q (cum_weights [] (concat (cell_of G cs i j))
                                            (bin_edges nb)) 0 = 0).
  { intros q; unfold cum_weights.
    destruct (Nat.lt_ge_cases q
                (length (map (fun e => wsum (fun x => Rltb x e) []
                                            (concat (cell_of G cs i j)))
                             (removelast (bin_edges nb))))) as [Hq | Hq].
    - rewrite app_nth1 by exact Hq.
      rewrite (nth_indep _ 0 (wsum (fun x => Rltb x 0) []
                                   (concat (cell_of G cs i j)))) by exact Hq.
      now rewrite (map_nth (fun e => wsum (fun x => Rltb x e) []
                                          (concat (cell_of G cs i j)))).
    - rewrite app_nth2 by exact Hq.
      set (r := (q - _)%nat).
      destruct (Nat.lt_ge_cases r
                  (length (map (fun e => wsum (fun x => Rleb x e) []
                                              (concat (cell_of G cs i j)))
                               (skipn (length (bin_edges nb) - 1)
                                      (bin_edges nb))))) as [Hr | Hr].
      + rewrite (nth_indep _ 0 (wsum (fun x => Rleb x 0) []
                                     (concat (cell_of G cs i j))))
          by exact Hr.
        now rewrite (map_nth (fun e => wsum (fun x => Rleb x e) []
                                            (concat (cell_of G cs i j)))).
      + now rewrite nth_overflow by exact Hr. }
  rewrite !Hz; ring.
Qed.

Lemma histograms_wide_content (img : matrix) (cs : Z) :
  (2 <= nrows img)%nat -> (nrows img <= ncols img)%nat -> (0 < cs)%Z ->
  (Z.of_nat (nrows img) mod cs = 0)%Z ->
  (Z.of_nat (ncols img) mod cs = 0)%Z ->
  exists O G g,
    compute_magnitudes_and_orientations img = OK (Arr2 O, Arr2 G)
    /\ create_image_histograms img cs = OK (g, Some (bin_edges 8))
    /\ grid_shape g (Z.to_nat (Z.of_nat (ncols img) / cs))
                  (Z.to_nat (Z.of_nat (ncols img) / cs)) 8
    /\ forall i j,
        (i < Z.to_nat (Z.of_nat (ncols img) / cs))%nat ->
        (j < Z.to_nat (Z.of_nat (ncols img) / cs))%nat ->
        ((i < Z.to_nat (Z.of_nat (nrows img) / cs))%nat ->
         (j < Z.to_nat (Z.of_nat (nrows img) / cs))%nat ->
         slot g i j = cell_histogram O G cs 8 (Z.of_nat i) (Z.of_nat j))
        /\ ((Z.to_nat (Z.of_nat (nrows img) / cs) <= i)%nat
            \/ (Z.to_nat (Z.of_nat (nrows img) / cs) <= j)%nat ->
            slot g i j = zeros 8).
Proof.
  intros Hh Hle Hcs HN HM.
  assert (Hw : (2 <= ncols img)%nat) by lia.
  destruct (magnitudes_and_orientations_2d img Hh Hw)
    as [O [G [Hc [HO HG]]]].
  pose proof (has_shape_samedims _ _ _ _ HO HG) as Hs.
  exists O, G.
  rewrite (histograms_aligned img cs _ _ Hc) by (assumption || lia).
  set (qm := (Z.of_nat (ncols img) / cs)%Z).
  set (qn := (Z.of_nat (nrows img) / cs)%Z).
  assert (HMq : Z.of_nat (ncols img) = (cs * qm)%Z)
    by (unfold qm; apply Z.div_exact; lia).
  assert (HNq : Z.of_nat (nrows img) = (cs * qn)%Z)
    by (unfold qn; apply Z.div_exact; lia).
  assert (Hqn : (1 <= qn)%Z) by nia.
  assert (Hqm : (qn <= qm)%Z) by nia.
  destruct (np_zeros3_ok qm qm 8) as [g0 Hg0]; try lia.
  rewrite Hg0; cbn [bind].
  pose proof (np_zeros3_shape _ _ _ _ Hg0) as [Hsh0 _].
  change (Z.to_nat 8) with 8%nat in Hsh0.
  destruct (fill_grid_part (fun i j => cell_histogram O G cs 8 i j)
                           (Z.to_nat qm) (Z.to_nat qm) (Z.to_nat qn) 8
                           g0 Hsh0)
    as [g [Hrun [Hg [Hslots Hrest]]]]; [ lia | | ].
  { intros; apply cell_histogram_length. }
  rewrite !Z2Nat.id in Hrun by lia.
  destruct (for_cell_rows O G cs 8 _ _ g0 g None Hs Hrun)
    as [t' [Hrun' [Hsome _]]].
  rewrite (Hsome (range_nonempty qm ltac:(lia)) (range_nonempty qn Hqn))
    in Hrun'.
  exists g; split; [ exact Hc | split; [ exact Hrun' | ] ].
  split; [ exact Hg | ].
  intros i j Hi Hj; split.
  - intros Hi' Hj'; now apply Hslots.
  - intros [Hbig | Hbig].
    + destruct (Nat.lt_ge_cases j (Z.to_nat qn)) as [Hj' | Hj'].
      * rewrite Hslots by assumption.
        apply cell_histogram_past; [ exact Hcs | ].
        destruct HO as [HlenO _].
        change (length O) with (nrows O); rewrite HlenO.
        assert (Hqi : (qn <= Z.of_nat i)%Z) by lia.
        rewrite HNq; nia.
      * rewrite Hrest by exact Hj'.
        now apply (zero_grid_slot qm qm 8).
    + rewrite Hrest by exact Hbig.
      now apply (zero_grid_slot qm qm 8).
Qed.

(** X4.  On an aligned image with at least as many columns as rows
    ([N <= M]) the call returns a grid of [M // cs] by [M // cs] cells.
    Only its top-left [N // cs] by [N // cs] corner holds histograms of
    image cells (entry [(i, j)] that of rows [i*cs ..] and columns
    [j*cs ..]); every other entry is all zero: rows of cells beyond the
    image are histograms of empty slices and the columns of cells from
    [N // cs] on are never visited.  On a square image the corner is the
    whole grid. *)
Theorem wide_image_grid (img : matrix) (cs : Z) :
  (2 <= nrows img)%nat -> (nrows img <= ncols img)%nat -> (0 < cs)%Z ->
  (Z.of_nat (nrows img) mod cs = 0)%Z ->
  (Z.of_nat (ncols img) mod cs = 0)%Z ->
  exists O G g,
    compute_magnitudes_and_orientations img = OK (Arr2 O, Arr2 G)
    /\ create_image_histograms img cs = OK (g, Some (bin_edges 8))
    /\ grid_shape g (Z.to_nat (Z.of_nat (ncols img) / cs))
                  (Z.to_nat (Z.of_nat (ncols img) / cs)) 8
    /\ forall i j,
        (i < Z.to_nat (Z.of_nat (ncols img) / cs))%nat ->
        (j < Z.to_nat (Z.of_nat (ncols img) / cs))%nat ->
        ((i < Z.to_nat (Z.of_nat (nrows img) / cs))%nat ->
         (j < Z.to_nat (Z.of_nat (nrows img) / cs))%nat ->
         slot g i j = cell_histogram O G cs 8 (Z.of_nat i) (Z.of_nat j))
        /\ ((Z.to_nat (Z.of_nat (nrows img) / cs) <= i)%nat
            \/ (Z.to_nat (Z.of_nat (nrows img) / cs) <= j)%nat ->
            slot g i j = zeros 8).
Proof.
  intros Hh Hle Hcs HN HM.
  destruct (histograms_wide_content img cs Hh Hle Hcs HN HM)
    as [O [G [g [Hc [Hrun [Hg Hcells]]]]]].
  exists O, G, g.
  split; [ exact Hc | split; [ exact Hrun | split; [ exact Hg | ] ] ].
  exact Hcells.
Qed.

Lemma wide_image_grid_witness :
  (2 <= nrows wide24)%nat /\ (nrows wide24 <= ncols wide24)%nat
  /\ (0 < 2)%Z
  /\ exists g,
      create_image_histograms wide24 2 = OK (g, Some (bin_edges 8))
      /\ slot g 0 1 = zeros 8 /\ slot g 1 0 = zeros 8.
Proof.
  assert (Hh : (2 <= nrows wide24)%nat) by (unfold wide24; extent).
  assert (Hle : (nrows wide24 <= ncols wide24)%nat)
    by (unfold wide24; extent).
  assert (Hcs : (0 < 2)%Z) by lia.
  split; [ exact Hh | split; [ exact Hle | split; [ exact Hcs | ] ] ].
  destruct (wide_image_grid wide24 2 Hh Hle Hcs eq_refl eq_refl)
    as [O [G [g [_ [Hrun [_ Hcells]]]]]].
  exists g; split; [ exact Hrun | split ].
  - apply (Hcells 0%nat 1%nat); [ cbv; lia | cbv; lia | ].
    right; cbv; lia.
  - apply (Hcells 1%nat 0%nat); [ cbv; lia | cbv; lia | ].
    left; cbv; lia.
Defined.

(** X5.  On an aligned image with more rows than columns the loop over the
    cells of the first row of the grid runs past the second axis of the
    grid, allocated with [M // cs] entries, and the call raises
    [IndexError]. *)
Theorem tall_image_index_error (img : matrix) (cs : Z) :
  (2 <= nrows img)%nat -> (2 <= ncols img)%nat -> (0 < cs)%Z ->
  (Z.of_nat (nrows img) mod cs = 0)%Z ->
  (Z.of_nat (ncols img) mod cs = 0)%Z ->
  (ncols img < nrows img)%nat ->
  create_image_histograms img cs = Raise IndexError.
Proof.
  intros Hh Hw Hcs HN HM Hlt.
  apply histograms_tall; assumption.
Qed.

Lemma tall_image_index_error_witness :
  (2 <= nrows tall42)%nat /\ (ncols tall42 < nrows tall42)%nat
  /\ create_image_histograms tall42 2 = Raise IndexError.
Proof.
  assert (Hh : (2 <= nrows tall42)%nat) by (unfold tall42; extent).
  assert (Hw : (2 <= ncols tall42)%nat) by (unfold tall42; extent).
  assert (Hlt : (ncols tall42 < nrows tall42)%nat)
    by (unfold tall42; extent).
  split; [ exact Hh | split; [ exact Hlt | ] ].
  exact (tall_image_index_error tall42 2 Hh Hw ltac:(lia) eq_refl eq_refl
           Hlt).
Defined.

(** ** The slices of the loop *)

(** The two-index slice of an array with two axes never raises: it is the
    rows of the row slice, each cut to the column slice. *)
Lemma getslice2_cell (x : matrix) (cs i j : Z) :
  getslice2 (Arr2 x) (i * cs) ((i + 1) * cs) (j * cs) ((j + 1) * cs)
  = OK (cell_of x cs i j).
Proof. reflexivity. Qed.

(** A loop step whose cell starts at or below the last row of the arrays:
    both slices are empty, the histogram of no pixel is all zero and is
    stored in the grid. *)
Lemma cell_step_past (x y : matrix) (h w : nat) (cs : Z) (i j : nat)
      (g : grid) (t : option (list R)) (m n nb : nat) :
  has_shape x h w -> has_shape y h w -> (0 < cs)%Z ->
  (Z.of_nat h <= Z.of_nat i * cs)%Z ->
  grid_shape g m n nb -> (i < m)%nat -> (j < n)%nat ->
  exists g',
    cell_step (Arr2 x) (Arr2 y) cs nb (Z.of_nat i) (Z.of_nat j) (g, t)
    = OK (g', Some (bin_edges nb))
    /\ grid_shape g' m n nb
    /\ slot g' i j = zeros nb.
Proof.
  intros Hx Hy Hcs Hi Hg Him Hjn.
  pose proof (has_shape_samedims _ _ _ _ Hx Hy) as Hs.
  rewrite (cell_step_ok x y cs nb _ _ g t m n Hs Hg) by lia.
  rewrite !Nat2Z.id.
  eexists; split; [ reflexivity | split ].
  - apply grid_shape_set;
      [ exact Hg | apply cell_histogram_length | exact Him ].
  - rewrite (slot_set g m n nb) by assumption.
    rewrite !Nat.eqb_refl; cbn [andb].
    apply cell_histogram_past; [ exact Hcs | ].
    destruct Hx as [Hh _]; unfold nrows in Hh; now rewrite Hh.
Qed.

(** X6.  The slices the loop of [create_image_histograms] takes for grid
    position [(i, j)], on arrays of [h] rows and [w] columns.  When the
    cell lies inside the array the slice expression returns the [cs x cs]
    region whose entry [(a, b)] is the entry [(i*cs + a, j*cs + b)] of the
    array.  When the cell starts at or below row [h] the slice expression
    still returns, without an error, an array of no rows; the loop step
    goes on, stores an all-zero histogram at [(i, j)] and keeps the shape
    of the grid. *)
Theorem cell_slice_region (x y : matrix) (h w : nat) (cs : Z) (i j : nat) :
  has_shape x h w -> has_shape y h w -> (0 < cs)%Z ->
  (((Z.of_nat i + 1) * cs <= Z.of_nat h)%Z ->
   ((Z.of_nat j + 1) * cs <= Z.of_nat w)%Z ->
   exists c,
     getslice2 (Arr2 x) (Z.of_nat i * cs) ((Z.of_nat i + 1) * cs)
               (Z.of_nat j * cs) ((Z.of_nat j + 1) * cs)
     = OK c
     /\ has_shape c (Z.to_nat cs) (Z.to_nat cs)
     /\ forall a b, (a < Z.to_nat cs)%nat -> (b < Z.to_nat cs)%nat ->
          nth b (nth a c []) 0
          = nth (j * Z.to_nat cs + b) (nth (i * Z.to_nat cs + a) x []) 0)
  /\ ((Z.of_nat h <= Z.of_nat i * cs)%Z ->
      getslice2 (Arr2 x) (Z.of_nat i * cs) ((Z.of_nat i + 1) * cs)
                (Z.of_nat j * cs) ((Z.of_nat j + 1) * cs)
      = OK []
      /\ forall (g : grid) (t : option (list R)) (m n nb : nat),
           grid_shape g m n nb -> (i < m)%nat -> (j < n)%nat ->
           exists g',
             cell_step (Arr2 x) (Arr2 y) cs nb (Z.of_nat i) (Z.of_nat j)
                       (g, t)
             = OK (g', Some (bin_edges nb))
             /\ grid_shape g' m n nb
             /\ slot g' i j = zeros nb).
Proof.
  intros Hx Hy Hcs; split.
  - intros Hi Hj; rewrite getslice2_cell.
    exists (cell_of x cs (Z.of_nat i) (Z.of_nat j)).
    split; [ reflexivity | ].
    now apply (cell_of_region x h w).
  - intros Hi; split.
    + rewrite getslice2_cell; f_equal; unfold cell_of.
      destruct Hx as [Hh _]; unfold nrows in Hh.
      rewrite slice_past by (rewrite ?Hh; nia); reflexivity.
    + intros g t m n nb Hg Him Hjn.
      now apply (cell_step_past x y h w).
Qed.

(** On a 2x4 array with cells of 2x2: the cell at [(0, 1)] lies inside,
    the cell at [(1, 0)] starts below the last row. *)
Lemma cell_slice_region_witness :
  has_shape wide24 2 4 /\ (0 < 2)%Z
  /\ ((Z.of_nat 0 + 1) * 2 <= Z.of_nat 2)%Z
  /\ ((Z.of_nat 1 + 1) * 2 <= Z.of_nat 4)%Z
  /\ (Z.of_nat 2 <= Z.of_nat 1 * 2)%Z
  /\ grid_shape grid22 2 2 2
  /\ (exists c,
        getslice2 (Arr2 wide24) (Z.of_nat 0 * 2) ((Z.of_nat 0 + 1) * 2)
                  (Z.of_nat 1 * 2) ((Z.of_nat 1 + 1) * 2)
        = OK c
        /\ nth 1 (nth 0 c []) 0
           = nth (1 * Z.to_nat 2 + 1) (nth (0 * Z.to_nat 2 + 0) wide24 []) 0)
  /\ getslice2 (Arr2 wide24) (Z.of_nat 1 * 2) ((Z.of_nat 1 + 1) * 2)
               (Z.of_nat 0 * 2) ((Z.of_nat 0 + 1) * 2)
     = OK []
  /\ exists g',
      cell_step (Arr2 wide24) (Arr2 wide24) 2 2 (Z.of_nat 1) (Z.of_nat 0)
                (grid22, None)
      = OK (g', Some (bin_edges 2))
      /\ slot g' 1 0 = zeros 2.
Proof.
  assert (Hx : has_shape wide24 2 4)
    by (split; [ reflexivity | repeat constructor ]).
  assert (Hcs : (0 < 2)%Z) by lia.
  assert (Hi0 : ((Z.of_nat 0 + 1) * 2 <= Z.of_nat 2)%Z) by (cbn; lia).
  assert (Hj1 : ((Z.of_nat 1 + 1) * 2 <= Z.of_nat 4)%Z) by (cbn; lia).
  assert (Hi1 : (Z.of_nat 2 <= Z.of_nat 1 * 2)%Z) by (cbn; lia).
  split; [ exact Hx | split; [ exact Hcs | ] ].
  split; [ exact Hi0 | split; [ exact Hj1 | split; [ exact Hi1 | ] ] ].
  split; [ exact grid22_shape | ].
  destruct (cell_slice_region wide24 wide24 2 4 2 0 1 Hx Hx Hcs)
    as [Hin _].
  destruct (Hin Hi0 Hj1) as [c [Hc [_ Hnth]]].
  destruct (cell_slice_region wide24 wide24 2 4 2 1 0 Hx Hx Hcs)
    as [_ Hout].
  destruct (Hout Hi1) as [Hempty Hstep].
  destruct (Hstep grid22 None 2%nat 2%nat 2%nat grid22_shape
                  ltac:(lia) ltac:(lia)) as [g' [Hrun [_ Hslot]]].
  split; [ exists c; split; [ exact Hc | apply Hnth; cbv; lia ] | ].
  split; [ exact Hempty | ].
  exists g'; split; [ exact Hrun | exact Hslot ].
Defined.

(** ** Cell sizes that are not positive *)

(** X7.  On an image with at least one row and one column a cell size of 0
    raises [ZeroDivisionError]; a negative cell size raises the assertion
    error when it does not divide both extents and [ValueError] (the grid
    would have a negative extent) when it does.  A cell size that is not
    positive never yields a grid. *)
Theorem nonpositive_cell_size (img : matrix) (cs : Z) :
  (1 <= nrows img)%nat -> (1 <= ncols img)%nat ->
  (cs = 0%Z -> create_image_histograms img cs = Raise ZeroDivisionError)
  /\ ((cs < 0)%Z ->
      (Z.of_nat (ncols img) mod cs <> 0
       \/ Z.of_nat (nrows img) mod cs <> 0)%Z ->
      create_image_histograms img cs = Raise AssertionError)
  /\ ((cs < 0)%Z ->
      (Z.of_nat (ncols img) mod cs = 0)%Z ->
      (Z.of_nat (nrows img) mod cs = 0)%Z ->
      create_image_histograms img cs = Raise ValueError).
Proof.
  intros Hh Hw.
  destruct (magnitudes_and_orientations_ok img Hh Hw)
    as [Ix [Iy [ori [mag [_ [Hc _]]]]]].
  split; [ | split ].
  - intros ->; unfold create_image_histograms.
    rewrite Hc; reflexivity.
  - intros Hcs Hmod.
    apply (histograms_unaligned img cs ori mag Hc); [ lia | exact Hmod ].
  - intros Hcs HM HN.
    rewrite (histograms_aligned img cs ori mag Hc) by (assumption || lia).
    assert (Hq : (Z.of_nat (ncols img) / cs < 0)%Z).
    { pose proof (Z.div_exact (Z.of_nat (ncols img)) cs ltac:(lia)) as [_ E].
      specialize (E HM); nia. }
    unfold np_zeros3.
    destruct (Z.ltb_spec (Z.of_nat (ncols img) / cs) 0); [ | lia ].
    reflexivity.
Qed.

Lemma nonpositive_cell_size_witness :
  (1 <= nrows ramp2)%nat /\ (1 <= ncols ramp2)%nat
  /\ create_image_histograms ramp2 0 = Raise ZeroDivisionError
  /\ create_image_histograms ramp2 (-2) = Raise ValueError.
Proof.
  assert (Hh : (1 <= nrows ramp2)%nat) by (unfold ramp2; extent).
  assert (Hw : (1 <= ncols ramp2)%nat) by (unfold ramp2; extent).
  split; [ exact Hh | split; [ exact Hw | ] ].
  destruct (nonpositive_cell_size ramp2 0 Hh Hw) as [H0 _].
  destruct (nonpositive_cell_size ramp2 (-2) Hh Hw) as [_ [_ Hneg]].
  split; [ exact (H0 eq_refl) | ].
  exact (Hneg ltac:(lia) eq_refl eq_refl).
Defined.

(** ** Errors and edge cases of [create_descriptor] *)

(** X8.  [create_descriptor] validates the block size only against the
    grid.  An empty grid raises [IndexError] (at [histogram_grid[0]]);
    on a non-empty well-formed grid with a block no larger than the grid a
    step of 0 raises [ZeroDivisionError] and a negative step raises
    [ValueError] (the output grid would have a negative extent). *)
Theorem descriptor_bad_arguments (hg : grid) (R C B : nat) (K S : Z) :
  (hg = [] -> create_descriptor hg K S = Raise IndexError)
  /\ (grid_shape hg R C B -> (1 <= R)%nat -> (1 <= C)%nat ->
      (K <= Z.of_nat R)%Z -> (K <= Z.of_nat C)%Z ->
      (S = 0%Z -> create_descriptor hg K S = Raise ZeroDivisionError)
      /\ ((S < 0)%Z -> create_descriptor hg K S = Raise ValueError)).
Proof.
  split; [ intros ->; reflexivity | ].
  intros Hg HR1 HC1 HR HC.
  assert (HlenR : length hg = R) by apply Hg.
  destruct hg as [ | row hg' ]; [ cbn in HlenR; lia | ].
  destruct (grid_shape_row (row :: hg') R C B 0 Hg) as [HlenC Hrow];
    [ lia | ].
  cbn [nth] in HlenC, Hrow.
  destruct row as [ | c row' ]; [ cbn in HlenC; lia | ].
  assert (Hpre : forall S',
             create_descriptor ((c :: row') :: hg') K S'
             = (m <- Py.floordiv (Z.of_nat R - (K - 1)) S' ;;
                n <- Py.floordiv (Z.of_nat C - (K - 1)) S' ;;
                block_grid <- np_zeros3 m n (Z.of_nat (length c) * K ^ 2) ;;
                for_ (Py.range m)
                     (fun i =>
                        for_ (Py.range n)
                             (block_step ((c :: row') :: hg') K S' i))
                     block_grid)).
  { intros S'; unfold create_descriptor.
    change (len_at0 ((c :: row') :: hg'))
      with (OK (Z.of_nat (length (c :: row')))).
    rewrite HlenC, HlenR; cbn [bind].
    replace ((K <=? Z.of_nat R) && (K <=? Z.of_nat C))%Z with true
      by (symmetry; rewrite andb_true_iff, !Z.leb_le; lia).
    reflexivity. }
  split.
  - intros ->; rewrite Hpre; reflexivity.
  - intros HS; rewrite Hpre; unfold Py.floordiv.
    destruct (Z.eqb_spec S 0); [ lia | ]; cbn [bind].
    assert (Hm : ((Z.of_nat R - (K - 1)) / S < 0)%Z).
    { pose proof (Z.div_mod (Z.of_nat R - (K - 1)) S ltac:(lia)) as Hdm.
      pose proof (Z.mod_neg_bound (Z.of_nat R - (K - 1)) S ltac:(lia)).
      nia. }
    unfold np_zeros3.
    destruct (Z.ltb_spec ((Z.of_nat R - (K - 1)) / S) 0); [ | lia ].
    reflexivity.
Qed.

Lemma descriptor_bad_arguments_witness :
  grid_shape grid22 2 2 2 /\ (1 <= 2)%nat /\ (2 <= Z.of_nat 2)%Z
  /\ create_descriptor grid22 2 0 = Raise ZeroDivisionError
  /\ create_descriptor grid22 2 (-1) = Raise ValueError.
Proof.
  assert (H1 : (1 <= 2)%nat) by lia.
  assert (HR : (2 <= Z.of_nat 2)%Z) by (cbn; lia).
  split; [ exact grid22_shape | split; [ exact H1 | split; [ exact HR | ] ] ].
  destruct (proj2 (descriptor_bad_arguments grid22 2 2 2 2 0)
                  grid22_shape H1 H1 HR HR) as [H0 _].
  destruct (proj2 (descriptor_bad_arguments grid22 2 2 2 2 (-1))
                  grid22_shape H1 H1 HR HR) as [_ Hneg].
  split; [ exact (H0 eq_refl) | exact (Hneg ltac:(lia)) ].
Defined.

Lemma slice_empty {A : Type} (a : Z) (l : list A) : Py.slice a (a + 0) l = [].
Proof.
  unfold Py.slice; rewrite Z.add_0_r, Z.sub_diag; reflexivity.
Qed.

Lemma block_vector_zero_size (hg : grid) (S i j : Z) :
  block_vector hg 0 S i j = [].
Proof.
  unfold block_vector, window; rewrite (slice_empty (i * S)); reflexivity.
Qed.

Lemma normalize_nil : normalize [] = [].
Proof.
  unfold normalize; destruct (Req_dec_T (norm []) 0); reflexivity.
Qed.

(** X9.  A block size of 0 passes the assertion: on a non-empty
    well-formed grid with a positive step the call returns a grid of
    [(R + 1) // S] by [(C + 1) // S] empty vectors. *)
Theorem zero_block_size (hg : grid) (R C B : nat) (S : Z) :
  grid_shape hg R C B -> (1 <= R)%nat -> (1 <= C)%nat -> (1 <= S)%Z ->
  exists out,
    create_descriptor hg 0 S = OK out
    /\ grid_shape out (Z.to_nat ((Z.of_nat R + 1) / S))
                  (Z.to_nat ((Z.of_nat C + 1) / S)) 0
    /\ forall i j,
        (i < Z.to_nat ((Z.of_nat R + 1) / S))%nat ->
        (j < Z.to_nat ((Z.of_nat C + 1) / S))%nat ->
        slot out i j = [].
Proof.
  intros Hg HR1 HC1 HS.
  assert (HlenR : length hg = R) by apply Hg.
  destruct hg as [ | row hg' ]; [ cbn in HlenR; lia | ].
  destruct (grid_shape_row (row :: hg') R C B 0 Hg) as [HlenC Hrow];
    [ lia | ].
  cbn [nth] in HlenC, Hrow.
  destruct row as [ | c row' ]; [ cbn in HlenC; lia | ].
  set (g := (c :: row') :: hg') in *.
  set (mZ := ((Z.of_nat R + 1) / S)%Z).
  set (nZ := ((Z.of_nat C + 1) / S)%Z).
  assert (HmZ : (0 <= mZ)%Z) by (apply Z.div_pos; lia).
  assert (HnZ : (0 <= nZ)%Z) by (apply Z.div_pos; lia).
  destruct (np_zeros3_ok mZ nZ 0 HmZ HnZ ltac:(lia)) as [g0 Hg0].
  pose proof (np_zeros3_shape _ _ _ _ Hg0) as [Hsh0 _].
  change (Z.to_nat 0) with 0%nat in Hsh0.
  destruct (fill_grid (fun i j => normalize (block_vector g 0 S i j))
                      (Z.to_nat mZ) (Z.to_nat nZ) 0 g0 Hsh0)
    as [out [Hrun [Hout Hslots]]].
  { intros i j _ _; now rewrite block_vector_zero_size, normalize_nil. }
  rewrite !Z2Nat.id in Hrun by assumption.
  exists out; split; [ | split; [ exact Hout | ] ].
  - unfold create_descriptor.
    change (len_at0 g) with (OK (Z.of_nat (length (c :: row')))).
    rewrite HlenC, HlenR; cbn [bind].
    replace ((0 <=? Z.of_nat R) && (0 <=? Z.of_nat C))%Z with true
      by (symmetry; rewrite andb_true_iff, !Z.leb_le; lia).
    cbn [Py.assert bind]; unfold Py.floordiv.
    destruct (Z.eqb_spec S 0); [ lia | ].
    cbn [bind].
    replace (Z.of_nat R - (0 - 1))%Z with (Z.of_nat R + 1)%Z by lia.
    replace (Z.of_nat C - (0 - 1))%Z with (Z.of_nat C + 1)%Z by lia.
    fold mZ nZ.
    change (len_at0 (hd [] g)) with (OK (Z.of_nat (length c))).
    cbn [bind].
    replace (Z.of_nat (length c) * 0 ^ 2)%Z with 0%Z by (cbn; lia).
    rewrite Hg0; cbn [bind].
    exact Hrun.
  - intros i j Hi Hj; rewrite (Hslots i j Hi Hj).
    now rewrite block_vector_zero_size, normalize_nil.
Qed.

Lemma zero_block_size_witness :
  grid_shape grid22 2 2 2 /\ (1 <= 2)%nat /\ (1 <= 1)%Z
  /\ exists out,
      create_descriptor grid22 0 1 = OK out /\ grid_shape out 3 3 0.
Proof.
  assert (H1 : (1 <= 2)%nat) by lia.
  assert (HS : (1 <= 1)%Z) by lia.
  split; [ exact grid22_shape | split; [ exact H1 | split; [ exact HS | ] ] ].
  destruct (zero_block_size grid22 2 2 2 1 grid22_shape H1 H1 HS)
    as [out [Hrun [Hout _]]].
  exists out; split; [ exact Hrun | exact Hout ].
Defined.

(** ** Invariance of the descriptor under a change of contrast *)

Lemma window_scale (c : R) (hg : grid) (r0 r1 c0 c1 : Z) :
  window (scale_grid c hg) r0 r1 c0 c1
  = scale_grid c (window hg r0 r1 c0 c1).
Proof.
  unfold window, scale_grid.
  rewrite slice_map, !map_map.
  apply map_ext; intros row; apply slice_map.
Qed.

Lemma flatten_scale (c : R) (g : grid) :
  flatten (scale_grid c g) = map (Rmult c) (flatten g).
Proof.
  unfold flatten, scale_grid.
  now rewrite <- !concat_map.
Qed.

Lemma block_vector_scale (c : R) (hg : grid) (K S i j : Z) :
  block_vector (scale_grid c hg) K S i j
  = map (Rmult c) (block_vector hg K S i j).
Proof. unfold block_vector; now rewrite window_scale, flatten_scale. Qed.

Lemma dot_scale_l (c : R) (v : list R) :
  dot (map (Rmult c) v) (map (Rmult c) v) = c * c * dot v v.
Proof.
  induction v as [ | x v IH ]; cbn; [ ring | rewrite IH; ring ].
Qed.

Lemma norm_scale (c : R) (v : list R) :
  0 < c -> norm (map (Rmult c) v) = c * norm v.
Proof.
  intros Hc; unfold norm; rewrite dot_scale_l.
  rewrite sqrt_mult by (try apply dot_self_nonneg; nra).
  rewrite sqrt_square by lra; reflexivity.
Qed.

Lemma normalize_scale (c : R) (v : list R) :
  0 < c -> normalize (map (Rmult c) v) = normalize v.
Proof.
  intros Hc; unfold normalize; rewrite norm_scale by exact Hc.
  destruct (Req_dec_T (norm v) 0) as [H0 | Hn].
  - destruct (Req_dec_T (c * norm v) 0) as [_ | Hn]; [ | nra ].
    apply norm_zero_iff in H0.
    induction H0 as [ | x v Hx _ IH ]; cbn; [ reflexivity | ].
    rewrite IH, Hx; f_equal; ring.
  - destruct (Req_dec_T (c * norm v) 0) as [H0 | _]; [ nra | ].
    rewrite map_map; apply map_ext; intros x; field; lra.
Qed.

Lemma for_ext {S I : Type} (f g : I -> S -> result S) (l : list I) (s : S) :
  (forall i t, f i t = g i t) -> for_ l f s = for_ l g s.
Proof.
  intros H; revert s; induction l as [ | i l IH ]; intros s; cbn;
    [ reflexivity | ].
  rewrite H; destruct (g i s); cbn; auto.
Qed.

Lemma descriptor_contrast (c : R) (hg : grid) (K S : Z) :
  0 < c ->
  create_descriptor (scale_grid c hg) K S = create_descriptor hg K S.
Proof.
  intros Hc; unfold create_descriptor.
  assert (H1 : length (scale_grid c hg) = length hg)
    by apply length_map.
  assert (H2 : len_at0 (scale_grid c hg) = len_at0 hg)
    by (destruct hg; cbn; [ reflexivity | now rewrite length_map ]).
  assert (H3 : len_at0 (hd [] (scale_grid c hg)) = len_at0 (hd [] hg)).
  { destruct hg as [ | [ | cell row ] hg' ]; cbn; try reflexivity.
    now rewrite length_map. }
  rewrite H1, H2, H3.
  destruct (len_at0 hg) as [N | e]; cbn [bind]; [ | reflexivity ].
  destruct (Py.assert _); cbn [bind]; [ | reflexivity ].
  destruct (Py.floordiv _ S) as [m | e]; cbn [bind]; [ | reflexivity ].
  destruct (Py.floordiv _ S) as [n | e]; cbn [bind]; [ | reflexivity ].
  destruct (len_at0 (hd [] hg)) as [B | e]; cbn [bind]; [ | reflexivity ].
  destruct (np_zeros3 _ _ _) as [g0 | e]; cbn [bind]; [ | reflexivity ].
  apply for_ext; intros i g.
  apply for_ext; intros j bg.
  unfold block_step.
  fold (block_vector (scale_grid c hg) K S i j).
  fold (block_vector hg K S i j).
  now rewrite block_vector_scale, normalize_scale.
Qed.

(** X10.  The descriptor does not depend on the contrast of the
    histograms: multiplying every entry of the grid by a positive constant
    leaves the result of [create_descriptor] unchanged, for every block
    size and step, errors included. *)
Theorem descriptor_scale_invariant (c : R) (hg : grid) (K S : Z) :
  0 < c ->
  create_descriptor (scale_grid c hg) K S = create_descriptor hg K S.
Proof.
  intros Hc.
  rewrite descriptor_contrast by exact Hc.
  reflexivity.
Qed.

Lemma descriptor_scale_invariant_witness :
  0 < 2
  /\ create_descriptor (scale_grid 2 grid22) 2 1 = create_descriptor grid22 2 1.
Proof.
  assert (Hc : 0 < 2) by lra.
  split; [ exact Hc | exact (descriptor_scale_invariant 2 grid22 2 1 Hc) ].
Defined.

(** ** The gradients of a rescaled image *)

Lemma map_zeros (c : R) (n : nat) : map (Rmult c) (zeros n) = zeros n.
Proof.
  unfold zeros; induction n as [ | n IH ]; cbn; [ reflexivity | ].
  now rewrite IH, Rmult_0_r.
Qed.

Lemma ncols_scale (c : R) (x : matrix) :
  ncols (scale_image c x) = ncols x.
Proof. apply ncols_map_map. Qed.

Lemma nrows_scale (c : R) (x : matrix) :
  nrows (scale_image c x) = nrows x.
Proof. apply length_map. Qed.

Lemma map_repeat_zeros (c : R) (w p : nat) :
  map (map (Rmult c)) (repeat (zeros w) p) = repeat (zeros w) p.
Proof.
  induction p as [ | p IH ]; cbn; [ reflexivity | ].
  now rewrite IH, map_zeros.
Qed.

Lemma pad2d_scale (c : R) (p : nat) (x : matrix) :
  pad2d p (scale_image c x) = scale_image c (pad2d p x).
Proof.
  unfold pad2d; rewrite ncols_scale; unfold scale_image.
  rewrite !map_app, !map_repeat_zeros, !map_map.
  f_equal; f_equal.
  apply map_ext; intros r.
  now rewrite !map_app, !map_zeros.
Qed.

Lemma dot_scale_r (c : R) (k r : list R) :
  dot k (map (Rmult c) r) = c * dot k r.
Proof.
  revert r; induction k as [ | a k IH ]; intros [ | b r ]; cbn;
    try ring.
  rewrite IH; ring.
Qed.

Lemma dot2_scale_r (c : R) (k x : matrix) :
  dot2 k (map (map (Rmult c)) x) = c * dot2 k x.
Proof.
  revert x; induction k as [ | kr k IH ]; intros [ | xr x ]; cbn;
    try ring.
  rewrite IH, dot_scale_r; ring.
Qed.

Lemma sobel_out_scale (c : R) (k x : matrix) :
  sobel_out k (scale_image c x) = scale_image c (sobel_out k x).
Proof.
  unfold sobel_out; rewrite nrows_scale, ncols_scale, pad2d_scale.
  unfold scale_image at 2; rewrite map_map.
  apply map_ext; intros i; rewrite map_map.
  apply map_ext; intros j.
  unfold scale_image.
  rewrite skipn_map, map_map.
  rewrite <- dot2_scale_r, map_map.
  f_equal; apply map_ext; intros r; apply skipn_map.
Qed.

Lemma squeeze_scale (c : R) (x : matrix) :
  squeeze (scale_image c x) = arr_map (Rmult c) (squeeze x).
Proof.
  unfold squeeze; rewrite nrows_scale, ncols_scale.
  destruct (nrows x =? 1)%nat eqn:E1, (ncols x =? 1)%nat eqn:E2;
    cbn [arr_map].
  - f_equal; unfold scale_image.
    destruct x as [ | [ | v r ] x' ]; cbn in *; try discriminate.
    reflexivity.
  - f_equal; unfold scale_image.
    change (@nil R) with (map (Rmult c) []) at 1.
    now rewrite map_nth.
  - f_equal; unfold scale_image; rewrite !map_map.
    apply map_ext; intros r.
    destruct r; cbn; [ now rewrite Rmult_0_r | reflexivity ].
  - reflexivity.
Qed.

Lemma conv2d_scale (c : R) (k x : matrix) :
  nrows k = 3%nat -> ncols k = 3%nat ->
  conv2d (scale_image c x) k 1
  = (y <- conv2d x k 1 ;; OK (scale_image c y)).
Proof.
  intros Hk1 Hk2.
  destruct (Nat.eq_dec (nrows x) 0) as [H0 | H0];
    [ | destruct (Nat.eq_dec (ncols x) 0) as [H1 | H1] ].
  - rewrite !conv2d_empty; try reflexivity; try assumption;
      rewrite ?nrows_scale, ?ncols_scale; auto.
  - rewrite !conv2d_empty; try reflexivity; try assumption;
      rewrite ?nrows_scale, ?ncols_scale; auto.
  - rewrite !conv2d_3x3; try assumption;
      rewrite ?nrows_scale, ?ncols_scale; try lia.
    cbn [bind]; now rewrite sobel_out_scale.
Qed.

Lemma gradients_linear (c : R) (img : matrix) :
  compute_image_gradients (scale_image c img)
  = (' (Ix, Iy) <- compute_image_gradients img ;;
     OK (arr_map (Rmult c) Ix, arr_map (Rmult c) Iy)).
Proof.
  unfold compute_image_gradients.
  change ((length SOBEL_X_KERNEL - 1) / 2)%nat with 1%nat.
  change ((length SOBEL_Y_KERNEL - 1) / 2)%nat with 1%nat.
  rewrite !conv2d_scale by reflexivity.
  destruct (conv2d img SOBEL_X_KERNEL 1) as [Ix | e]; cbn [bind];
    [ | reflexivity ].
  destruct (conv2d img SOBEL_Y_KERNEL 1) as [Iy | e]; cbn [bind];
    [ | reflexivity ].
  now rewrite !squeeze_scale.
Qed.

(** X11.  The gradient stage is linear in the image: multiplying every
    sample by a constant multiplies both gradient arrays by that constant,
    and an image that is refused stays refused. *)
Theorem gradients_scale (c : R) (img : matrix) :
  compute_image_gradients (scale_image c img)
  = (' (Ix, Iy) <- compute_image_gradients img ;;
     OK (arr_map (Rmult c) Ix, arr_map (Rmult c) Iy)).
Proof.
  rewrite gradients_linear.
  destruct (compute_image_gradients img) as [[Ix Iy] | e]; reflexivity.
Qed.

Lemma arctan2_scale (c y x : R) :
  0 < c -> arctan2 (c * y) (c * x) = arctan2 y x.
Proof.
  intros Hc.
  assert (Hq : x <> 0 -> c * y / (c * x) = y / x)
    by (intros Hx; field; split; lra).
  unfold arctan2.
  destruct (Rlt_dec 0 x) as [Hx | Hx].
  - destruct (Rlt_dec 0 (c * x)) as [_ | Hn]; [ | nra ].
    rewrite Hq by lra; reflexivity.
  - destruct (Rlt_dec 0 (c * x)) as [Hp | _]; [ nra | ].
    destruct (Rlt_dec x 0) as [Hx' | Hx'].
    + destruct (Rlt_dec (c * x) 0) as [_ | Hn]; [ | nra ].
      rewrite Hq by lra.
      destruct (Rle_dec 0 y), (Rle_dec 0 (c * y)); try reflexivity; nra.
    + destruct (Rlt_dec (c * x) 0) as [Hp | _]; [ nra | ].
      destruct (Rlt_dec 0 y), (Rlt_dec 0 (c * y)); try nra;
        try reflexivity.
      destruct (Rlt_dec y 0), (Rlt_dec (c * y) 0); try nra; reflexivity.
Qed.

Lemma map2_ext2 {A B C : Type} (f g : A -> B -> C) (l1 : list A)
      (l2 : list B) :
  (forall x y, f x y = g x y) -> map2 f l1 l2 = map2 g l1 l2.
Proof. apply map2_ext. Qed.

Lemma arr_map2_ext (f g : R -> R -> R) (a b : ndarray) :
  (forall x y, f x y = g x y) -> arr_map2 f a b = arr_map2 g a b.
Proof.
  intros H; destruct a, b; cbn; try reflexivity.
  - now rewrite H.
  - do 2 f_equal; now apply map2_ext.
  - do 2 f_equal; apply map2_ext; intros; now apply map2_ext.
Qed.

Lemma map_map2 {A B C D : Type} (g : C -> D) (f : A -> B -> C)
      (l1 : list A) (l2 : list B) :
  map g (map2 f l1 l2) = map2 (fun x y => g (f x y)) l1 l2.
Proof. unfold map2; now rewrite map_map. Qed.

Lemma arr_map_map2 (g : R -> R) (f : R -> R -> R) (a b : ndarray) :
  arr_map2 (fun x y => g (f x y)) a b
  = (m <- arr_map2 f a b ;; OK (arr_map g m)).
Proof.
  destruct a, b; cbn; try reflexivity.
  - now rewrite map_map2.
  - do 2 f_equal; rewrite map_map2.
    apply map2_ext; intros; now rewrite map_map2.
Qed.

Lemma magnitudes_orientations_rescaled (c : R) (img : matrix) :
  0 < c ->
  compute_magnitudes_and_orientations (scale_image c img)
  = (' (ori, mag) <- compute_magnitudes_and_orientations img ;;
     OK (ori, arr_map (Rmult (c * c)) mag)).
Proof.
  intros Hc; unfold compute_magnitudes_and_orientations.
  rewrite gradients_linear.
  destruct (compute_image_gradients img) as [[Ix Iy] | e]; cbn [bind];
    [ | reflexivity ].
  rewrite !arr_map2_map.
  rewrite (arr_map2_ext (fun x y => (c * x) ^ 2 + (c * y) ^ 2)
                        (fun x y => c * c * (x ^ 2 + y ^ 2)))
    by (intros; ring).
  rewrite (arr_map_map2 (Rmult (c * c)) (fun x y => x ^ 2 + y ^ 2)).
  rewrite (arr_map2_ext (fun y x => arctan2 (c * y) (c * x)) arctan2)
    by (intros; now apply arctan2_scale).
  destruct (arr_map2 (fun x y => x ^ 2 + y ^ 2) Ix Iy) as [mag | e];
    cbn [bind]; [ | reflexivity ].
  destruct (arr_map2 arctan2 Iy Ix) as [ori | e]; cbn [bind]; reflexivity.
Qed.

(** X12.  Multiplying the image by a positive constant [c] leaves every
    orientation unchanged and multiplies every magnitude by [c^2]. *)
Theorem magnitudes_orientations_scale (c : R) (img : matrix) :
  0 < c ->
  compute_magnitudes_and_orientations (scale_image c img)
  = (' (ori, mag) <- compute_magnitudes_and_orientations img ;;
     OK (ori, arr_map (Rmult (c * c)) mag)).
Proof.
  intros Hc.
  rewrite magnitudes_orientations_rescaled by exact Hc.
  destruct (compute_magnitudes_and_orientations img) as [[ori mag] | e];
    reflexivity.
Qed.

Lemma magnitudes_orientations_scale_witness :
  0 < 2
  /\ compute_magnitudes_and_orientations (scale_image 2 edge3)
     = (' (ori, mag) <- compute_magnitudes_and_orientations edge3 ;;
        OK (ori, arr_map (Rmult (2 * 2)) mag)).
Proof.
  assert (Hc : 0 < 2) by lra.
  split; [ exact Hc | exact (magnitudes_orientations_scale 2 edge3 Hc) ].
Defined.

(** ** The histograms of a rescaled image *)

Lemma for_commute {S I : Type} (sc : S -> S) (b1 b2 : I -> S -> result S)
      (l : list I) (s : S) :
  (forall i t, b2 i (sc t) = (t' <- b1 i t ;; OK (sc t'))) ->
  for_ l b2 (sc s) = (s' <- for_ l b1 s ;; OK (sc s')).
Proof.
  intros H; revert s; induction l as [ | i l IH ]; intros s; cbn [for_];
    [ reflexivity | ].
  rewrite H.
  destruct (b1 i s) as [t | e]; cbn [bind]; [ apply IH | reflexivity ].
Qed.

Lemma wsum_scale (k : R) (p : R -> bool) (a w : list R) :
  wsum p a (map (Rmult k) w) = k * wsum p a w.
Proof.
  revert w; induction a as [ | x a IH ]; intros [ | c w ]; cbn [wsum map];
    try ring.
  rewrite IH; destruct (p x); ring.
Qed.

Lemma cum_weights_scale (k : R) (a w bins : list R) :
  cum_weights a (map (Rmult k) w) bins
  = map (Rmult k) (cum_weights a w bins).
Proof.
  unfold cum_weights; rewrite map_app, !map_map.
  f_equal; apply map_ext; intros e; apply wsum_scale.
Qed.

Lemma diff_scale (k : R) (l : list R) :
  diff (map (Rmult k) l) = map (Rmult k) (diff l).
Proof.
  induction l as [ | a [ | b t ] IH ]; try reflexivity.
  change (map (Rmult k) (a :: b :: t))
    with (k * a :: map (Rmult k) (b :: t)).
  change (map (Rmult k) (b :: t)) with (k * b :: map (Rmult k) t) at 1.
  rewrite !diff_cons2.
  change (k * b :: map (Rmult k) t) with (map (Rmult k) (b :: t)).
  rewrite IH; cbn [map]; f_equal; ring.
Qed.

Lemma create_histogram_scale (k : R) (mags oris : matrix) (B : nat) :
  create_histogram (scale_image k mags) oris B
  = (' (h, t) <- create_histogram mags oris B ;; OK (map (Rmult k) h, t)).
Proof.
  unfold create_histogram, np_histogram.
  rewrite nrows_scale, ncols_scale.
  destruct (negb _); [ reflexivity | ].
  destruct (negb _); [ reflexivity | ].
  cbn [bind]; unfold scale_image.
  now rewrite <- (concat_map (Rmult k) mags), cum_weights_scale, diff_scale.
Qed.

Lemma getslice2_scale (k : R) (x : ndarray) (r0 r1 c0 c1 : Z) :
  getslice2 (arr_map (Rmult k) x) r0 r1 c0 c1
  = (m <- getslice2 x r0 r1 c0 c1 ;; OK (scale_image k m)).
Proof.
  destruct x; cbn; try reflexivity.
  f_equal; unfold scale_image.
  rewrite slice_map, !map_map.
  apply map_ext; intros r; apply slice_map.
Qed.

Lemma set_nth_map {A B : Type} (f : A -> B) (n : nat) (v : A) (l : list A) :
  set_nth n (f v) (map f l) = map f (set_nth n v l).
Proof.
  revert n; induction l as [ | x l IH ]; intros [ | n ]; cbn;
    try reflexivity.
  now rewrite IH.
Qed.

Lemma nth_scale_row (k : R) (g : grid) (i : nat) :
  nth i (scale_grid k g) [] = map (map (Rmult k)) (nth i g []).
Proof.
  unfold scale_grid.
  change (@nil (list R)) with (map (map (Rmult k)) []) at 1.
  apply map_nth.
Qed.

Lemma nth_scale_cell (k : R) (row : list (list R)) (j : nat) :
  nth j (map (map (Rmult k)) row) [] = map (Rmult k) (nth j row []).
Proof.
  change (@nil R) with (map (Rmult k) []) at 1.
  apply map_nth.
Qed.

Lemma map_repeat {A B : Type} (f : A -> B) (x : A) (n : nat) :
  map f (repeat x n) = repeat (f x) n.
Proof. induction n as [ | n IH ]; cbn; [ reflexivity | now rewrite IH ]. Qed.

Lemma setitem2_scale (k : R) (g : grid) (i j : Z) (v : list R) :
  setitem2 (scale_grid k g) i j (map (Rmult k) v)
  = (g' <- setitem2 g i j v ;; OK (scale_grid k g')).
Proof.
  unfold setitem2.
  replace (length (scale_grid k g)) with (length g)
    by (symmetry; apply length_map).
  destruct (index (length g) i) as [i' | e]; cbn [bind]; [ | reflexivity ].
  rewrite nth_scale_row, length_map.
  destruct (index (length (nth i' g [])) j) as [j' | e]; cbn [bind];
    [ | reflexivity ].
  rewrite nth_scale_cell, !length_map.
  destruct (length v =? length (nth j' (nth i' g []) []))%nat.
  - cbn [bind]; f_equal; unfold scale_grid.
    now rewrite <- !set_nth_map.
  - destruct (length v =? 1)%nat eqn:E1; [ | reflexivity ].
    cbn [bind]; f_equal; unfold scale_grid.
    rewrite <- !set_nth_map, map_repeat.
    destruct v as [ | x v ]; [ discriminate E1 | reflexivity ].
Qed.

Lemma cell_step_scale (k : R) (ori mag : ndarray) (cs : Z) (nb : nat)
      (i j : Z) (st : grid * option (list R)) :
  cell_step ori (arr_map (Rmult k) mag) cs nb i j (scale_state k st)
  = (st' <- cell_step ori mag cs nb i j st ;; OK (scale_state k st')).
Proof.
  unfold cell_step.
  destruct (getslice2 ori _ _ _ _) as [co | e]; cbn [bind];
    [ | reflexivity ].
  rewrite getslice2_scale.
  destruct (getslice2 mag _ _ _ _) as [cm | e]; cbn [bind];
    [ | reflexivity ].
  rewrite create_histogram_scale.
  destruct (create_histogram cm co nb) as [[h t] | e]; cbn [bind];
    [ | reflexivity ].
  unfold scale_state at 1; cbn [fst].
  rewrite setitem2_scale.
  destruct (setitem2 (fst st) i j h) as [g' | e]; cbn [bind]; reflexivity.
Qed.

Lemma zero_grid_scale (k : R) (m n d : Z) (g : grid) :
  np_zeros3 m n d = OK g -> scale_grid k g = g.
Proof.
  unfold np_zeros3; destruct (_ || _ || _)%bool; [ discriminate | ].
  intros H; inversion H; unfold scale_grid.
  now rewrite !map_repeat, map_zeros.
Qed.

Lemma histograms_rescaled (c : R) (img : matrix) (cs : Z) :
  0 < c ->
  create_image_histograms (scale_image c img) cs
  = (st <- create_image_histograms img cs ;;
     OK (scale_state (c * c) st)).
Proof.
  intros Hc; unfold create_image_histograms.
  rewrite nrows_scale, ncols_scale.
  rewrite magnitudes_orientations_rescaled by exact Hc.
  destruct (compute_magnitudes_and_orientations img) as [[ori mag] | e];
    cbn [bind]; [ | reflexivity ].
  destruct (Py.mod_ _ cs) as [rm | e]; cbn [bind]; [ | reflexivity ].
  destruct (Py.assert _); cbn [bind]; [ | reflexivity ].
  destruct (Py.mod_ _ cs) as [rn | e]; cbn [bind]; [ | reflexivity ].
  destruct (Py.assert _); cbn [bind]; [ | reflexivity ].
  destruct (Py.floordiv _ cs) as [qm | e]; cbn [bind]; [ | reflexivity ].
  destruct (np_zeros3 qm qm _) as [g0 | e] eqn:E0; cbn [bind];
    [ | reflexivity ].
  destruct (Py.floordiv _ cs) as [qn | e]; cbn [bind]; [ | reflexivity ].
  replace (g0, @None (list R)) with (scale_state (c * c) (g0, None)) at 1
    by (unfold scale_state; cbn [fst snd];
        now rewrite (zero_grid_scale (c * c) _ _ _ g0 E0)).
  apply for_commute; intros i st.
  apply for_commute; intros j st'.
  apply cell_step_scale.
Qed.

(** X13.  Multiplying the image by a positive constant [c] multiplies every
    entry of the cell histogram grid by [c^2] and changes nothing else:
    the same edges are returned and the same errors are raised. *)
Theorem histograms_scale (c : R) (img : matrix) (cs : Z) :
  0 < c ->
  create_image_histograms (scale_image c img) cs
  = (st <- create_image_histograms img cs ;;
     OK (scale_grid (c * c) (fst st), snd st)).
Proof.
  intros Hc.
  rewrite histograms_rescaled by exact Hc.
  destruct (create_image_histograms img cs) as [[g t] | e]; reflexivity.
Qed.

Lemma histograms_scale_witness :
  0 < 2
  /\ create_image_histograms (scale_image 2 wide24) 2
     = (st <- create_image_histograms wide24 2 ;;
        OK (scale_grid (2 * 2) (fst st), snd st)).
Proof.
  assert (Hc : 0 < 2) by lra.
  split; [ exact Hc | exact (histograms_scale 2 wide24 2 Hc) ].
Defined.

(** X14.  The descriptor of an image does not depend on its brightness
    scale: chaining [create_image_histograms] and [create_descriptor] on an
    image multiplied by a positive constant gives the result, or the
    error, that the chain gives on the image itself. *)
Theorem descriptor_brightness_invariant
        (c : R) (img : matrix) (cs K S : Z) :
  0 < c ->
  (st <- create_image_histograms (scale_image c img) cs ;;
   create_descriptor (fst st) K S)
  = (st <- create_image_histograms img cs ;;
     create_descriptor (fst st) K S).
Proof.
  intros Hc; rewrite histograms_rescaled by exact Hc.
  destruct (create_image_histograms img cs) as [st | e]; cbn [bind];
    [ | reflexivity ].
  unfold scale_state; cbn [fst].
  apply descriptor_contrast; nra.
Qed.

Lemma descriptor_brightness_invariant_witness :
  0 < 2
  /\ (st <- create_image_histograms (scale_image 2 wide24) 2 ;;
      create_descriptor (fst st) 2 1)
     = (st <- create_image_histograms wide24 2 ;;
        create_descriptor (fst st) 2 1).
Proof.
  assert (Hc : 0 < 2) by lra.
  split; [ exact Hc | ].
  exact (descriptor_brightness_invariant 2 wide24 2 2 1 Hc).
Defined.

(** ** The stages chained *)

Lemma magnitudes_nonneg (img : matrix) (O G : matrix) :
  compute_magnitudes_and_orientations img = OK (Arr2 O, Arr2 G) ->
  Forall (Forall (fun x => 0 <= x)) G.
Proof.
  unfold compute_magnitudes_and_orientations; intros H.
  inv_bind H; destruct a as [Ix Iy]; inv_bind H; inv_bind H.
  inversion H; subst; clear H.
  rewrite arr_map2_map in Ha0.
  apply Forall_concat.
  apply (arr_map2_Forall (fun x => 0 <= x) _ _ _ (Arr2 G)) in Ha0;
    [ exact Ha0 | ].
  intros x y; cbn; nra.
Qed.

Lemma cell_histogram_nonneg (O G : matrix) (cs : Z) (nb : nat) (i j : Z) :
  (1 <= nb)%nat -> Forall (Forall (fun x => 0 <= x)) G ->
  Forall (fun b => 0 <= b) (cell_histogram O G cs nb i j).
Proof.
  intros Hnb HG.
  pose proof (cell_histogram_length O G cs nb i j) as Hlen.
  apply Forall_nth; intros k d Hk; rewrite Hlen in Hk.
  rewrite (nth_indep _ d 0) by lia.
  unfold cell_histogram; rewrite histogram_bin by assumption.
  apply wsum_nonneg, Forall_concat.
  unfold cell_of; rewrite Forall_map; apply Forall_slice.
  eapply Forall_impl; [ | exact HG ]; cbn; intros r Hr.
  now apply Forall_slice.
Qed.

(** X15.  The stages compose: on an aligned image with at least two rows
    and at least as many columns as rows, a block size and step of at least
    1 and a block no larger than the grid of [M // cs] cells per side,
    [create_image_histograms] returns a grid of non-negative entries and
    [create_descriptor] accepts it; the descriptor has
    [(M // cs - (K - 1)) // S] blocks per side, [8 K^2] entries per block,
    every entry in [0, 1], and every block is all zero or of norm 1. *)
Theorem pipeline_descriptor (img : matrix) (cs K S : Z) :
  (2 <= nrows img)%nat -> (nrows img <= ncols img)%nat -> (0 < cs)%Z ->
  (Z.of_nat (nrows img) mod cs = 0)%Z ->
  (Z.of_nat (ncols img) mod cs = 0)%Z ->
  (1 <= K)%Z -> (1 <= S)%Z -> (K <= Z.of_nat (ncols img) / cs)%Z ->
  exists g out,
    create_image_histograms img cs = OK (g, Some (bin_edges 8))
    /\ Forall (Forall (Forall (fun x => 0 <= x))) g
    /\ create_descriptor g K S = OK out
    /\ grid_shape out
         (Z.to_nat ((Z.of_nat (ncols img) / cs - (K - 1)) / S))
         (Z.to_nat ((Z.of_nat (ncols img) / cs - (K - 1)) / S))
         (Z.to_nat (8 * K ^ 2))
    /\ Forall (Forall (Forall (fun x => 0 <= x <= 1))) out
    /\ Forall (Forall (fun v => all_zero v \/ norm v = 1)) out.
Proof.
  intros Hh Hle Hcs HN HM HK HS HKq.
  destruct (histograms_wide_content img cs Hh Hle Hcs HN HM)
    as [O [G [g [Hc [Hrun [Hg Hcells]]]]]].
  pose proof (magnitudes_nonneg img O G Hc) as HG.
  set (q := Z.to_nat (Z.of_nat (ncols img) / cs)) in *.
  assert (Hq : Z.of_nat q = (Z.of_nat (ncols img) / cs)%Z)
    by (unfold q; lia).
  assert (Hpos : Forall (Forall (Forall (fun x => 0 <= x))) g).
  { apply (grid_Forall_slots _ g q q 8 Hg); intros i j Hi Hj.
    destruct (Hcells i j Hi Hj) as [Hin Hout].
    destruct (Nat.lt_ge_cases i (Z.to_nat (Z.of_nat (nrows img) / cs)))
      as [Hi' | Hi'];
      [ destruct (Nat.lt_ge_cases j (Z.to_nat (Z.of_nat (nrows img) / cs)))
          as [Hj' | Hj'] | ].
    - rewrite Hin by assumption.
      apply cell_histogram_nonneg; [ lia | exact HG ].
    - rewrite Hout by (right; exact Hj').
      apply Forall_forall; intros x Hx; apply repeat_spec in Hx; lra.
    - rewrite Hout by (left; exact Hi').
      apply Forall_forall; intros x Hx; apply repeat_spec in Hx; lra. }
  destruct (descriptor_blocks g q q 8 K S Hg HK HS) as [out [Hd [Hout Hsl]]];
    try lia.
  rewrite Hq in Hout, Hsl.
  change (Z.of_nat 8) with 8%Z in Hout.
  exists g, out.
  split; [ exact Hrun | split; [ exact Hpos | split; [ exact Hd | ] ] ].
  split; [ exact Hout | split ].
  - now apply (descriptor_entries_bounded g K S).
  - apply (grid_Forall_slots _ out _ _ _ Hout); intros i j Hi Hj.
    rewrite (Hsl i j Hi Hj).
    destruct (Req_dec_T (norm (block_vector g K S (Z.of_nat i) (Z.of_nat j)))
                        0) as [H0 | Hn].
    + left; apply norm_zero_iff in H0.
      now rewrite normalize_zero.
    + right; now apply normalize_unit.
Qed.

Lemma pipeline_descriptor_witness :
  (2 <= nrows wide24)%nat /\ (nrows wide24 <= ncols wide24)%nat
  /\ (0 < 2)%Z /\ (1 <= 2)%Z /\ (1 <= 1)%Z
  /\ exists g out,
      create_image_histograms wide24 2 = OK (g, Some (bin_edges 8))
      /\ create_descriptor g 2 1 = OK out
      /\ grid_shape out 1 1 32.
Proof.
  assert (Hh : (2 <= nrows wide24)%nat) by (unfold wide24; extent).
  assert (Hle : (nrows wide24 <= ncols wide24)%nat)
    by (unfold wide24; extent).
  assert (Hcs : (0 < 2)%Z) by lia.
  assert (HK : (1 <= 2)%Z) by lia.
  assert (HS : (1 <= 1)%Z) by lia.
  split; [ exact Hh | split; [ exact Hle | split; [ exact Hcs | ] ] ].
  split; [ exact HK | split; [ exact HS | ] ].
  destruct (pipeline_descriptor wide24 2 2 1 Hh Hle Hcs eq_refl eq_refl
              HK HS) as [g [out [Hrun [_ [Hd [Hout _]]]]]].
  - unfold wide24, ncols; cbn; lia.
  - exists g, out; split; [ exact Hrun | split; [ exact Hd | exact Hout ] ].
Defined.

(** ** An image without any intensity *)

Lemma dot_zero_r (k r : list R) : all_zero r -> dot k r = 0.
Proof.
  intros H; revert k; induction H as [ | x r Hx _ IH ]; intros [ | a k ];
    cbn; try reflexivity.
  rewrite IH, Hx; ring.
Qed.

Lemma dot2_zero_r (k x : matrix) : Forall all_zero x -> dot2 k x = 0.
Proof.
  intros H; revert k; induction H as [ | r x Hr _ IH ]; intros [ | kr k ];
    cbn; try reflexivity.
  rewrite IH, dot_zero_r by exact Hr; ring.
Qed.

Lemma zeros_all_zero (n : nat) : all_zero (zeros n).
Proof.
  apply Forall_forall; intros x Hx; now apply repeat_spec in Hx.
Qed.

Lemma pad2d_zero (p : nat) (x : matrix) :
  Forall all_zero x -> Forall all_zero (pad2d p x).
Proof.
  intros H; unfold pad2d.
  assert (Hrep : forall w, Forall all_zero (repeat (zeros w) p)).
  { intros w; apply Forall_forall; intros r Hr.
    apply repeat_spec in Hr; subst; apply zeros_all_zero. }
  apply Forall_app; split; [ apply Hrep | ].
  apply Forall_app; split; [ | apply Hrep ].
  rewrite Forall_map.
  eapply Forall_impl; [ | exact H ]; cbn; intros r Hr.
  apply Forall_app; split; [ apply zeros_all_zero | ].
  apply Forall_app; split; [ exact Hr | apply zeros_all_zero ].
Qed.

Lemma sobel_out_zero (k x : matrix) :
  Forall all_zero x -> Forall all_zero (sobel_out k x).
Proof.
  intros H; unfold sobel_out.
  rewrite Forall_map; apply Forall_forall; intros i _.
  unfold all_zero; rewrite Forall_map; apply Forall_forall; intros j _.
  apply dot2_zero_r.
  rewrite Forall_map; apply Forall_skipn'.
  eapply Forall_impl; [ | exact (pad2d_zero 1 x H) ]; cbn.
  intros r Hr; now apply Forall_skipn'.
Qed.

Lemma map2_Forall2 {A B C : Type} (P : A -> Prop) (Q : B -> Prop)
      (T : C -> Prop) (f : A -> B -> C) (l1 : list A) (l2 : list B) :
  (forall x y, P x -> Q y -> T (f x y)) ->
  Forall P l1 -> Forall Q l2 -> Forall T (map2 f l1 l2).
Proof.
  intros Hf H1; revert l2; induction H1 as [ | x l1 Hx _ IH ];
    intros l2 H2; [ constructor | ].
  destruct H2 as [ | y l2 Hy H2 ]; [ constructor | ].
  change (map2 f (x :: l1) (y :: l2)) with (f x y :: map2 f l1 l2).
  constructor; [ now apply Hf | now apply IH ].
Qed.

Lemma wsum_zero_weights (p : R -> bool) (a w : list R) :
  all_zero w -> wsum p a w = 0.
Proof.
  intros H; revert a; induction H as [ | c w Hc _ IH ]; intros [ | x a ];
    cbn [wsum]; try reflexivity.
  rewrite IH, Hc; destruct (p x); ring.
Qed.

Lemma cell_histogram_zero (O G : matrix) (cs : Z) (nb : nat) (i j : Z) :
  (1 <= nb)%nat -> Forall all_zero G ->
  all_zero (cell_histogram O G cs nb i j).
Proof.
  intros Hnb HG.
  pose proof (cell_histogram_length O G cs nb i j) as Hlen.
  apply Forall_nth; intros k d Hk; rewrite Hlen in Hk.
  rewrite (nth_indep _ d 0) by lia.
  unfold cell_histogram; rewrite histogram_bin by assumption.
  apply wsum_zero_weights, Forall_concat.
  unfold cell_of; rewrite Forall_map; apply Forall_slice.
  eapply Forall_impl; [ | exact HG ]; cbn; intros r Hr.
  now apply Forall_slice.
Qed.

Lemma magnitudes_zero (img O G : matrix) :
  (2 <= nrows img)%nat -> (2 <= ncols img)%nat ->
  Forall all_zero img ->
  compute_magnitudes_and_orientations img = OK (Arr2 O, Arr2 G) ->
  Forall all_zero G.
Proof.
  intros Hh Hw Hz H; unfold compute_magnitudes_and_orientations in H.
  rewrite gradients_2d in H by assumption; cbn [bind] in H.
  rewrite arr_map2_map in H; cbn [arr_map2 bind] in H.
  inversion H; subst; clear H.
  apply (map2_Forall2 all_zero all_zero);
    [ | now apply sobel_out_zero | now apply sobel_out_zero ].
  intros r1 r2 H1 H2.
  apply (map2_Forall2 (fun x => x = 0) (fun y => y = 0));
    [ | exact H1 | exact H2 ].
  intros x y -> ->; ring.
Qed.

(** X16.  An image without any intensity goes through both stages without
    an error: every histogram of its grid is all zero, every block has norm
    0, the division is skipped, and the descriptor is all zero. *)
Theorem black_image_descriptor (img : matrix) (cs K S : Z) :
  (2 <= nrows img)%nat -> (nrows img <= ncols img)%nat -> (0 < cs)%Z ->
  (Z.of_nat (nrows img) mod cs = 0)%Z ->
  (Z.of_nat (ncols img) mod cs = 0)%Z ->
  (1 <= K)%Z -> (1 <= S)%Z -> (K <= Z.of_nat (ncols img) / cs)%Z ->
  Forall all_zero img ->
  exists g out,
    create_image_histograms img cs = OK (g, Some (bin_edges 8))
    /\ Forall (Forall all_zero) g
    /\ create_descriptor g K S = OK out
    /\ Forall (Forall all_zero) out.
Proof.
  intros Hh Hle Hcs HN HM HK HS HKq Hz.
  destruct (histograms_wide_content img cs Hh Hle Hcs HN HM)
    as [O [G [g [Hc [Hrun [Hg Hcells]]]]]].
  pose proof (magnitudes_zero img O G Hh ltac:(lia) Hz Hc) as HG.
  set (q := Z.to_nat (Z.of_nat (ncols img) / cs)) in *.
  assert (Hzero : Forall (Forall all_zero) g).
  { apply (grid_Forall_slots _ g q q 8 Hg); intros i j Hi Hj.
    destruct (Hcells i j Hi Hj) as [Hin Hout].
    destruct (Nat.lt_ge_cases i (Z.to_nat (Z.of_nat (nrows img) / cs)))
      as [Hi' | Hi'];
      [ destruct (Nat.lt_ge_cases j (Z.to_nat (Z.of_nat (nrows img) / cs)))
          as [Hj' | Hj'] | ].
    - rewrite Hin by assumption.
      apply cell_histogram_zero; [ lia | exact HG ].
    - rewrite Hout by (right; exact Hj'); apply zeros_all_zero.
    - rewrite Hout by (left; exact Hi'); apply zeros_all_zero. }
  destruct (descriptor_blocks g q q 8 K S Hg HK HS) as [out [Hd [Hout Hsl]]];
    try (unfold q; lia).
  exists g, out.
  split; [ exact Hrun | split; [ exact Hzero | split; [ exact Hd | ] ] ].
  apply (grid_Forall_slots _ out _ _ _ Hout); intros i j Hi Hj.
  rewrite (Hsl i j Hi Hj).
  assert (Hb : all_zero (block_vector g K S (Z.of_nat i) (Z.of_nat j)))
    by now apply block_vector_Forall.
  now rewrite normalize_zero.
Qed.

Lemma black_image_descriptor_witness :
  (2 <= nrows (const_image 4 4 0))%nat /\ (0 < 2)%Z
  /\ Forall all_zero (const_image 4 4 0)
  /\ exists g out,
      create_image_histograms (const_image 4 4 0) 2
      = OK (g, Some (bin_edges 8))
      /\ create_descriptor g 2 1 = OK out
      /\ Forall (Forall all_zero) out.
Proof.
  assert (Hh : (2 <= nrows (const_image 4 4 0))%nat)
    by (unfold const_image; extent).
  assert (Hle : (nrows (const_image 4 4 0) <= ncols (const_image 4 4 0))%nat)
    by (unfold const_image; extent).
  assert (Hcs : (0 < 2)%Z) by lia.
  assert (HK : (1 <= 2)%Z) by lia.
  assert (HS : (1 <= 1)%Z) by lia.
  assert (Hz : Forall all_zero (const_image 4 4 0))
    by (unfold const_image; cbn [repeat]; repeat constructor).
  assert (HKq : (2 <= Z.of_nat (ncols (const_image 4 4 0)) / 2)%Z)
    by (unfold const_image, ncols; cbn [repeat hd length]; cbn; lia).
  split; [ exact Hh | split; [ exact Hcs | split; [ exact Hz | ] ] ].
  destruct (black_image_descriptor (const_image 4 4 0) 2 2 1 Hh Hle Hcs
              eq_refl eq_refl HK HS HKq Hz)
    as [g [out [Hrun [_ [Hd Hout]]]]].
  exists g, out; split; [ exact Hrun | split; [ exact Hd | exact Hout ] ].
Defined.
